(** * SQL Lab initial state

    A shallow embedding of
    [superset-frontend/src/SqlLab/reducers/getInitialState.js]:
    [dedupeTabHistory] and [getInitialState], together with the part of
    the JavaScript runtime the two functions rely on (property access,
    object literals and spread, truthiness, [===], [toString], [Number],
    [Set], [reduce] and [forEach], [try]/[catch]).

    The data model.  The bootstrap payload and the legacy blob are JSON
    data, so a value is a tree: [undefined], [null], booleans, numbers,
    strings, arrays, and records of own enumerable data properties.
    - Two occurrences of a record or array in such a tree are distinct
      references: [===] and [Set.has] never identify them.
    - A record is the list of its properties in enumeration order (array
      indices ascending, then the other keys in creation order).
    - Numbers are the binary64 values: [Number] reads a string by the
      StringNumericLiteral grammar and rounds to the nearest binary64,
      [toString] prints the shortest digits that read back.
    - Strings are Rocq strings, one character per code unit.
    - Of the prototype chain the model keeps what the program can observe:
      a record from JSON data has no callable property of its own, so its
      conversion to a string raises when it carries an own [toString]; and
      the one assignment [queries[k] = v] may reach the [__proto__]
      accessor of [Object.prototype].

    Effects.  A computation that can raise returns a [result]; inside the
    [try] the variables assigned before the exception keep their values
    ([completion]).  [localStorage] is passed in and returned; the
    collaborators outside the module ([t], [getToastsFromPyFlashMessages],
    [Date.now], [JSON.parse]) are the fields of a [host]. *)

From Stdlib Require Import ZArith String Ascii List Bool Lia DecimalString.
Import ListNotations.
Set Warnings "-register-all".
Open Scope string_scope.
Open Scope list_scope.

(** ** Values *)

(** A number is an IEEE 754 binary64 value: [NaN], an integer, a number
    [m / 2^k] that is not an integer ([m] odd), the negative zero, or an
    infinity.  [Int 0] is the positive zero; an integer is a binary64 when
    it has at most 53 significant bits and is below [2^1024]. *)
Inductive number :=
| NaN
| Int (z : Z)
| Frac (m : Z) (k : positive)
| NegZero
| Infinity (negative : bool).

Inductive value :=
| VUndef
| VNull
| VBool (b : bool)
| VNum (n : number)
| VStr (s : string)
| VArr (items : list value)
| VObj (fields : list (string * value)).

(** The own properties of a record, in the order [Object.keys] lists them. *)
Definition props := list (string * value).

(** ** Exceptions *)

Inductive exn := TypeError | SyntaxError | SecurityError.

Inductive result (A : Type) :=
| Ok (a : A)
| Throw (e : exn).

Arguments Ok {A} a.
Arguments Throw {A} e.

Definition bind {A B} (c : result A) (k : A -> result B) : result B :=
  match c with
  | Ok a => k a
  | Throw e => Throw e
  end.

Notation "x <- c ;; k" := (bind c (fun x => k))
  (at level 61, c at next level, right associativity).

(** ** Primitive conversions *)

Definition truthy (v : value) : bool :=
  match v with
  | VUndef | VNull => false
  | VBool b => b
  | VNum NaN => false
  | VNum (Int z) => negb (z =? 0)%Z
  | VNum (Frac m _) => negb (m =? 0)%Z
  | VNum NegZero => false
  | VNum (Infinity _) => true
  | VStr s => negb (s =? "")
  | VArr _ | VObj _ => true
  end.

(** [a || b] and [a && b]. *)
Definition js_or (a b : value) : value := if truthy a then a else b.
Definition js_and (a b : value) : value := if truthy a then b else a.

(** The finite number [n] is [m / 2^k]. *)
Definition finite_value (n : number) : option (Z * Z) :=
  match n with
  | Int z => Some (z, 0%Z)
  | Frac m k => Some (m, Zpos k)
  | NegZero => Some (0%Z, 0%Z)
  | NaN | Infinity _ => None
  end.

(** Number::equal. *)
Definition number_equal (x y : number) : bool :=
  match finite_value x, finite_value y with
  | Some (m, k), Some (m', k') => (m * 2 ^ k' =? m' * 2 ^ k)%Z
  | None, None =>
      match x, y with
      | Infinity a, Infinity b => Bool.eqb a b
      | _, _ => false
      end
  | _, _ => false
  end.

(** [a === b].  Records and arrays compare by reference, and no two
    occurrences in a data tree share one. *)
Definition strict_eq (a b : value) : bool :=
  match a, b with
  | VUndef, VUndef => true
  | VNull, VNull => true
  | VBool x, VBool y => Bool.eqb x y
  | VNum (Int x), VNum (Int y) => (x =? y)%Z
  | VNum x, VNum y => number_equal x y
  | VStr x, VStr y => (x =? y)
  | _, _ => false
  end.

(** SameValueZero, the comparison of [Set.prototype.has]. *)
Definition same_value_zero (a b : value) : bool :=
  match a, b with
  | VNum NaN, VNum NaN => true
  | _, _ => strict_eq a b
  end.

(** *** Number values *)

(** The nearest integer to [n / d], a tie going to the even one. *)
Definition round_half_even (n d : Z) : Z :=
  let q := (n / d)%Z in
  match (2 * (n mod d) ?= d)%Z with
  | Lt => q
  | Gt => (q + 1)%Z
  | Eq => if Z.even q then q else (q + 1)%Z
  end.

(** [(p / q) * b^e] as a fraction. *)
Definition scale (b p q e : Z) : Z * Z :=
  if (0 <=? e)%Z then (p * b ^ e, q)%Z else (p, q * b ^ (- e))%Z.

(** The [e] with [2^e <= p / q < 2^(e + 1)]. *)
Definition binade (p q : Z) : Z :=
  let e := (Z.log2 p - Z.log2 q)%Z in
  let (a, b) := scale 2 p q (- e) in
  if (a <? b)%Z then (e - 1)%Z else e.

(** The number [m * 2^u] of the given sign, [0 <= m]. *)
Definition dyadic (negative : bool) (m u : Z) : number :=
  if (m =? 0)%Z then (if negative then NegZero else Int 0)
  else
    let s := if negative then (- m)%Z else m in
    if (0 <=? u)%Z then Int (s * 2 ^ u)
    else
      let t := Z.min (Z.log2 (Z.land m (- m))) (- u) in
      let k := (- u - t)%Z in
      if (k =? 0)%Z then Int (s / 2 ^ t) else Frac (s / 2 ^ t) (Z.to_pos k).

(** The Number value for the real [p / q] of the given sign ([0 <= p],
    [0 < q]): the binary64 nearest to it, a tie going to the even
    significand, and an infinity from [2^1024 - 2^970] on. *)
Definition nearest_double (negative : bool) (p q : Z) : number :=
  if (p =? 0)%Z then (if negative then NegZero else Int 0)
  else
    let u := (Z.max (binade p q) (-1022) - 52)%Z in
    let (a, b) := scale 2 p q (- u) in
    let m := round_half_even a b in
    if (0 <=? u)%Z && (2 ^ 1024 <=? m * 2 ^ u)%Z then Infinity negative
    else dyadic negative m u.

(** *** Number::toString *)

Definition decimal (z : Z) : string := NilZero.string_of_uint (N.to_uint (Z.to_N z)).

Fixpoint zeros (n : nat) : string :=
  match n with
  | O => EmptyString
  | S n' => String "0" (zeros n')
  end.

(** The [n] with [10^(n - 1) <= p / q < 10^n]. *)
Definition decimal_exponent (p q : Z) : Z :=
  let n := (Z.of_nat (String.length (decimal p)) - Z.of_nat (String.length (decimal q)))%Z in
  let (a, b) := scale 10 p q (- n) in
  if (b <=? a)%Z then (n + 1)%Z else n.

(** The [s] of [k] digits for which [s * 10^(n - k)] has the Number value
    [x = p / q], if there is one: the nearer of the two integers next to
    [x * 10^(k - n)] when both have, the even one at a tie. *)
Definition digits_at (x : number) (p q n k : Z) : option Z :=
  let (a, b) := scale 10 p q (k - n) in
  let lo := (a / b)%Z in
  let hi := (lo + 1)%Z in
  let denotes s := let (c, d) := scale 10 s 1 (n - k) in
                   number_equal x (nearest_double false c d) in
  match denotes lo, denotes hi with
  | true, true =>
      match (2 * (a mod b) ?= b)%Z with
      | Lt => Some lo
      | Gt => Some hi
      | Eq => Some (if Z.even lo then lo else hi)
      end
  | true, false => Some lo
  | false, true => Some hi
  | false, false => None
  end.

(** The least [k] from [k] on that has such an [s]; a binary64 has one by
    [k = 17]. *)
Fixpoint shortest (fuel : nat) (x : number) (p q n k : Z) : Z * Z :=
  match fuel with
  | O => (let (a, b) := scale 10 p q (k - n) in round_half_even a b, k)
  | S fuel' =>
      match digits_at x p q n k with
      | Some s => (s, k)
      | None => shortest fuel' x p q n (k + 1)
      end
  end.

(** The digits of a positive finite number [x = p / q]. *)
Definition positive_to_string (x : number) (p q : Z) : string :=
  let n0 := decimal_exponent p q in
  let (s0, k0) := shortest 16 x p q n0 1 in
  let '(s, k, n) := if (s0 =? 10 ^ k0)%Z then (1, 1, n0 + 1)%Z else (s0, k0, n0) in
  let ds := decimal s in
  (if (k <=? n)%Z && (n <=? 21)%Z then ds ++ zeros (Z.to_nat (n - k))
   else if (0 <? n)%Z && (n <=? 21)%Z
   then substring 0 (Z.to_nat n) ds ++ "." ++ substring (Z.to_nat n) (Z.to_nat (k - n)) ds
   else if (-6 <? n)%Z && (n <=? 0)%Z then "0." ++ zeros (Z.to_nat (- n)) ++ ds
   else
     let e := (n - 1)%Z in
     let exponent := (if (e <? 0)%Z then "e-" else "e+") ++ decimal (Z.abs e) in
     if (k =? 1)%Z then ds ++ exponent
     else substring 0 1 ds ++ "." ++ substring 1 (Z.to_nat (k - 1)) ds ++ exponent)%string.

Definition NumberToString (n : number) : string :=
  match n with
  | NaN => "NaN"
  | NegZero => "0"
  | Infinity negative => if negative then "-Infinity" else "Infinity"
  | Int z =>
      if (z =? 0)%Z then "0"
      else ((if (z <? 0)%Z then "-" else EmptyString)
            ++ positive_to_string (Int (Z.abs z)) (Z.abs z) 1)%string
  | Frac m k =>
      ((if (m <? 0)%Z then "-" else EmptyString)
       ++ positive_to_string (Frac (Z.abs m) k) (Z.abs m) (2 ^ Zpos k))%string
  end.

(** *** StringToNumber *)

(** StrWhiteSpaceChar, among the code units below 256. *)
Definition is_white_space (c : ascii) : bool :=
  let n := nat_of_ascii c in
  ((9 <=? n) && (n <=? 13))%nat || (n =? 32)%nat || (n =? 160)%nat.

Fixpoint trim_start (s : string) : string :=
  match s with
  | String c r => if is_white_space c then trim_start r else s
  | EmptyString => s
  end.

Fixpoint trim_end (s : string) : string :=
  match s with
  | String c r =>
      match trim_end r with
      | EmptyString => if is_white_space c then EmptyString else String c EmptyString
      | r' => String c r'
      end
  | EmptyString => s
  end.

Definition digit_of (base : Z) (c : ascii) : option Z :=
  let n := Z.of_nat (nat_of_ascii c) in
  let d := if (48 <=? n)%Z && (n <=? 57)%Z then (n - 48)%Z
           else if (97 <=? n)%Z && (n <=? 102)%Z then (n - 87)%Z
           else if (65 <=? n)%Z && (n <=? 70)%Z then (n - 55)%Z
           else base in
  if (d <? base)%Z then Some d else None.

(** The longest prefix of digits: its value on top of [acc], the number of
    its digits, and what follows it. *)
Fixpoint read_digits (base : Z) (s : string) (acc : Z) (count : nat) : Z * nat * string :=
  match s with
  | String c r =>
      match digit_of base c with
      | Some d => read_digits base r (acc * base + d)%Z (S count)
      | None => (acc, count, s)
      end
  | EmptyString => (acc, count, s)
  end.

(** NonDecimalIntegerLiteral: [0x], [0o], [0b] and at least one digit. *)
Definition non_decimal (s : string) : option number :=
  match s with
  | String "0" (String c r) =>
      let base := if (c =? "x")%char || (c =? "X")%char then 16%Z
                  else if (c =? "o")%char || (c =? "O")%char then 8%Z
                  else if (c =? "b")%char || (c =? "B")%char then 2%Z
                  else 0%Z in
      if (base =? 0)%Z then None
      else
        let '(v, n, rest) := read_digits base r 0 0 in
        Some (match n, rest with
              | S _, EmptyString => nearest_double false v 1
              | _, _ => NaN
              end)
  | _ => None
  end.

(** ExponentPart, or nothing. *)
Definition read_exponent (s : string) : option Z :=
  match s with
  | EmptyString => Some 0%Z
  | String c r =>
      if (c =? "e")%char || (c =? "E")%char then
        let (negative, r') :=
          match r with
          | String "+" r' => (false, r')
          | String "-" r' => (true, r')
          | _ => (false, r)
          end in
        let '(v, n, rest) := read_digits 10 r' 0 0 in
        match n, rest with
        | S _, EmptyString => Some (if negative then (- v)%Z else v)
        | _, _ => None
        end
      else None
  end.

(** StrUnsignedDecimalLiteral.  The digits [m] before and after the point
    and the exponent [e] denote [m * 10^e]; beyond [10^400], and below
    [10^-400], the Number value is an infinity, or zero, whatever the
    digits are. *)
Definition unsigned_decimal (negative : bool) (s : string) : number :=
  if s =? "Infinity" then Infinity negative
  else
    let '(i, ni, r1) := read_digits 10 s 0 0 in
    let '(m, nf, r2) :=
      match r1 with
      | String "." r => read_digits 10 r i 0
      | _ => (i, O, r1)
      end in
    match (ni + nf)%nat, read_exponent r2 with
    | S _, Some x =>
        let e := (x - Z.of_nat nf)%Z in
        if (m =? 0)%Z then nearest_double negative 0 1
        else if (400 <=? e)%Z then Infinity negative
        else if (e + Z.of_nat (ni + nf) <=? -400)%Z then nearest_double negative 0 1
        else let (p, q) := scale 10 m 1 e in nearest_double negative p q
    | _, _ => NaN
    end.

(** StringToNumber: the StringNumericLiteral grammar between white space;
    the empty literal is [+0], and what the grammar does not derive is
    [NaN]. *)
Definition StringToNumber (s : string) : number :=
  match trim_end (trim_start s) with
  | EmptyString => Int 0
  | String "+" r => unsigned_decimal false r
  | String "-" r => unsigned_decimal true r
  | r =>
      match non_decimal r with
      | Some n => n
      | None => unsigned_decimal false r
      end
  end.

(** ** Records as ordered property lists *)

Fixpoint obj_get (k : string) (o : props) : option value :=
  match o with
  | [] => None
  | (k', v) :: o' => if k' =? k then Some v else obj_get k o'
  end.

Definition has_own (k : string) (o : props) : bool :=
  match obj_get k o with
  | Some _ => true
  | None => false
  end.

(** An array index is a canonical numeric string below 2^32 - 1; such keys
    are enumerated first, in ascending order, the others after them in
    creation order. *)
Definition array_index (k : string) : option N :=
  match NilZero.uint_of_string k with
  | Some u =>
      let n := N.of_uint u in
      if (NilZero.string_of_uint (N.to_uint n) =? k) && (n <? 4294967295)%N
      then Some n
      else None
  | None => None
  end.

Fixpoint replace_own (k : string) (v : value) (o : props) : props :=
  match o with
  | [] => []
  | (k', v') :: o' =>
      if k' =? k then (k', v) :: o' else (k', v') :: replace_own k v o'
  end.

Fixpoint insert_index (i : N) (k : string) (v : value) (o : props) : props :=
  match o with
  | [] => [(k, v)]
  | (k', v') :: o' =>
      match array_index k' with
      | Some j =>
          if (j <? i)%N then (k', v') :: insert_index i k v o'
          else (k, v) :: o
      | None => (k, v) :: o
      end
  end.

(** CreateDataProperty: an existing key keeps its place. *)
Definition obj_set (k : string) (v : value) (o : props) : props :=
  if has_own k o then replace_own k v o
  else match array_index k with
       | Some i => insert_index i k v o
       | None => o ++ [(k, v)]
       end.

Fixpoint obj_remove (k : string) (o : props) : props :=
  match o with
  | [] => []
  | (k', v) :: o' =>
      if k' =? k then obj_remove k o' else (k', v) :: obj_remove k o'
  end.

Fixpoint indexed {A} (i : N) (l : list A) : list (string * A) :=
  match l with
  | [] => []
  | x :: r => (NilZero.string_of_uint (N.to_uint i), x) :: indexed (N.succ i) r
  end.

Definition chars (s : string) : list value :=
  map (fun c => VStr (String c EmptyString)) (list_ascii_of_string s).

(** The own enumerable properties a spread copies from its operand. *)
Definition own_enumerable (v : value) : props :=
  match v with
  | VObj o => o
  | VArr l => indexed 0 l
  | VStr s => indexed 0 (chars s)
  | _ => []
  end.

Definition assign_all (target src : props) : props :=
  fold_left (fun acc kv => obj_set (fst kv) (snd kv) acc) src target.

(** Object literals: [{ k: v, ...e }], evaluated left to right. *)
Inductive member_def :=
| Field (k : string) (v : value)
| Spread (v : value).

Definition define (o : props) (d : member_def) : props :=
  match d with
  | Field k v => obj_set k v o
  | Spread v => assign_all o (own_enumerable v)
  end.

Definition object_literal (defs : list member_def) : props :=
  fold_left define defs [].

(** [v.k] for the property names the program reads; none of them is
    inherited from a prototype. *)
Definition get_prop (v : value) (k : string) : result value :=
  match v with
  | VUndef | VNull => Throw TypeError
  | VObj o =>
      Ok (match obj_get k o with Some x => x | None => VUndef end)
  | VArr l =>
      Ok (if k =? "length" then VNum (Int (Z.of_nat (List.length l)))
          else match array_index k with
               | Some i => nth (N.to_nat i) l VUndef
               | None => VUndef
               end)
  | VStr s =>
      Ok (if k =? "length" then VNum (Int (Z.of_nat (String.length s)))
          else match array_index k with
               | Some i => nth (N.to_nat i) (chars s) VUndef
               | None => VUndef
               end)
  | VBool _ | VNum _ => Ok VUndef
  end.

(** ToString.  A record whose data carries an own [toString] property has
    no callable conversion left and raises [TypeError]; an array joins its
    elements. *)
Fixpoint ToString (v : value) : result string :=
  match v with
  | VUndef => Ok "undefined"
  | VNull => Ok "null"
  | VBool true => Ok "true"
  | VBool false => Ok "false"
  | VNum n => Ok (NumberToString n)
  | VStr s => Ok s
  | VObj o => if has_own "toString" o then Throw TypeError else Ok "[object Object]"
  | VArr l =>
      (fix join (l : list value) : result string :=
         match l with
         | [] => Ok ""
         | x :: r =>
             s <- match x with
                  | VUndef | VNull => Ok ""
                  | _ => ToString x
                  end;;
             match r with
             | [] => Ok s
             | _ => rest <- join r;; Ok (s ++ "," ++ rest)%string
             end
         end) l
  end.

Definition ToPropertyKey (v : value) : result string := ToString v.

(** [v.toString()]. *)
Definition toString (v : value) : result string :=
  match v with
  | VUndef | VNull => Throw TypeError
  | _ => ToString v
  end.

Definition ToNumber (v : value) : result number :=
  match v with
  | VUndef => Ok NaN
  | VNull => Ok (Int 0)
  | VBool b => Ok (Int (if b then 1 else 0))
  | VNum n => Ok n
  | VStr s => Ok (StringToNumber s)
  | VArr _ | VObj _ => s <- ToString v;; Ok (StringToNumber s)
  end.

(** [Number(v)]. *)
Definition Number (v : value) : result value :=
  n <- ToNumber v;; Ok (VNum n).

(** ** Arrays *)

(** The receiver of [forEach], [filter] and [reduce] must be an array. *)
Definition as_array (v : value) : result (list value) :=
  match v with
  | VArr l => Ok l
  | _ => Throw TypeError
  end.

(** The elements a spread argument [...v] iterates. *)
Definition iterate (v : value) : result (list value) :=
  match v with
  | VArr l => Ok l
  | VStr s => Ok (chars s)
  | _ => Throw TypeError
  end.

Definition Object_values (v : value) : result (list value) :=
  match v with
  | VUndef | VNull => Throw TypeError
  | _ => Ok (map snd (own_enumerable v))
  end.

(** [result.slice(-1)[0]]. *)
Definition last_item (result : list value) : value := last result VUndef.

(** [result.concat(item)] spreads an array argument. *)
Definition concat (result : list value) (item : value) : list value :=
  match item with
  | VArr l => result ++ l
  | _ => result ++ [item]
  end.

(** ** dedupeTabHistory *)

Definition dedupeTabHistory (tabHistory : list value) : list value :=
  fold_left
    (fun result tabId =>
       if strict_eq (last_item result) tabId then result
       else concat result tabId)
    tabHistory [].

(** ** The host: collaborators outside this module *)

Record host := {
  t : string -> string;
  getToastsFromPyFlashMessages : value -> value;
  Date_now : Z;
  JSON_parse : string -> result value;
}.

(** [localStorage]: unavailable (every access raises), or a key-value
    store of strings. *)
Inductive storage :=
| Denied
| Items (items : list (string * string)).

Fixpoint lookup (k : string) (items : list (string * string)) : option string :=
  match items with
  | [] => None
  | (k', s) :: r => if k' =? k then Some s else lookup k r
  end.

Definition getItem (ls : storage) (k : string) : result value :=
  match ls with
  | Denied => Throw SecurityError
  | Items items =>
      Ok (match lookup k items with Some s => VStr s | None => VNull end)
  end.

Definition removeItem (ls : storage) (k : string) : result storage :=
  match ls with
  | Denied => Throw SecurityError
  | Items items => Ok (Items (filter (fun e => negb (fst e =? k)) items))
  end.

(** [JSON.parse(v)] converts its argument to a string first. *)
Definition parse (h : host) (v : value) : result value :=
  s <- ToString v;; JSON_parse h s.

(** ** Control: loops and [try] *)

Fixpoint reduce {A B} (f : B -> A -> result B) (l : list A) (init : B) : result B :=
  match l with
  | [] => Ok init
  | x :: r => b <- f init x;; reduce f r b
  end.

Fixpoint filter_r {A} (p : A -> result bool) (l : list A) : result (list A) :=
  match l with
  | [] => Ok []
  | x :: r =>
      keep <- p x;;
      rest <- filter_r p r;;
      Ok (if keep then x :: rest else rest)
  end.

Fixpoint map_r {A B} (f : A -> result B) (l : list A) : result (list B) :=
  match l with
  | [] => Ok []
  | x :: r => y <- f x;; rest <- map_r f r;; Ok (y :: rest)
  end.

(** Inside [try] an exception leaves the assignments made so far in place. *)
Inductive completion (S : Type) :=
| Normal (s : S)
| Abrupt (e : exn) (s : S).

Arguments Normal {S} s.
Arguments Abrupt {S} e s.

Definition attempt {S A} (s : S) (c : result A) (k : A -> completion S) : completion S :=
  match c with
  | Ok a => k a
  | Throw e => Abrupt e s
  end.

Definition andThen {S} (c : completion S) (k : S -> completion S) : completion S :=
  match c with
  | Normal s => k s
  | Abrupt e s => Abrupt e s
  end.

(** A [forEach] whose callback reassigns a variable: the iterations before
    the one that raises have taken effect. *)
Fixpoint forEach {S A} (step : S -> A -> result S) (l : list A) (s : S) : completion S :=
  match l with
  | [] => Normal s
  | x :: r =>
      match step s x with
      | Ok s' => forEach step r s'
      | Throw e => Abrupt e s
      end
  end.

(** [try { body } catch (error) { }]. *)
Definition try_catch {S} (body : S -> completion S) (s : S) : S :=
  match body s with
  | Normal s' => s'
  | Abrupt _ s' => s'
  end.

(** ** getInitialState *)

(** The destructured parameter; an absent field is [VUndef]. *)
Record args := {
  defaultDbId : value;
  common : value;
  activeTab : value;
  tabStateIds : value;
  databases : value;
  queries_ : value;
  requestedQuery : value;
  user : value;
}.

(** A record together with its prototype link; [None] stands for
    [Object.prototype]. *)
Record jsobject := {
  own : props;
  prototype : option props;
}.

(** The variables of the function body. *)
Record state := {
  queryEditors : props;
  unsavedQueryEditor : value;
  tables : props;
  queries : jsobject;
  tabHistory : list value;
}.

Definition newline : string := String (ascii_of_nat 10) EmptyString.

Definition validationResult : value :=
  VObj (object_literal
          [Field "id" VNull; Field "errors" (VArr []); Field "completed" (VBool false)]).

Definition defaultQueryEditor (h : host) (a : args) : result props :=
  conf <- get_prop (common a) "conf";;
  queryLimit <- get_prop conf "DEFAULT_SQLLAB_LIMIT";;
  Ok (object_literal
        [Field "id" VNull;
         Field "loaded" (VBool true);
         Field "name" (VStr (t h "Untitled query"));
         Field "sql" (VStr ("SELECT *" ++ newline ++ "FROM" ++ newline ++ "WHERE"));
         Field "selectedText" VNull;
         Field "latestQueryId" VNull;
         Field "autorun" (VBool false);
         Field "templateParams" VNull;
         Field "dbId" (defaultDbId a);
         Field "queryLimit" queryLimit;
         Field "validationResult" validationResult;
         Field "hideLeftBar" (VBool false)]).

(** [o[k]] read for spreading: a missing key, or a member inherited from
    [Object.prototype], contributes no property. *)
Definition member (o : props) (k : string) : value :=
  match obj_get k o with
  | Some v => v
  | None => VUndef
  end.

(** [v?.k]. *)
Definition optional_prop (v : value) (k : string) : result value :=
  match v with
  | VUndef | VNull => Ok VUndef
  | _ => get_prop v k
  end.

(** The editor of one tab descriptor [{ id, label }]. *)
Definition tabQueryEditor (dflt : props) (activeTab : value) (tab : value) : result props :=
  id <- get_prop tab "id";;
  label <- get_prop tab "label";;
  active <- (if truthy activeTab
             then activeId <- get_prop activeTab "id";; Ok (strict_eq activeId id)
             else Ok false);;
  if active then
    id' <- toString id;;
    name <- get_prop activeTab "label";;
    sql <- get_prop activeTab "sql";;
    latest_query <- get_prop activeTab "latest_query";;
    latestQueryId <- (if truthy latest_query then get_prop latest_query "id" else Ok VNull);;
    saved_query <- get_prop activeTab "saved_query";;
    remoteId <- optional_prop saved_query "id";;
    autorun <- get_prop activeTab "autorun";;
    template_params <- get_prop activeTab "template_params";;
    database_id <- get_prop activeTab "database_id";;
    schema <- get_prop activeTab "schema";;
    query_limit <- get_prop activeTab "query_limit";;
    hide_left_bar <- get_prop activeTab "hide_left_bar";;
    Ok (object_literal
          [Field "id" (VStr id');
           Field "loaded" (VBool true);
           Field "name" name;
           Field "sql" (js_or sql VUndef);
           Field "selectedText" VUndef;
           Field "latestQueryId" latestQueryId;
           Field "remoteId" remoteId;
           Field "autorun" autorun;
           Field "templateParams" (js_or template_params VUndef);
           Field "dbId" database_id;
           Field "schema" schema;
           Field "queryLimit" query_limit;
           Field "validationResult" validationResult;
           Field "hideLeftBar" hide_left_bar])
  else
    id' <- toString id;;
    Ok (object_literal
          [Spread (VObj dflt);
           Field "id" (VStr id');
           Field "loaded" (VBool false);
           Field "name" label]).

Definition addTab (dflt : props) (activeTab : value) (queryEditors : props) (tab : value)
  : result props :=
  queryEditor <- tabQueryEditor dflt activeTab tab;;
  key <- ToPropertyKey (member queryEditor "id");;
  Ok (object_literal [Spread (VObj queryEditors); Field key (VObj queryEditor)]).

(** [const { k, ...rest } = v]: the rest record. *)
Definition rest_without (k : string) (v : value) : props :=
  assign_all [] (obj_remove k (own_enumerable v)).

Definition tabTable (tableSchema : value) : result props :=
  description <- get_prop tableSchema "description";;
  dataPreviewQueryId <- get_prop description "dataPreviewQueryId";;
  let persistData := rest_without "dataPreviewQueryId" description in
  database_id <- get_prop tableSchema "database_id";;
  tab_state_id <- get_prop tableSchema "tab_state_id";;
  queryEditorId <- toString tab_state_id;;
  schema <- get_prop tableSchema "schema";;
  table <- get_prop tableSchema "table";;
  expanded <- get_prop tableSchema "expanded";;
  id <- get_prop tableSchema "id";;
  Ok (object_literal
        [Field "dbId" database_id;
         Field "queryEditorId" (VStr queryEditorId);
         Field "schema" schema;
         Field "name" table;
         Field "expanded" expanded;
         Field "id" id;
         Field "dataPreviewQueryId" dataPreviewQueryId;
         Field "persistData" (VObj persistData);
         Field "initialized" (VBool true)]).

Definition addTable (tables : props) (tableSchema : value) : result props :=
  table <- tabTable tableSchema;;
  key <- ToPropertyKey (member table "id");;
  Ok (object_literal [Spread (VObj tables); Field key (VObj table)]).

Definition hasDescription (tableSchema : value) : result bool :=
  description <- get_prop tableSchema "description";;
  Ok (negb (strict_eq description VNull)).

(** Lines 48-138: the state loaded from the backend. *)
Definition serverState (h : host) (a : args) : result state :=
  dflt <- defaultQueryEditor h a;;
  tabs <- as_array (match tabStateIds a with VUndef => VArr [] | v => v end);;
  queryEditors <- reduce (addTab dflt (activeTab a)) tabs [];;
  tabHistory <- (if truthy (activeTab a)
                 then id <- get_prop (activeTab a) "id";;
                      s <- toString id;;
                      Ok [VStr s]
                 else Ok []);;
  tables <- (if truthy (activeTab a)
             then table_schemas <- get_prop (activeTab a) "table_schemas";;
                  all <- as_array table_schemas;;
                  described <- filter_r hasDescription all;;
                  reduce addTable described []
             else Ok []);;
  Ok {| queryEditors := queryEditors;
        unsavedQueryEditor := VObj [];
        tables := tables;
        queries := {| own := object_literal [Spread (queries_ a)]; prototype := None |};
        tabHistory := tabHistory |}.

(** Lines 159-171: one legacy editor absorbed into the editor mapping. *)
Definition legacyEditor (unsaved : value) (existing : value) (qe : value) : result props :=
  id <- get_prop qe "id";;
  title <- get_prop qe "title";;
  name <- get_prop qe "name";;
  unsavedId <- get_prop unsaved "id";;
  Ok (object_literal
        [Spread existing;
         Spread qe;
         Field "name" (js_or title name);
         Spread (js_and (VBool (strict_eq unsavedId id)) unsaved);
         Field "inLocalStorage" (VBool true);
         Field "loaded" (VBool true)]).

Definition addLegacyEditor (unsaved : value) (queryEditors : props) (qe : value)
  : result props :=
  id <- get_prop qe "id";;
  key <- ToPropertyKey id;;
  merged <- legacyEditor unsaved (member queryEditors key) qe;;
  Ok (object_literal [Spread (VObj queryEditors); Field key (VObj merged)]).

(** [expandedTables.has(x)]. *)
Definition Set_has (s : list value) (x : value) : bool :=
  existsb (fun y => same_value_zero y x) s.

(** Lines 173-186: the reducer over the legacy tables; the accumulator is
    paired with the [expandedTables] set of the enclosing scope.  [tables]
    is the mapping loaded from the backend. *)
Definition addLegacyTable (tables : props) (acc : props * list value) (table : value)
  : result (props * list value) :=
  let (merged, expandedTables) := acc in
  queryEditorId <- get_prop table "queryEditorId";;
  let expanded := negb (Set_has expandedTables queryEditorId) in
  let expandedTables' :=
    if expanded then expandedTables ++ [queryEditorId] else expandedTables in
  id <- get_prop table "id";;
  key <- ToPropertyKey id;;
  Ok (object_literal
        [Spread (VObj merged);
         Field key
           (VObj (object_literal
                    [Spread (member tables key);
                     Spread table;
                     Field "expanded" (VBool expanded)]))],
      expandedTables').

(** Does the prototype chain above [o] hold a data property [k]? *)
Definition inherits (k : string) (o : jsobject) : bool :=
  match prototype o with
  | Some p => has_own k p
  | None => false
  end.

(** [o[k] = v] for a record [v].  The key [__proto__], when it is neither
    an own property nor an inherited data property, reaches the accessor of
    [Object.prototype], which replaces the prototype and leaves the own
    properties as they are. *)
Definition assign_member (o : jsobject) (k : string) (v : props) : jsobject :=
  if (k =? "__proto__") && negb (has_own k (own o)) && negb (inherits k o)
  then {| own := own o; prototype := Some v |}
  else {| own := obj_set k (VObj v) (own o); prototype := prototype o |}.

(** Line 188. *)
Definition addLegacyQuery (queries : jsobject) (query : value) : result jsobject :=
  id <- get_prop query "id";;
  key <- ToPropertyKey id;;
  Ok (assign_member queries key
        (object_literal [Spread query; Field "inLocalStorage" (VBool true)])).

Definition set_queryEditors (st : state) (x : props) : state :=
  {| queryEditors := x; unsavedQueryEditor := unsavedQueryEditor st;
     tables := tables st; queries := queries st; tabHistory := tabHistory st |}.

Definition set_unsavedQueryEditor (st : state) (x : value) : state :=
  {| queryEditors := queryEditors st; unsavedQueryEditor := x;
     tables := tables st; queries := queries st; tabHistory := tabHistory st |}.

Definition set_tables (st : state) (x : props) : state :=
  {| queryEditors := queryEditors st; unsavedQueryEditor := unsavedQueryEditor st;
     tables := x; queries := queries st; tabHistory := tabHistory st |}.

Definition set_queries (st : state) (x : jsobject) : state :=
  {| queryEditors := queryEditors st; unsavedQueryEditor := unsavedQueryEditor st;
     tables := tables st; queries := x; tabHistory := tabHistory st |}.

Definition set_tabHistory (st : state) (x : list value) : state :=
  {| queryEditors := queryEditors st; unsavedQueryEditor := unsavedQueryEditor st;
     tables := tables st; queries := queries st; tabHistory := x |}.

(** [JSON.parse(localStorage.getItem('redux')).sqlLab] *)
Definition readSqlLab (h : host) (ls : storage) : result value :=
  item <- getItem ls "redux";;
  blob <- parse h item;;
  get_prop blob "sqlLab".

(** Lines 156-190: the legacy state is merged in. *)
Definition mergeLegacy (sqlLab : value) (st : state) : completion state :=
  attempt st (get_prop sqlLab "unsavedQueryEditor") (fun unsaved =>
  let st := set_unsavedQueryEditor st (js_or unsaved (VObj [])) in
  attempt st (qes <- get_prop sqlLab "queryEditors";; as_array qes) (fun qes =>
  andThen
    (forEach (fun st qe =>
                x <- addLegacyEditor (unsavedQueryEditor st) (queryEditors st) qe;;
                Ok (set_queryEditors st x))
       qes st) (fun st =>
  attempt st (legacy <- get_prop sqlLab "tables";;
              legacy <- as_array legacy;;
              reduce (addLegacyTable (tables st)) legacy (tables st, [])) (fun merged =>
  let st := set_tables st (fst merged) in
  attempt st (legacy <- get_prop sqlLab "queries";; Object_values legacy) (fun legacy =>
  andThen
    (forEach (fun st query =>
                x <- addLegacyQuery (queries st) query;;
                Ok (set_queries st x))
       legacy st) (fun st =>
  attempt st (legacy <- get_prop sqlLab "tabHistory";; iterate legacy) (fun legacy =>
  Normal (set_tabHistory st (tabHistory st ++ legacy))))))))).

(** Lines 141-192: the body of the [try], over the variables of the
    function and the store. *)
Definition legacyBody (h : host) (w : state * storage) : completion (state * storage) :=
  let (st, ls) := w in
  attempt w (getItem ls "redux") (fun item =>
  if negb (truthy item) then Normal w else
  attempt w (readSqlLab h ls) (fun present =>
  if negb (truthy present) then Normal w else
  attempt w (readSqlLab h ls) (fun sqlLab =>
  attempt w (qes <- get_prop sqlLab "queryEditors";; get_prop qes "length") (fun length =>
  if strict_eq length (VNum (Int 0))
  then attempt w (removeItem ls "redux") (fun ls' => Normal (st, ls'))
  else match mergeLegacy sqlLab st with
       | Normal st' => Normal (st', ls)
       | Abrupt e st' => Abrupt e (st', ls)
       end)))).

Definition legacyState (h : host) (st : state) (ls : storage) : state * storage :=
  try_catch (legacyBody h) (st, ls).

(** Lines 204-214: one query of the snapshot. *)
Definition coerceDttm (k : string) (query : value) : result value :=
  dttm <- get_prop query k;;
  if truthy dttm
  then n <- Number dttm;; Ok (VObj (object_literal [Field k n]))
  else Ok dttm.

Definition snapshotQuery (query : value) : result value :=
  startDttm <- coerceDttm "startDttm" query;;
  endDttm <- coerceDttm "endDttm" query;;
  Ok (VObj (object_literal [Spread query; Spread startDttm; Spread endDttm])).

(** [Object.fromEntries(Object.entries(queries).map(...))] *)
Definition snapshotQueries (queries : props) : result props :=
  entries <- map_r (fun kv => q <- snapshotQuery (snd kv);; Ok (fst kv, q)) queries;;
  Ok (assign_all [] entries).

(** Lines 197-234: the returned snapshot. *)
Definition snapshot (h : host) (a : args) (st : state) : result value :=
  queries <- snapshotQueries (own (queries st));;
  let sqlLab :=
    object_literal
      [Field "activeSouthPaneTab" (VStr "Results");
       Field "alerts" (VArr []);
       Field "databases" (databases a);
       Field "offline" (VBool false);
       Field "queries" (VObj queries);
       Field "queryEditors" (VArr (map snd (queryEditors st)));
       Field "tabHistory" (VArr (dedupeTabHistory (tabHistory st)));
       Field "tables" (VArr (map snd (tables st)));
       Field "queriesLastUpdate" (VNum (Int (Date_now h)));
       Field "user" (user a);
       Field "unsavedQueryEditor" (unsavedQueryEditor st);
       Field "queryCostEstimates" (VObj [])] in
  flash <- get_prop (js_or (common a) (VObj [])) "flash_messages";;
  let messageToasts := getToastsFromPyFlashMessages h (js_or flash (VArr [])) in
  flash_messages <- get_prop (common a) "flash_messages";;
  conf <- get_prop (common a) "conf";;
  Ok (VObj (object_literal
              [Field "sqlLab" (VObj sqlLab);
               Field "requestedQuery" (requestedQuery a);
               Field "messageToasts" messageToasts;
               Field "localStorageUsageInKilobytes" (VNum (Int 0));
               Field "common"
                 (VObj (object_literal
                          [Field "flash_messages" flash_messages;
                           Field "conf" conf]))])).

(** The call [getInitialState(a)] against the store [ls]: the store it
    leaves behind, and the snapshot it returns or the exception it raises. *)
Definition getInitialState (h : host) (a : args) (ls : storage) : storage * result value :=
  match serverState h a with
  | Throw e => (ls, Throw e)
  | Ok st =>
      let (st', ls') := legacyState h st ls in
      (ls', snapshot h a st')
  end.

(** * Vocabulary of the statements *)

(** ** Reading results *)

(** Reading a path of property names; [undefined] where a step fails. *)
Fixpoint path (v : value) (ks : list string) : value :=
  match ks with
  | [] => v
  | k :: r =>
      match get_prop v k with
      | Ok x => path x r
      | Throw _ => VUndef
      end
  end.

Definition elements (v : value) : list value :=
  match v with
  | VArr l => l
  | _ => []
  end.

(** The value of a computation that did not raise. *)
Definition value_of {A} (default : A) (r : result A) : A :=
  match r with
  | Ok a => a
  | Throw _ => default
  end.

(** The snapshot a call returned; [undefined] when it raised. *)
Definition returned (r : storage * result value) : value :=
  value_of VUndef (snd r).

(** The state a completion leaves behind. *)
Definition final {S} (c : completion S) : S :=
  match c with
  | Normal s => s
  | Abrupt _ s => s
  end.

(** ** Records *)

(** A record lists each key once. *)
Definition distinct_keys (o : props) : Prop := NoDup (map fst o).

(** The last binding of [k] in a property list: what a spread of the list
    leaves at [k]. *)
Fixpoint obj_get_last (k : string) (o : props) : option value :=
  match o with
  | [] => None
  | (k', v) :: o' =>
      match obj_get_last k o' with
      | Some x => Some x
      | None => if k' =? k then Some v else None
      end
  end.

Definition or_else {A} (x y : option A) : option A :=
  match x with
  | Some _ => x
  | None => y
  end.

(** The binding an object literal leaves at [k], given the one before it. *)
Fixpoint lookup_defs (k : string) (defs : list member_def) (init : option value)
  : option value :=
  match defs with
  | [] => init
  | Field k' v :: r => lookup_defs k r (if k' =? k then Some v else init)
  | Spread v :: r => lookup_defs k r (or_else (obj_get_last k (own_enumerable v)) init)
  end.

(** ** Tab history *)

(** Tab identifiers are strings or integers. *)
Definition is_identifier (v : value) : bool :=
  match v with
  | VStr _ | VNum (Int _) => true
  | _ => false
  end.

(** The callback of the fold in [dedupeTabHistory]. *)
Definition dedupe_step (result : list value) (tabId : value) : list value :=
  if strict_eq (last_item result) tabId then result else concat result tabId.

(** A history written as runs: each identifier with the number of times it
    is repeated immediately after its first occurrence. *)
Fixpoint expand (runs : list (value * nat)) : list value :=
  match runs with
  | [] => []
  | (x, n) :: r => x :: repeat x n ++ expand r
  end.

Fixpoint adjacent_distinct (l : list value) : Prop :=
  match l with
  | x :: r =>
      match r with
      | y :: _ => x <> y /\ adjacent_distinct r
      | [] => True
      end
  | [] => True
  end.

(** The runs of a history. *)
Fixpoint runs_of (xs : list value) : list (value * nat) :=
  match xs with
  | [] => []
  | x :: r =>
      match runs_of r with
      | (y, n) :: rs => if strict_eq x y then (y, S n) :: rs else (x, O) :: (y, n) :: rs
      | [] => [(x, O)]
      end
  end.

(** ** The legacy store *)

(** The legacy store yields no [sqlLab] record: the store cannot be read,
    the key is absent, the value does not parse, or the parsed value has no
    [sqlLab] sub-object. *)
Inductive legacy_unusable (h : host) : storage -> Prop :=
| store_unreadable :
    legacy_unusable h Denied
| key_absent items :
    lookup "redux" items = None ->
    legacy_unusable h (Items items)
| blob_unparsable items s e :
    lookup "redux" items = Some s ->
    JSON_parse h s = Throw e ->
    legacy_unusable h (Items items)
| blob_without_sqlLab items s blob :
    lookup "redux" items = Some s ->
    JSON_parse h s = Ok blob ->
    (forall o, get_prop blob "sqlLab" <> Ok (VObj o)) ->
    legacy_unusable h (Items items).

(** The legacy blob parses to a [sqlLab] record [sqlLab]. *)
Definition legacy_sqlLab (h : host) (items : list (string * string)) (sqlLab : props) : Prop :=
  exists s blob,
    lookup "redux" items = Some s /\ s <> ""
    /\ JSON_parse h s = Ok blob
    /\ get_prop blob "sqlLab" = Ok (VObj sqlLab).

(** The legacy queries of a [sqlLab] record: [Object.values(sqlLab.queries)]. *)
Definition legacyQueries (sqlLab : value) : result (list value) :=
  legacy <- get_prop sqlLab "queries";; Object_values legacy.

(** The query mapping as it stands when the snapshot is assembled. *)
Definition mergedQueries (h : host) (a : args) (ls : storage) : props :=
  match serverState h a with
  | Ok st => own (queries (fst (legacyState h st ls)))
  | Throw _ => []
  end.

(** ** Editors, tables and queries *)

(** An editor record that carries no [inLocalStorage] tag. *)
Definition untagged (qe : value) : Prop :=
  exists o, qe = VObj o /\ obj_get "inLocalStorage" o = None.

(** The names under which the editors of a snapshot are shown. *)
Definition editor_names (snap : value) : list value :=
  map (fun qe => path qe ["name"]) (elements (path snap ["sqlLab"; "queryEditors"])).

(** The key under which a table is filed, and the editor that owns it. *)
Definition tableKey (table : value) : result string :=
  id <- get_prop table "id";; ToPropertyKey id.

Definition owner (table : value) : value := path table ["queryEditorId"].

Definition table_owners (snap : value) : list value :=
  map owner (elements (path snap ["sqlLab"; "tables"])).

Definition expanded_flags (snap : value) : list value :=
  map (fun table => path table ["expanded"]) (elements (path snap ["sqlLab"; "tables"])).

Definition is_dttm (k : string) : bool := (k =? "startDttm") || (k =? "endDttm").

(** ** The input contract *)

Definition nullish (v : value) : bool :=
  match v with
  | VUndef | VNull => true
  | _ => false
  end.

Definition is_primitive (v : value) : bool :=
  match v with
  | VArr _ | VObj _ => false
  | _ => true
  end.

(** No [startDttm] or [endDttm] of the query holds a record or an array. *)
Definition plain_timestamps (query : value) : bool :=
  forallb (fun kv => negb (is_dttm (fst kv)) || is_primitive (snd kv))
    (own_enumerable query).

Definition query_ok (query : value) : bool :=
  negb (nullish query) && plain_timestamps query.

(** [common] is a record with a [conf] record. *)
Definition common_ok (common : value) : bool :=
  match common with
  | VObj o => match member o "conf" with VObj _ => true | _ => false end
  | _ => false
  end.

(** An identifier as the bootstrap data may give it: a string or a number. *)
Definition is_key (v : value) : bool :=
  match v with
  | VStr _ | VNum _ => true
  | _ => false
  end.

(** A tab descriptor [{ id, label }] whose [id] is a string or a number. *)
Definition tab_ok (tab : value) : bool :=
  match tab with
  | VObj o => is_key (member o "id")
  | _ => false
  end.

(** An entry of [table_schemas]: its [description] is [null], or a record,
    and then [tab_state_id] and [id] are strings or numbers. *)
Definition table_schema_ok (tableSchema : value) : bool :=
  match tableSchema with
  | VObj o =>
      match member o "description" with
      | VNull => true
      | VObj _ => is_key (member o "tab_state_id") && is_key (member o "id")
      | _ => false
      end
  | _ => false
  end.

(** [active_tab] is absent, or a record whose [id] is a string or a number
    and whose [table_schemas] is an array of table descriptors. *)
Definition activeTab_ok (activeTab : value) : bool :=
  match activeTab with
  | VUndef | VNull => true
  | VObj o =>
      is_key (member o "id")
      && match member o "table_schemas" with
         | VArr l => forallb table_schema_ok l
         | _ => false
         end
  | _ => false
  end.

Definition tabStateIds_ok (tabStateIds : value) : bool :=
  match tabStateIds with
  | VUndef => true
  | VArr l => forallb tab_ok l
  | _ => false
  end.

(** The input contract of section 6 of the specification, with the queries
    read as records that are not [null] and whose timestamps are plain. *)
Definition contract (a : args) : bool :=
  common_ok (common a)
  && tabStateIds_ok (tabStateIds a)
  && activeTab_ok (activeTab a)
  && forallb (fun kv => query_ok (snd kv)) (own_enumerable (queries_ a)).

(** Whatever the legacy store yields as [sqlLab], its queries have plain
    timestamps. *)
Definition legacy_timestamps_plain (h : host) (ls : storage) : Prop :=
  forall sqlLab legacy query,
    readSqlLab h ls = Ok sqlLab ->
    legacyQueries sqlLab = Ok legacy ->
    In query legacy ->
    plain_timestamps query = true.

(** * Sample inputs *)

(** A host whose parser reads the stored text ["legacy"] as [blob] and
    rejects every other text. *)
Definition host_reading (blob : value) : host :=
  {| t := fun s => s;
     getToastsFromPyFlashMessages := fun flash => flash;
     Date_now := 1700000000000;
     JSON_parse := fun s => if s =? "legacy" then Ok blob else Throw SyntaxError |}.

Definition legacy_store : storage := Items [("redux", "legacy")].

Definition sample_common : value :=
  VObj [("conf", VObj [("DEFAULT_SQLLAB_LIMIT", VNum (Int 1000))]);
        ("flash_messages", VArr [])].

Definition bootstrap (activeTab tabStateIds queries : value) : args :=
  {| defaultDbId := VNum (Int 1);
     common := sample_common;
     activeTab := activeTab;
     tabStateIds := tabStateIds;
     databases := VObj [];
     queries_ := queries;
     requestedQuery := VNull;
     user := VObj [] |}.

(** No tab at all. *)
Definition no_tab : args := bootstrap VUndef VUndef VUndef.

(** One server tab [{ id: 1, label: 'Old' }], no active tab. *)
Definition one_tab : args :=
  bootstrap VUndef (VArr [VObj [("id", VNum (Int 1)); ("label", VStr "Old")]]) (VObj []).

(** The editor mapping [serverState] builds for [one_tab], and its one
    editor, filed under the key ["1"]. *)
Definition one_tab_editors : props :=
  value_of [] (st <- serverState (host_reading VNull) one_tab;; Ok (queryEditors st)).

Definition one_tab_editor : props :=
  match obj_get "1" one_tab_editors with
  | Some (VObj o) => o
  | _ => []
  end.

(** A table of the active tab as the server describes it, flagged
    [expanded: true]. *)
Definition table_schema (id tab_state_id : Z) (description : value) : value :=
  VObj [("id", VNum (Int id)); ("tab_state_id", VNum (Int tab_state_id));
        ("database_id", VNum (Int 1)); ("schema", VStr "main");
        ("table", VStr "t"); ("expanded", VBool true);
        ("description", description)].

Definition active_tab_with (table_schemas : value) : value :=
  VObj [("id", VNum (Int 1)); ("label", VStr "Old"); ("table_schemas", table_schemas)].

Definition active_tab_args (table_schemas : value) : args :=
  bootstrap (active_tab_with table_schemas)
    (VArr [VObj [("id", VNum (Int 1)); ("label", VStr "Old")]]) (VObj []).

(** The active tab [1] with two described tables, both expanded. *)
Definition two_server_tables : args :=
  active_tab_args
    (VArr [table_schema 7 1 (VObj [("columns", VArr [])]);
           table_schema 8 1 (VObj [("columns", VArr [])])]).

(** The active tab [1] with a table whose [description] is [null] and one
    whose [description] is a record. *)
Definition one_described_table : args :=
  active_tab_args
    (VArr [table_schema 7 1 VNull;
           table_schema 8 1 (VObj [("dataPreviewQueryId", VStr "p"); ("columns", VArr [])])]).

(** The active tab [1] with a table whose descriptor has no [description]. *)
Definition undescribed_table : args :=
  active_tab_args
    (VArr [VObj [("id", VNum (Int 7)); ("tab_state_id", VNum (Int 1));
                 ("database_id", VNum (Int 1)); ("schema", VStr "main");
                 ("table", VStr "t"); ("expanded", VBool true)]]).

(** Two server queries: one with [startDttm: "1690000000000"], one with no
    [startDttm] and a falsy [endDttm]. *)
Definition timed_queries : args :=
  bootstrap VUndef (VArr [])
    (VObj [("q1", VObj [("id", VStr "q1"); ("startDttm", VStr "1690000000000")]);
           ("q2", VObj [("id", VStr "q2"); ("endDttm", VNum (Int 0))])]).

(** A server query filed under ['q1']. *)
Definition server_query_q1 : args :=
  bootstrap VUndef (VArr [])
    (VObj [("q1", VObj [("id", VStr "q1"); ("sql", VStr "SELECT 0"); ("rows", VNum (Int 5))])]).

(** A legacy blob [{ sqlLab: { queryEditors, tables, queries, tabHistory } }]. *)
Definition legacy_blob (queryEditors tables queries tabHistory : value) : value :=
  VObj [("sqlLab",
         VObj [("queryEditors", queryEditors);
               ("tables", tables);
               ("queries", queries);
               ("tabHistory", tabHistory)])].

(** The blob left behind by a completed migration: [queryEditors: []]. *)
Definition migrated_blob : value :=
  legacy_blob (VArr []) (VArr []) (VObj []) (VArr []).

(** The legacy editor of the specification's example,
    [{ id: '1', name: 'New', sql: 'SELECT 1' }]; one that mentions neither
    [name] nor [title]; one that supplies both. *)
Definition legacy_editor_New : props :=
  [("id", VStr "1"); ("name", VStr "New"); ("sql", VStr "SELECT 1")].

Definition legacy_editor_unnamed : props :=
  [("id", VStr "1"); ("sql", VStr "SELECT 1")].

Definition legacy_editor_titled : props :=
  [("id", VStr "1"); ("title", VStr "T"); ("name", VStr "N")].

Definition blob_with_editor (qe : props) : value :=
  legacy_blob (VArr [VObj qe]) (VArr []) (VObj []) (VArr []).

(** Three legacy tables of the editor ['1'], all flagged expanded. *)
Definition legacy_table (id queryEditorId : string) : value :=
  VObj [("id", VStr id); ("queryEditorId", VStr queryEditorId);
        ("name", VStr id); ("expanded", VBool true)].

Definition three_legacy_tables : list value :=
  [legacy_table "t1" "1"; legacy_table "t2" "1"; legacy_table "t3" "1"].

Definition three_tables_blob : value :=
  legacy_blob (VArr [VObj legacy_editor_New]) (VArr three_legacy_tables) (VObj []) (VArr []).

(** A legacy query that shares the identifier ['q1'] with a server query. *)
Definition legacy_query_q1 : props := [("id", VStr "q1"); ("sql", VStr "SELECT 1")].

Definition blob_with_query (key : string) (query : props) : value :=
  legacy_blob (VArr [VObj legacy_editor_New]) (VArr []) (VObj [(key, VObj query)]) (VArr []).

Definition legacy_query_blob : value := blob_with_query "q1" legacy_query_q1.

(** A legacy query whose identifier is [__proto__]. *)
Definition proto_query : props := [("id", VStr "__proto__"); ("sql", VStr "SELECT 1")].

Definition proto_query_blob : value := blob_with_query "k" proto_query.

(** A legacy query whose [startDttm] is a record with an own [toString]. *)
Definition record_timestamp_blob : value :=
  blob_with_query "q1"
    [("id", VStr "q1"); ("startDttm", VObj [("toString", VNum (Int 1))])].

(** Queries whose [startDttm] is a string in one of the other forms of a
    numeric literal, or no numeric literal at all. *)
Definition literal_queries : args :=
  bootstrap VUndef (VArr [])
    (VObj [("q1", VObj [("startDttm", VStr "1690000000000.5")]);
           ("q2", VObj [("startDttm", VStr "1e3")]);
           ("q3", VObj [("startDttm", VStr "0x1F")]);
           ("q4", VObj [("startDttm", VStr "9007199254740993")]);
           ("q5", VObj [("startDttm", VStr "soon")])]).

(** * Further sample inputs *)

Definition empty_state : state :=
  {| queryEditors := [];
     unsavedQueryEditor := VObj [];
     tables := [];
     queries := {| own := []; prototype := None |};
     tabHistory := [] |}.

(** The state [serverState] builds for [one_tab]. *)
Definition one_tab_state : state :=
  value_of empty_state (serverState (host_reading VNull) one_tab).

(** A legacy [sqlLab] record that stops after its editors: it has an
    unsaved editor and no [tables], [queries] or [tabHistory]. *)
Definition truncated_sqlLab : props :=
  [("queryEditors", VArr [VObj legacy_editor_New]);
   ("unsavedQueryEditor", VObj [("id", VStr "1"); ("sql", VStr "SELECT 2")])].

Definition truncated_blob : value := VObj [("sqlLab", VObj truncated_sqlLab)].

(** A legacy blob whose history revisits the tabs ['5'] and ['1']. *)
Definition history_blob : value :=
  legacy_blob (VArr [VObj legacy_editor_New]) (VArr []) (VObj [])
    (VArr [VStr "1"; VStr "5"; VStr "5"; VStr "1"]).

(** ** Tabs and tables of the bootstrap data *)

(** The tab descriptors the call iterates: [tab_state_ids], or none. *)
Definition tabsOf (a : args) : list value := elements (tabStateIds a).

(** The key under which the editor of a tab descriptor is filed. *)
Definition tabKey (tab : value) : result string := toString (path tab ["id"]).

(** The table descriptors of the active tab, and those the filter of line
    117 keeps. *)
Definition schemasOf (a : args) : list value :=
  elements (path (activeTab a) ["table_schemas"]).

Definition is_described (tableSchema : value) : bool :=
  negb (strict_eq (path tableSchema ["description"]) VNull).

(** A tab descriptor is the active one: [activeTab && activeTab.id === id]. *)
Definition is_active (activeTab tab : value) : bool :=
  truthy activeTab && strict_eq (path activeTab ["id"]) (path tab ["id"]).

(** The state [serverState] builds when the one tab is the active one and
    has no tables. *)
Definition active_tab_state : state :=
  value_of empty_state (serverState (host_reading VNull) (active_tab_args (VArr []))).

(** The state [serverState] builds for [one_described_table]. *)
Definition one_described_state : state :=
  value_of empty_state (serverState (host_reading VNull) one_described_table).

(** A legacy blob whose one editor, ['2'], is not a tab of the server. *)
Definition other_editor_blob : value :=
  blob_with_editor [("id", VStr "2"); ("name", VStr "Local")].

(** ** The order of [Object.values] *)

(** [k] is enumerated before [k']: array indices in ascending order, and
    before every other key. *)
Definition key_before (k k' : string) : bool :=
  match array_index k, array_index k' with
  | Some i, Some j => (i <? j)%N
  | Some _, None => true
  | None, Some _ => false
  | None, None => true
  end.

Fixpoint enumeration_order (keys : list string) : Prop :=
  match keys with
  | [] => True
  | k :: r => Forall (fun k' => key_before k k' = true) r /\ enumeration_order r
  end.

(** Tabs given in descending order of their identifiers. *)
Definition descending_tabs : args :=
  bootstrap VUndef
    (VArr [VObj [("id", VNum (Int 10)); ("label", VStr "Ten")];
           VObj [("id", VNum (Int 2)); ("label", VStr "Two")]])
    (VObj []).

(** ** Exceptions *)

(** A computation that raises nothing but [TypeError]. *)
Definition raises_only_TypeError {A} (c : result A) : Prop :=
  forall e, c = Throw e -> e = TypeError.

(** Bootstrap data the lines outside the [try] cannot process: no
    configuration, a tab list that is not an array, a tab without an
    identifier, an active tab without an identifier or without an array
    of tables, or a table with a missing description or no tab. *)
Definition malformed (a : args) : Prop :=
  nullish (path (common a) ["conf"]) = true
  \/ (tabStateIds a <> VUndef /\ forall l, tabStateIds a <> VArr l)
  \/ (exists tab, In tab (tabsOf a) /\ nullish (path tab ["id"]) = true)
  \/ (truthy (activeTab a) = true
      /\ (nullish (path (activeTab a) ["id"]) = true
          \/ (forall l, path (activeTab a) ["table_schemas"] <> VArr l)
          \/ exists tableSchema,
               In tableSchema (schemasOf a)
               /\ (path tableSchema ["description"] = VUndef
                   \/ (is_described tableSchema = true
                       /\ nullish (path tableSchema ["tab_state_id"]) = true)))).

(** Bootstrap data without [common.conf]. *)
Definition no_conf : args :=
  {| defaultDbId := VNum (Int 1);
     common := VObj [("flash_messages", VArr [])];
     activeTab := VUndef;
     tabStateIds := VUndef;
     databases := VObj [];
     queries_ := VObj [];
     requestedQuery := VNull;
     user := VObj [] |}.

(** The host of a later call: the same collaborators, the clock one
    second on. *)
Definition later_host (blob : value) : host :=
  {| t := t (host_reading blob);
     getToastsFromPyFlashMessages := getToastsFromPyFlashMessages (host_reading blob);
     Date_now := Date_now (host_reading blob) + 1000;
     JSON_parse := JSON_parse (host_reading blob) |}.

(** ** What the local storage can reach *)

(** The members of [sqlLab] that the legacy stage can change. *)
Definition merged_fields : list string :=
  ["queries"; "queryEditors"; "tabHistory"; "tables"; "unsavedQueryEditor"].

(** Two legacy tables filed under the same key ['t1']; only the first
    carries a [columns] member. *)
Definition repeated_legacy_tables : list value :=
  [VObj [("id", VStr "t1"); ("queryEditorId", VStr "1"); ("columns", VArr [])];
   VObj [("id", VStr "t1"); ("queryEditorId", VStr "1")]].

(** * Properties *)

(** ** Results, loops and completions *)

Lemma bind_Ok {A B} (c : result A) (k : A -> result B) (b : B) :
  bind c k = Ok b -> exists a, c = Ok a /\ k a = Ok b.
Proof. destruct c as [a|e]; simpl; [|discriminate]. intros H. now exists a. Qed.

Ltac binds H :=
  repeat (let x := fresh "x" in
          let E := fresh "E" in
          apply bind_Ok in H; destruct H as (x & E & H)).

Lemma reduce_invariant {A B} (P : B -> Prop) (f : B -> A -> result B) (l : list A) :
  (forall b x b', P b -> In x l -> f b x = Ok b' -> P b') ->
  forall init r, P init -> reduce f l init = Ok r -> P r.
Proof.
  induction l as [|x l IH]; intros Hstep init r Hinit; simpl.
  - now intros [= <-].
  - intros H. apply bind_Ok in H as (b & Hb & H).
    apply (IH (fun b0 y b' Hp Hy => Hstep b0 y b' Hp (or_intror Hy)) b r); [|exact H].
    apply (Hstep init x b Hinit); [now left|exact Hb].
Qed.

Lemma reduce_Ok {A B} (f : B -> A -> result B) (l : list A) :
  (forall b x, In x l -> exists b', f b x = Ok b') ->
  forall init, exists r, reduce f l init = Ok r.
Proof.
  induction l as [|x l IH]; intros Hf init; simpl; [now exists init|].
  destruct (Hf init x (or_introl eq_refl)) as (b & ->). simpl.
  apply IH. intros b0 y Hy. apply Hf. now right.
Qed.

Lemma map_r_Ok {A B} (f : A -> result B) (l : list A) :
  (forall x, In x l -> exists y, f x = Ok y) -> exists l', map_r f l = Ok l'.
Proof.
  induction l as [|x l IH]; intros Hf; simpl; [now exists []|].
  destruct (Hf x (or_introl eq_refl)) as (y & ->).
  destruct IH as (l' & ->); [intros z Hz; apply Hf; now right|].
  simpl. now eexists.
Qed.

Lemma filter_r_Ok {A} (p : A -> result bool) (l : list A) :
  (forall x, In x l -> exists b, p x = Ok b) ->
  exists l', filter_r p l = Ok l' /\ forall x, In x l' -> In x l /\ p x = Ok true.
Proof.
  induction l as [|x l IH]; intros Hp; simpl.
  - exists []. split; [reflexivity|intros x []].
  - destruct (Hp x (or_introl eq_refl)) as (b & Hb). rewrite Hb.
    destruct IH as (l' & -> & Hl'); [intros z Hz; apply Hp; now right|].
    simpl. eexists. split; [reflexivity|].
    intros z Hz. destruct b.
    + destruct Hz as [<-|Hz]; [split; [now left|exact Hb]|].
      destruct (Hl' z Hz). split; [now right|assumption].
    + destruct (Hl' z Hz). split; [now right|assumption].
Qed.

Lemma forEach_invariant {S A} (P : S -> Prop) (step : S -> A -> result S) (l : list A) :
  (forall s x s', P s -> In x l -> step s x = Ok s' -> P s') ->
  forall s, P s -> P (final (forEach step l s)).
Proof.
  induction l as [|x l IH]; intros Hstep s Hs; simpl; [exact Hs|].
  destruct (step s x) as [s'|e] eqn:E; [|exact Hs].
  apply IH.
  - intros s0 y s1 H0 Hy. apply Hstep; [exact H0|now right].
  - apply (Hstep s x s' Hs); [now left|exact E].
Qed.

Lemma final_andThen {S} (P : S -> Prop) (c : completion S) (k : S -> completion S) :
  P (final c) -> (forall s, c = Normal s -> P (final (k s))) -> P (final (andThen c k)).
Proof. destruct c as [s|e s]; simpl; intros Hc Hk; [now apply Hk|exact Hc]. Qed.

Lemma final_attempt {S A} (P : S -> Prop) (s : S) (c : result A) (k : A -> completion S) :
  P s -> (forall a, c = Ok a -> P (final (k a))) -> P (final (attempt s c k)).
Proof. destruct c as [a|e]; simpl; intros Hs Hk; [now apply Hk|exact Hs]. Qed.

(** ** Records *)

Lemma obj_get_app (k : string) (o1 o2 : props) :
  obj_get k (o1 ++ o2) = or_else (obj_get k o1) (obj_get k o2).
Proof.
  induction o1 as [|[k' v'] o1 IH]; simpl; [reflexivity|].
  destruct (k' =? k); [reflexivity|exact IH].
Qed.

Lemma obj_get_replace_own (k k' : string) (v : value) (o : props) :
  obj_get k' (replace_own k v o)
  = if (k =? k') && has_own k o then Some v else obj_get k' o.
Proof.
  unfold has_own. induction o as [|[k0 v0] o IH]; simpl.
  - now rewrite andb_false_r.
  - destruct (String.eqb_spec k0 k) as [->|Hne]; simpl.
    + destruct (String.eqb_spec k k'); reflexivity.
    + rewrite IH. destruct (String.eqb_spec k0 k') as [->|Hne'].
      * destruct (String.eqb_spec k k'); [congruence|reflexivity].
      * reflexivity.
Qed.

Lemma obj_get_insert_index (i : N) (k k' : string) (v : value) (o : props) :
  obj_get k o = None ->
  obj_get k' (insert_index i k v o) = if k =? k' then Some v else obj_get k' o.
Proof.
  induction o as [|[k0 v0] o IH]; simpl; intros Hnone.
  - reflexivity.
  - destruct (String.eqb_spec k0 k) as [->|Hne]; [discriminate|].
    assert (E : obj_get k' ((k, v) :: (k0, v0) :: o)
                = if k =? k' then Some v else obj_get k' ((k0, v0) :: o)) by reflexivity.
    destruct (array_index k0) as [j|]; [destruct (j <? i)%N|]; try exact E.
    simpl. rewrite (IH Hnone).
    destruct (String.eqb_spec k0 k') as [->|]; [|reflexivity].
    destruct (String.eqb_spec k k'); [congruence|reflexivity].
Qed.

Lemma obj_get_set (k k' : string) (v : value) (o : props) :
  obj_get k' (obj_set k v o) = if k =? k' then Some v else obj_get k' o.
Proof.
  unfold obj_set. destruct (has_own k o) eqn:Hown.
  - rewrite obj_get_replace_own, Hown, andb_true_r. reflexivity.
  - assert (Hnone : obj_get k o = None).
    { unfold has_own in Hown. destruct (obj_get k o); [discriminate|reflexivity]. }
    destruct (array_index k) as [i|].
    + now apply obj_get_insert_index.
    + rewrite obj_get_app. simpl.
      destruct (String.eqb_spec k k') as [<-|].
      * now rewrite Hnone.
      * destruct (obj_get k' o); reflexivity.
Qed.

Lemma obj_get_set_same (k : string) (v : value) (o : props) :
  obj_get k (obj_set k v o) = Some v.
Proof. now rewrite obj_get_set, String.eqb_refl. Qed.

Lemma obj_get_assign_all (k : string) (src : props) :
  forall target,
    obj_get k (assign_all target src) = or_else (obj_get_last k src) (obj_get k target).
Proof.
  unfold assign_all.
  induction src as [|[k0 v0] src IH]; intros target; simpl; [reflexivity|].
  rewrite IH, obj_get_set.
  destruct (obj_get_last k src); [reflexivity|].
  destruct (k0 =? k); reflexivity.
Qed.

Lemma obj_get_define (k : string) (defs : list member_def) :
  forall o, obj_get k (fold_left define defs o) = lookup_defs k defs (obj_get k o).
Proof.
  induction defs as [|[k' v|v] defs IH]; intros o; simpl; [reflexivity| |].
  - now rewrite IH, obj_get_set.
  - now rewrite IH, obj_get_assign_all.
Qed.

Lemma obj_get_literal (k : string) (defs : list member_def) :
  obj_get k (object_literal defs) = lookup_defs k defs None.
Proof. apply obj_get_define. Qed.

Lemma obj_get_In (k : string) (o : props) (v : value) :
  obj_get k o = Some v -> In (k, v) o.
Proof.
  induction o as [|[k0 v0] o IH]; simpl; [discriminate|].
  destruct (String.eqb_spec k0 k) as [->|].
  - intros [= ->]. now left.
  - intros H. right. now apply IH.
Qed.

Lemma obj_get_None (k : string) (o : props) :
  obj_get k o = None <-> ~ In k (map fst o).
Proof.
  induction o as [|[k0 v0] o IH]; simpl; [tauto|].
  destruct (String.eqb_spec k0 k) as [->|Hne].
  - split; [discriminate|]. intros H. exfalso. apply H. now left.
  - rewrite IH. tauto.
Qed.

Lemma obj_get_last_None (k : string) (o : props) :
  obj_get_last k o = None <-> ~ In k (map fst o).
Proof.
  induction o as [|[k0 v0] o IH]; simpl; [tauto|].
  destruct (obj_get_last k o) eqn:E.
  - split; [discriminate|]. intros H. exfalso.
    assert (Hin : In k (map fst o)).
    { destruct (in_dec string_dec k (map fst o)) as [Hi|Hn]; [exact Hi|].
      apply IH in Hn. discriminate. }
    tauto.
  - destruct IH as [IH _]. specialize (IH eq_refl).
    destruct (String.eqb_spec k0 k) as [->|Hne].
    + split; [discriminate|]. intros H. exfalso. apply H. now left.
    + split; [|reflexivity]. intros _ [H|H]; [congruence|contradiction].
Qed.

Lemma obj_get_last_distinct (k : string) (o : props) :
  distinct_keys o -> obj_get_last k o = obj_get k o.
Proof.
  unfold distinct_keys.
  induction o as [|[k0 v0] o IH]; simpl; [reflexivity|].
  intros Hnd. inversion Hnd as [|? ? Hnotin Hnd']; subst.
  rewrite (IH Hnd').
  destruct (String.eqb_spec k0 k) as [->|Hne].
  - apply obj_get_None in Hnotin. now rewrite Hnotin.
  - destruct (obj_get k o); reflexivity.
Qed.

Lemma obj_get_last_In (k : string) (o : props) (v : value) :
  obj_get_last k o = Some v -> In (k, v) o.
Proof.
  induction o as [|[k0 v0] o IH]; simpl; [discriminate|].
  destruct (obj_get_last k o) as [x|].
  - intros [= ->]. right. now apply IH.
  - destruct (String.eqb_spec k0 k) as [->|]; [|discriminate].
    intros [= ->]. now left.
Qed.

Lemma In_replace_own (k : string) (v : value) (o : props) (kv : string * value) :
  In kv (replace_own k v o) -> kv = (k, v) \/ In kv o.
Proof.
  induction o as [|[k0 v0] o IH]; simpl; [tauto|].
  destruct (String.eqb_spec k0 k) as [->|]; simpl; intuition.
Qed.

Lemma In_insert_index (i : N) (k : string) (v : value) (o : props) (kv : string * value) :
  In kv (insert_index i k v o) -> kv = (k, v) \/ In kv o.
Proof.
  induction o as [|[k0 v0] o IH]; simpl; [intuition|].
  destruct (array_index k0) as [j|]; [destruct (j <? i)%N|]; simpl; intuition.
Qed.

Lemma In_obj_set (k : string) (v : value) (o : props) (kv : string * value) :
  In kv (obj_set k v o) -> kv = (k, v) \/ In kv o.
Proof.
  unfold obj_set. destruct (has_own k o).
  - apply In_replace_own.
  - destruct (array_index k).
    + apply In_insert_index.
    + rewrite in_app_iff. simpl. intuition.
Qed.

Lemma In_assign_all (src : props) (kv : string * value) :
  forall target, In kv (assign_all target src) -> In kv target \/ In kv src.
Proof.
  unfold assign_all. induction src as [|[k0 v0] src IH]; intros target; simpl; [tauto|].
  intros H. apply IH in H as [H|H]; [|tauto].
  apply In_obj_set in H as [->|H]; tauto.
Qed.

Lemma In_copy_with (o : props) (k : string) (v : value) (kv : string * value) :
  In kv (object_literal [Spread (VObj o); Field k v]) -> kv = (k, v) \/ In kv o.
Proof.
  unfold object_literal. simpl. intros H.
  apply In_obj_set in H as [H|H]; [now left|].
  apply In_assign_all in H as [[]|H]. now right.
Qed.

(** Every record the program builds lists each key once. *)

Lemma keys_replace_own (k : string) (v : value) (o : props) :
  map fst (replace_own k v o) = map fst o.
Proof.
  induction o as [|[k0 v0] o IH]; simpl; [reflexivity|].
  destruct (k0 =? k); simpl; [reflexivity|now rewrite IH].
Qed.

Lemma distinct_keys_insert_index (i : N) (k : string) (v : value) (o : props) :
  ~ In k (map fst o) -> distinct_keys o -> distinct_keys (insert_index i k v o).
Proof.
  unfold distinct_keys.
  induction o as [|[k0 v0] o IH]; simpl; intros Hnotin Hnd.
  - constructor; [tauto|constructor].
  - assert (Hhere : NoDup (k :: k0 :: map fst o)) by (constructor; assumption).
    destruct (array_index k0) as [j|]; [destruct (j <? i)%N|]; try exact Hhere.
    inversion Hnd as [|? ? Hk0 Hnd']; subst. simpl. constructor.
    + intros Hin. apply in_map_iff in Hin as ([k1 v1] & Hk1 & Hin). simpl in Hk1. subst k1.
      apply In_insert_index in Hin as [[= -> _]|Hin]; [tauto|].
      apply Hk0. apply in_map_iff. now exists (k0, v1).
    + apply IH; [tauto|assumption].
Qed.

Lemma distinct_keys_obj_set (k : string) (v : value) (o : props) :
  distinct_keys o -> distinct_keys (obj_set k v o).
Proof.
  intros Hnd. unfold obj_set. destruct (has_own k o) eqn:Hown.
  - unfold distinct_keys. now rewrite keys_replace_own.
  - assert (Hnotin : ~ In k (map fst o)).
    { apply obj_get_None. unfold has_own in Hown.
      destruct (obj_get k o); [discriminate|reflexivity]. }
    destruct (array_index k) as [i|].
    + now apply distinct_keys_insert_index.
    + unfold distinct_keys. rewrite map_app. simpl.
      apply NoDup_app; [exact Hnd|constructor; [tauto|constructor]|].
      intros x Hx [<-|[]]. contradiction.
Qed.

Lemma distinct_keys_assign_all (src : props) :
  forall target, distinct_keys target -> distinct_keys (assign_all target src).
Proof.
  unfold assign_all. induction src as [|[k0 v0] src IH]; intros target Hnd; simpl.
  - exact Hnd.
  - apply IH. now apply distinct_keys_obj_set.
Qed.

Lemma distinct_keys_define (defs : list member_def) :
  forall o, distinct_keys o -> distinct_keys (fold_left define defs o).
Proof.
  induction defs as [|[k v|v] defs IH]; intros o Hnd; simpl; [exact Hnd| |];
    apply IH; [now apply distinct_keys_obj_set|now apply distinct_keys_assign_all].
Qed.

Lemma distinct_keys_literal (defs : list member_def) :
  distinct_keys (object_literal defs).
Proof. apply distinct_keys_define. constructor. Qed.

Lemma obj_get_copy_with (o : props) (k k' : string) (v : value) :
  obj_get k' (object_literal [Spread (VObj o); Field k v])
  = if k =? k' then Some v else obj_get_last k' o.
Proof.
  rewrite obj_get_literal. cbn [lookup_defs own_enumerable].
  destruct (k =? k'); [reflexivity|]. now destruct (obj_get_last k' o).
Qed.

Lemma obj_get_copy (o : props) (k : string) :
  distinct_keys o -> obj_get k (object_literal [Spread (VObj o)]) = obj_get k o.
Proof.
  intros Hd. rewrite obj_get_literal. cbn [lookup_defs own_enumerable].
  rewrite (obj_get_last_distinct _ _ Hd). now destruct (obj_get k o).
Qed.

Ltac distinct :=
  unfold distinct_keys; simpl; repeat constructor; simpl; intuition discriminate.

Lemma path_get_prop (v x : value) (k : string) :
  get_prop v k = Ok x -> path v [k] = x.
Proof. intros H. cbn [path]. now rewrite H. Qed.

Lemma path_undefined (ks : list string) : path VUndef ks = VUndef.
Proof. destruct ks; reflexivity. Qed.

Lemma path_app (v : value) (ks ks' : list string) :
  path v (ks ++ ks') = path (path v ks) ks'.
Proof.
  revert v. induction ks as [|k ks IH]; intros v; simpl; [reflexivity|].
  destruct (get_prop v k); [apply IH|now rewrite path_undefined].
Qed.

(** ** dedupeTabHistory *)

Lemma strict_eq_identifier (a b : value) :
  is_identifier a = true -> is_identifier b = true ->
  (strict_eq a b = true <-> a = b).
Proof.
  destruct a as [| |x|[|x| | |]|x| |]; try discriminate; intros _;
    destruct b as [| |y|[|y| | |]|y| |]; try discriminate; intros _;
    simpl; split; try discriminate; intros H.
  - apply Z.eqb_eq in H. now subst.
  - injection H as ->. apply Z.eqb_refl.
  - apply String.eqb_eq in H. now subst.
  - injection H as ->. apply String.eqb_refl.
Qed.

Lemma strict_eq_identifier_refl (a : value) :
  is_identifier a = true -> strict_eq a a = true.
Proof. intros H. now apply strict_eq_identifier. Qed.

Lemma strict_eq_identifier_neq (a b : value) :
  is_identifier a = true -> is_identifier b = true -> a <> b -> strict_eq a b = false.
Proof.
  intros Ha Hb Hne. destruct (strict_eq a b) eqn:E; [|reflexivity].
  apply strict_eq_identifier in E; [contradiction|assumption|assumption].
Qed.

Lemma concat_identifier (acc : list value) (x : value) :
  is_identifier x = true -> concat acc x = acc ++ [x].
Proof. destruct x as [| |?|[|?| | |]|?| |]; try discriminate; reflexivity. Qed.

Lemma dedupe_repeat (acc : list value) (p : value) (n : nat) :
  is_identifier p = true ->
  fold_left dedupe_step (repeat p n) (acc ++ [p]) = acc ++ [p].
Proof.
  intros Hp. induction n as [|n IH]; simpl; [reflexivity|].
  unfold dedupe_step at 2, last_item. rewrite last_last.
  now rewrite strict_eq_identifier_refl.
Qed.

Lemma dedupe_runs_from (runs : list (value * nat)) :
  forall (acc : list value) (p : value),
    is_identifier p = true ->
    Forall (fun r => is_identifier (fst r) = true) runs ->
    adjacent_distinct (p :: map fst runs) ->
    fold_left dedupe_step (expand runs) (acc ++ [p]) = acc ++ p :: map fst runs.
Proof.
  induction runs as [|[x n] runs IH]; intros acc p Hp Hall Hadj.
  - reflexivity.
  - inversion Hall as [|? ? Hx Hrest]; subst. simpl in Hx.
    destruct Hadj as [Hpx Hadj].
    cbn [expand fold_left map fst].
    unfold dedupe_step at 2, last_item. rewrite last_last.
    rewrite (strict_eq_identifier_neq p x Hp Hx Hpx), (concat_identifier _ x Hx).
    rewrite fold_left_app, dedupe_repeat by assumption.
    rewrite (IH (acc ++ [p]) x Hx Hrest Hadj).
    now rewrite <- app_assoc.
Qed.

Lemma dedupe_runs (runs : list (value * nat)) :
  Forall (fun r => is_identifier (fst r) = true) runs ->
  adjacent_distinct (map fst runs) ->
  dedupeTabHistory (expand runs) = map fst runs.
Proof.
  intros Hall Hadj. destruct runs as [|[x n] runs]; [reflexivity|].
  inversion Hall as [|? ? Hx Hrest]; subst. simpl in Hx.
  unfold dedupeTabHistory. fold dedupe_step.
  cbn [expand fold_left map fst].
  assert (E : dedupe_step [] x = [] ++ [x]).
  { unfold dedupe_step, last_item. simpl last.
    destruct x as [| |?|[|?| | |]|?| |]; try discriminate; reflexivity. }
  rewrite E, fold_left_app, dedupe_repeat by assumption.
  destruct runs as [|[y m] runs].
  - reflexivity.
  - apply (dedupe_runs_from ((y, m) :: runs) [] x Hx Hrest). exact Hadj.
Qed.

Lemma expand_runs_of (xs : list value) :
  Forall (fun x => is_identifier x = true) xs ->
  expand (runs_of xs) = xs
  /\ Forall (fun r => is_identifier (fst r) = true) (runs_of xs)
  /\ adjacent_distinct (map fst (runs_of xs)).
Proof.
  induction 1 as [|x xs Hx Hxs (IHe & IHi & IHa)]; [now repeat split|].
  simpl. destruct (runs_of xs) as [|[y n] rs] eqn:E.
  - destruct xs; [|discriminate].
    split; [reflexivity|split; [|exact I]].
    constructor; [assumption|constructor].
  - assert (Hy : is_identifier y = true) by (inversion IHi; assumption).
    destruct (strict_eq x y) eqn:Exy.
    + apply strict_eq_identifier in Exy; [|assumption|assumption]. subst y.
      split; [|split].
      * simpl. simpl in IHe. now rewrite <- IHe.
      * inversion IHi; subst. constructor; assumption.
      * exact IHa.
    + split; [|split].
      * simpl. simpl in IHe. now rewrite IHe.
      * constructor; assumption.
      * change (x <> y /\ adjacent_distinct (map fst ((y, n) :: rs))).
        split; [|exact IHa].
        intros ->. inversion IHi; subst. simpl in *.
        rewrite strict_eq_identifier_refl in Exy by assumption. discriminate.
Qed.

(** C7. A history of identifiers is the expansion of its runs, neighbouring
    runs have different identifiers, and [dedupeTabHistory] returns the
    identifier of each run once, in order: consecutive duplicates are
    collapsed and an identifier that comes back later is kept.  The input
    [a, a, b, b, b, a] has the runs [(a, 1); (b, 2); (a, 0)] and gives
    [a, b, a]. *)
Theorem dedupeTabHistory_collapses (xs : list value) :
  Forall (fun x => is_identifier x = true) xs ->
  expand (runs_of xs) = xs
  /\ adjacent_distinct (map fst (runs_of xs))
  /\ dedupeTabHistory xs = map fst (runs_of xs).
Proof.
  intros Hxs. destruct (expand_runs_of xs Hxs) as (Hexp & Hids & Hadj).
  split; [exact Hexp|]. split; [exact Hadj|].
  rewrite <- Hexp at 1. now apply dedupe_runs.
Qed.

Lemma dedupeTabHistory_collapses_witness :
  expand [(VStr "a", 1); (VStr "b", 2); (VStr "a", 0)]
  = [VStr "a"; VStr "a"; VStr "b"; VStr "b"; VStr "b"; VStr "a"]
  /\ adjacent_distinct [VStr "a"; VStr "b"; VStr "a"]
  /\ dedupeTabHistory [VStr "a"; VStr "a"; VStr "b"; VStr "b"; VStr "b"; VStr "a"]
     = [VStr "a"; VStr "b"; VStr "a"].
Proof.
  apply (dedupeTabHistory_collapses
           [VStr "a"; VStr "a"; VStr "b"; VStr "b"; VStr "b"; VStr "a"]).
  repeat constructor.
Defined.

(** C10. [dedupeTabHistory] is idempotent on histories of identifiers. *)
Theorem dedupeTabHistory_idempotent (xs : list value) :
  Forall (fun x => is_identifier x = true) xs ->
  dedupeTabHistory (dedupeTabHistory xs) = dedupeTabHistory xs.
Proof.
  intros Hxs. destruct (expand_runs_of xs Hxs) as (Hexp & Hids & Hadj).
  rewrite <- Hexp at 1 2. rewrite (dedupe_runs _ Hids Hadj).
  set (heads := map fst (runs_of xs)) in *.
  assert (E : expand (map (fun x => (x, O)) heads) = heads).
  { clear. induction heads as [|x l IH]; simpl; [reflexivity|now rewrite IH]. }
  assert (F : map fst (map (fun x : value => (x, O)) heads) = heads).
  { rewrite map_map. simpl. apply map_id. }
  rewrite <- E at 1. rewrite dedupe_runs.
  - exact F.
  - apply Forall_map. simpl. subst heads.
    rewrite Forall_map in *. exact Hids.
  - now rewrite F.
Qed.

Lemma dedupeTabHistory_idempotent_witness :
  dedupeTabHistory (dedupeTabHistory [VStr "3"; VStr "3"; VNum (Int 7); VStr "3"])
  = dedupeTabHistory [VStr "3"; VStr "3"; VNum (Int 7); VStr "3"].
Proof. apply dedupeTabHistory_idempotent. repeat constructor. Defined.

(** ** The snapshot *)

Lemma snapshot_sqlLab (h : host) (a : args) (st : state) (snap : value) :
  snapshot h a st = Ok snap ->
  exists qs,
    snapshotQueries (own (queries st)) = Ok qs
    /\ path snap ["sqlLab"; "queries"] = VObj qs
    /\ path snap ["sqlLab"; "queryEditors"] = VArr (map snd (queryEditors st))
    /\ path snap ["sqlLab"; "tables"] = VArr (map snd (tables st))
    /\ path snap ["sqlLab"; "tabHistory"] = VArr (dedupeTabHistory (tabHistory st))
    /\ path snap ["sqlLab"; "unsavedQueryEditor"] = unsavedQueryEditor st.
Proof.
  unfold snapshot. intros H.
  apply bind_Ok in H as (qs & Hqs & H).
  apply bind_Ok in H as (flash & _ & H).
  apply bind_Ok in H as (flash_messages & _ & H).
  apply bind_Ok in H as (conf & _ & H).
  injection H as <-. exists qs. split; [exact Hqs|].
  repeat split; reflexivity.
Qed.

Lemma getInitialState_snd (h : host) (a : args) (ls : storage) :
  snd (getInitialState h a ls)
  = (st <- serverState h a;; snapshot h a (fst (legacyState h st ls))).
Proof.
  unfold getInitialState. destruct (serverState h a) as [st|e]; [|reflexivity].
  simpl. now destruct (legacyState h st ls).
Qed.

(** ** The legacy store *)

Section LegacyStore.

Variable h : host.
Variable st : state.

Lemma readSqlLab_Items items s :
  lookup "redux" items = Some s ->
  readSqlLab h (Items items) = (blob <- JSON_parse h s;; get_prop blob "sqlLab").
Proof. intros Hs. unfold readSqlLab, getItem, parse. now rewrite Hs. Qed.

Lemma legacyBody_Items items s :
  lookup "redux" items = Some s -> s <> "" ->
  legacyBody h (st, Items items)
  = attempt (st, Items items) (blob <- JSON_parse h s;; get_prop blob "sqlLab") (fun present =>
    if negb (truthy present) then Normal (st, Items items) else
    attempt (st, Items items) (blob <- JSON_parse h s;; get_prop blob "sqlLab") (fun sqlLab =>
    attempt (st, Items items)
      (qes <- get_prop sqlLab "queryEditors";; get_prop qes "length") (fun length =>
    if strict_eq length (VNum (Int 0))
    then attempt (st, Items items) (removeItem (Items items) "redux")
           (fun ls' => Normal (st, ls'))
    else match mergeLegacy sqlLab st with
         | Normal st' => Normal (st', Items items)
         | Abrupt e st' => Abrupt e (st', Items items)
         end))).
Proof.
  intros Hs Hne. unfold legacyBody. rewrite (readSqlLab_Items items s Hs).
  unfold getItem. rewrite Hs. unfold attempt at 1.
  apply String.eqb_neq in Hne. unfold truthy at 1. now rewrite Hne.
Qed.

Lemma legacyState_unusable (ls : storage) :
  legacy_unusable h ls -> legacyState h st ls = (st, ls).
Proof.
  unfold legacyState, try_catch.
  intros [|items Habs|items s e Hs He|items s blob Hs Hb Hno].
  - reflexivity.
  - unfold legacyBody, getItem. now rewrite Habs.
  - destruct (String.eqb_spec s "") as [->|Hne].
    + unfold legacyBody, getItem. now rewrite Hs.
    + rewrite (legacyBody_Items items s Hs Hne), He. reflexivity.
  - destruct (String.eqb_spec s "") as [->|Hne].
    + unfold legacyBody, getItem. now rewrite Hs.
    + rewrite (legacyBody_Items items s Hs Hne), Hb.
      unfold bind at 1 2.
      destruct (get_prop blob "sqlLab") as [v|e] eqn:E; [|reflexivity].
      unfold attempt at 1 2.
      destruct (truthy v) eqn:Ht; [|reflexivity].
      destruct v as [| |b|n|x|l|o]; try reflexivity; try discriminate.
      exfalso. now apply (Hno o).
Qed.

Lemma legacyState_absent :
  legacyState h st (Items []) = (st, Items []).
Proof. apply legacyState_unusable. now apply key_absent. Qed.

Lemma legacyState_migrated items sqlLab :
  legacy_sqlLab h items sqlLab ->
  get_prop (VObj sqlLab) "queryEditors" = Ok (VArr []) ->
  legacyState h st (Items items)
  = (st, Items (filter (fun e => negb (fst e =? "redux")) items)).
Proof.
  intros (s & blob & Hs & Hne & Hb & Hsql) Hqe.
  unfold legacyState, try_catch.
  rewrite (legacyBody_Items items s Hs Hne), Hb.
  unfold bind at 1 2. rewrite Hsql. unfold attempt at 1 2. unfold truthy, negb.
  unfold bind at 1. rewrite Hqe. reflexivity.
Qed.

(** A legacy blob that parses to a [sqlLab] record whose [queryEditors] has
    a length other than [0] is merged; the store is left as it is. *)
Lemma legacyState_merges items sqlLab length :
  legacy_sqlLab h items sqlLab ->
  (qes <- get_prop (VObj sqlLab) "queryEditors";; get_prop qes "length") = Ok length ->
  strict_eq length (VNum (Int 0)) = false ->
  legacyState h st (Items items) = (final (mergeLegacy (VObj sqlLab) st), Items items).
Proof.
  intros (s & blob & Hs & Hne & Hb & Hsql) Hlen Hnz.
  unfold legacyState, try_catch.
  rewrite (legacyBody_Items items s Hs Hne), Hb.
  unfold bind at 1 2. rewrite Hsql. unfold attempt at 1 2. unfold truthy, negb.
  rewrite Hlen. unfold attempt at 1. rewrite Hnz.
  now destruct (mergeLegacy (VObj sqlLab) st).
Qed.

End LegacyStore.

Lemma lookup_removed (k : string) (items : list (string * string)) :
  lookup k (filter (fun e => negb (fst e =? k)) items) = None.
Proof.
  induction items as [|[k0 s0] items IH]; simpl; [reflexivity|].
  destruct (String.eqb_spec k0 k) as [->|Hne]; simpl; [exact IH|].
  apply String.eqb_neq in Hne. now rewrite Hne.
Qed.

Lemma serverState_unsavedQueryEditor (h : host) (a : args) (st : state) :
  serverState h a = Ok st -> unsavedQueryEditor st = VObj [].
Proof. unfold serverState. intros H. binds H. now injection H as <-. Qed.

(** C3. When the legacy store cannot be read, holds no value under its key,
    holds a value that does not parse, or holds one that parses without a
    [sqlLab] sub-object, the call leaves the store as it is and returns
    exactly what it returns against an empty store, with an empty
    [unsavedQueryEditor]: the exception raised by the read or the parse does
    not reach the caller. *)
Theorem legacy_failure_ignored (h : host) (a : args) (ls : storage) :
  legacy_unusable h ls ->
  getInitialState h a ls = (ls, snd (getInitialState h a (Items [])))
  /\ forall snap,
      snd (getInitialState h a ls) = Ok snap ->
      path snap ["sqlLab"; "unsavedQueryEditor"] = VObj [].
Proof.
  intros Hun. unfold getInitialState.
  destruct (serverState h a) as [st|e] eqn:Hst; [|split; [reflexivity|discriminate]].
  rewrite (legacyState_unusable h st ls Hun), legacyState_absent.
  split; [reflexivity|].
  cbn [snd]. intros snap Hsnap.
  apply snapshot_sqlLab in Hsnap as (qs & _ & _ & _ & _ & _ & ->).
  exact (serverState_unsavedQueryEditor h a st Hst).
Qed.

Lemma legacy_failure_ignored_witness :
  getInitialState (host_reading VNull) one_tab (Items [("redux", "{oops")])
  = (Items [("redux", "{oops")],
     snd (getInitialState (host_reading VNull) one_tab (Items [])))
  /\ forall snap,
      snd (getInitialState (host_reading VNull) one_tab (Items [("redux", "{oops")]))
      = Ok snap ->
      path snap ["sqlLab"; "unsavedQueryEditor"] = VObj [].
Proof.
  apply legacy_failure_ignored.
  apply (blob_unparsable _ _ "{oops" SyntaxError); reflexivity.
Defined.

(** ** The state loaded from the backend *)

Lemma defaultQueryEditor_untagged (h : host) (a : args) (dflt : props) :
  defaultQueryEditor h a = Ok dflt -> untagged (VObj dflt).
Proof.
  unfold defaultQueryEditor. intros H. binds H. injection H as <-.
  eexists. split; [reflexivity|]. now rewrite obj_get_literal.
Qed.

Lemma tabQueryEditor_untagged (dflt : props) (active tab : value) (qe : props) :
  untagged (VObj dflt) ->
  tabQueryEditor dflt active tab = Ok qe -> untagged (VObj qe).
Proof.
  intros (o & [= <-] & Hd). unfold tabQueryEditor. intros H.
  apply bind_Ok in H as (id & _ & H).
  apply bind_Ok in H as (label & _ & H).
  apply bind_Ok in H as (act & _ & H).
  destruct act; binds H; injection H as <-;
    (eexists; split; [reflexivity|]); rewrite obj_get_literal.
  - reflexivity.
  - cbn [lookup_defs own_enumerable or_else String.eqb Ascii.eqb Bool.eqb].
    apply obj_get_None, obj_get_last_None in Hd. now rewrite Hd.
Qed.

Lemma serverState_untagged (h : host) (a : args) (st : state) :
  serverState h a = Ok st ->
  Forall (fun kv => untagged (snd kv)) (queryEditors st).
Proof.
  unfold serverState. intros H.
  apply bind_Ok in H as (dflt & Hd & H).
  apply bind_Ok in H as (tabs & _ & H).
  apply bind_Ok in H as (qes & Hqes & H).
  binds H. injection H as <-. cbn [queryEditors].
  revert Hqes. apply reduce_invariant; [|constructor].
  intros b tab b' Hb _. unfold addTab. intros H.
  apply bind_Ok in H as (qe & Hqe & H).
  apply bind_Ok in H as (key & _ & H). injection H as <-.
  apply Forall_forall. intros kv Hin.
  apply In_copy_with in Hin as [->|Hin].
  - simpl. eapply tabQueryEditor_untagged; [|exact Hqe].
    eapply defaultQueryEditor_untagged; exact Hd.
  - rewrite Forall_forall in Hb. now apply Hb.
Qed.

Lemma serverState_queries (h : host) (a : args) (st : state) :
  serverState h a = Ok st ->
  queries st = {| own := object_literal [Spread (queries_ a)]; prototype := None |}.
Proof. unfold serverState. intros H. binds H. now injection H as <-. Qed.

(** C5. When the legacy blob parses and its [queryEditors] sequence is
    empty, the call returns what it returns against an empty store; once the
    state loaded from the backend has been built the key is removed from
    the store; and no editor of a returned snapshot carries the
    [inLocalStorage] tag. *)
Theorem migration_complete_cleanup (h : host) (a : args)
    (items : list (string * string)) (sqlLab : props) :
  legacy_sqlLab h items sqlLab ->
  get_prop (VObj sqlLab) "queryEditors" = Ok (VArr []) ->
  snd (getInitialState h a (Items items)) = snd (getInitialState h a (Items []))
  /\ (forall st,
        serverState h a = Ok st ->
        removeItem (Items items) "redux" = Ok (fst (getInitialState h a (Items items)))
        /\ getItem (fst (getInitialState h a (Items items))) "redux" = Ok VNull)
  /\ (forall snap,
        snd (getInitialState h a (Items items)) = Ok snap ->
        Forall untagged (elements (path snap ["sqlLab"; "queryEditors"]))).
Proof.
  intros Hleg Hqe. unfold getInitialState.
  destruct (serverState h a) as [st|e] eqn:Hst;
    [|split; [reflexivity|split; discriminate]].
  rewrite (legacyState_migrated h st items sqlLab Hleg Hqe), legacyState_absent.
  split; [reflexivity|]. cbn [fst snd]. split.
  - intros _ _. split; [reflexivity|].
    unfold getItem. now rewrite lookup_removed.
  - intros snap Hsnap.
    apply snapshot_sqlLab in Hsnap as (qs & _ & _ & -> & _).
    cbn [elements]. apply Forall_map.
    exact (serverState_untagged h a st Hst).
Qed.

Lemma migration_complete_cleanup_witness :
  snd (getInitialState (host_reading migrated_blob) one_tab legacy_store)
  = snd (getInitialState (host_reading migrated_blob) one_tab (Items []))
  /\ (forall st,
        serverState (host_reading migrated_blob) one_tab = Ok st ->
        removeItem legacy_store "redux"
        = Ok (fst (getInitialState (host_reading migrated_blob) one_tab legacy_store))
        /\ getItem (fst (getInitialState (host_reading migrated_blob) one_tab legacy_store))
             "redux" = Ok VNull)
  /\ (forall snap,
        snd (getInitialState (host_reading migrated_blob) one_tab legacy_store) = Ok snap ->
        Forall untagged (elements (path snap ["sqlLab"; "queryEditors"]))).
Proof.
  apply (migration_complete_cleanup _ one_tab [("redux", "legacy")]
           [("queryEditors", VArr []); ("tables", VArr []);
            ("queries", VObj []); ("tabHistory", VArr [])]).
  - exists "legacy", migrated_blob. repeat split. discriminate.
  - reflexivity.
Defined.

(** Through the whole call: the key is gone and the one editor is the
    server's. *)
Lemma migration_complete_example :
  fst (getInitialState (host_reading migrated_blob) one_tab legacy_store) = Items []
  /\ editor_names (returned (getInitialState (host_reading migrated_blob) one_tab legacy_store))
     = [VStr "Old"].
Proof. split; reflexivity. Qed.

(** ** The legacy merge, stage by stage *)

Lemma forEach_editors (unsaved : value) (qes : list value) :
  forall st st',
    unsavedQueryEditor st = unsaved ->
    forEach (fun st qe =>
               x <- addLegacyEditor (unsavedQueryEditor st) (queryEditors st) qe;;
               Ok (set_queryEditors st x)) qes st = Normal st' ->
    exists x,
      reduce (addLegacyEditor unsaved) qes (queryEditors st) = Ok x
      /\ st' = set_queryEditors st x.
Proof.
  induction qes as [|qe qes IH]; intros st st' Hu H; simpl in H.
  - injection H as <-. eexists. split; [reflexivity|now destruct st].
  - destruct (addLegacyEditor (unsavedQueryEditor st) (queryEditors st) qe) as [x|e] eqn:E;
      simpl in H; [|discriminate].
    destruct (IH (set_queryEditors st x) st' Hu H) as (y & Hred & Hst').
    exists y. split; [|exact Hst']. simpl. rewrite Hu in E. rewrite E. exact Hred.
Qed.

Lemma forEach_queries (legacy : list value) :
  forall st st',
    forEach (fun st query =>
               x <- addLegacyQuery (queries st) query;;
               Ok (set_queries st x)) legacy st = Normal st' ->
    exists x,
      reduce addLegacyQuery legacy (queries st) = Ok x
      /\ st' = set_queries st x.
Proof.
  induction legacy as [|query legacy IH]; intros st st' H; simpl in H.
  - injection H as <-. eexists. split; [reflexivity|now destruct st].
  - destruct (addLegacyQuery (queries st) query) as [x|e] eqn:E; simpl in H; [|discriminate].
    destruct (IH (set_queries st x) st' H) as (y & Hred & Hst').
    exists y. split; [|exact Hst']. simpl. rewrite E. exact Hred.
Qed.

(** When the merge of lines 156-190 completes, each variable holds the
    fold of its step function over the corresponding legacy sequence. *)
Lemma mergeLegacy_Normal (sqlLab : value) (st st' : state) :
  mergeLegacy sqlLab st = Normal st' ->
  exists unsaved qes legacyTables seen legacy history,
    get_prop sqlLab "unsavedQueryEditor" = Ok unsaved
    /\ unsavedQueryEditor st' = js_or unsaved (VObj [])
    /\ (x <- get_prop sqlLab "queryEditors";; as_array x) = Ok qes
    /\ reduce (addLegacyEditor (js_or unsaved (VObj []))) qes (queryEditors st)
       = Ok (queryEditors st')
    /\ (x <- get_prop sqlLab "tables";; as_array x) = Ok legacyTables
    /\ reduce (addLegacyTable (tables st)) legacyTables (tables st, [])
       = Ok (tables st', seen)
    /\ legacyQueries sqlLab = Ok legacy
    /\ reduce addLegacyQuery legacy (queries st) = Ok (queries st')
    /\ (x <- get_prop sqlLab "tabHistory";; iterate x) = Ok history
    /\ tabHistory st' = tabHistory st ++ history.
Proof.
  unfold mergeLegacy, legacyQueries. intros H.
  destruct (get_prop sqlLab "unsavedQueryEditor") as [unsaved|] eqn:E1; [|discriminate].
  cbn [attempt] in H.
  destruct (x <- get_prop sqlLab "queryEditors";; as_array x) as [qes|] eqn:E2; [|discriminate].
  cbn [attempt] in H.
  match type of H with andThen ?c _ = _ => destruct c as [st1|] eqn:E3; [|discriminate] end.
  cbn [andThen] in H.
  apply forEach_editors with (unsaved := js_or unsaved (VObj [])) in E3 as (x1 & R1 & ->);
    [|reflexivity].
  cbn [tables set_queryEditors set_unsavedQueryEditor queryEditors] in *.
  destruct (get_prop sqlLab "tables") as [tv|] eqn:E4a; [|discriminate].
  cbn [bind] in H.
  destruct (as_array tv) as [legacyTables|] eqn:E4; [|discriminate].
  cbn [bind] in H.
  match type of H with attempt _ ?c _ = _ => destruct c as [[merged seen]|] eqn:E5;
    [|discriminate] end.
  cbn [attempt fst] in H.
  destruct (x <- get_prop sqlLab "queries";; Object_values x) as [legacy|] eqn:E6;
    [|discriminate].
  cbn [attempt] in H.
  match type of H with andThen ?c _ = _ => destruct c as [st2|] eqn:E7; [|discriminate] end.
  cbn [andThen] in H.
  apply forEach_queries in E7 as (x2 & R2 & ->).
  cbn [queries set_tables set_queries] in *.
  destruct (x <- get_prop sqlLab "tabHistory";; iterate x) as [history|] eqn:E8;
    [|discriminate].
  cbn [attempt] in H. injection H as <-.
  exists unsaved, qes, legacyTables, seen, legacy, history.
  cbn. repeat split; assumption.
Qed.

Lemma mergeLegacy_queries (P : jsobject -> Prop) (sqlLab : value) (st : state) :
  P (queries st) ->
  (forall legacy q query q',
      legacyQueries sqlLab = Ok legacy -> In query legacy ->
      P q -> addLegacyQuery q query = Ok q' -> P q') ->
  P (queries (final (mergeLegacy sqlLab st))).
Proof.
  intros Hst Hstep. unfold mergeLegacy.
  apply (final_attempt (fun s => P (queries s))); [exact Hst|]. intros unsaved _.
  apply (final_attempt (fun s => P (queries s))); [exact Hst|]. intros qes _.
  apply (final_andThen (fun s => P (queries s))).
  { apply (forEach_invariant (fun s => P (queries s))); [|exact Hst].
    intros s x s' Hs _ H. apply bind_Ok in H as (y & _ & H). now injection H as <-. }
  intros st1 Hst1.
  assert (H1 : P (queries st1)).
  { change (P (queries (final (Normal st1)))). rewrite <- Hst1.
    apply (forEach_invariant (fun s => P (queries s))); [|exact Hst].
    intros s x s' Hs _ H. apply bind_Ok in H as (y & _ & H). now injection H as <-. }
  apply (final_attempt (fun s => P (queries s))); [exact H1|]. intros merged _.
  apply (final_attempt (fun s => P (queries s))); [exact H1|]. intros legacy Hlegacy.
  apply (final_andThen (fun s => P (queries s))).
  { apply (forEach_invariant (fun s => P (queries s))); [|exact H1].
    intros s x s' Hs Hx H. apply bind_Ok in H as (y & Hy & H). injection H as <-.
    exact (Hstep legacy _ x y Hlegacy Hx Hs Hy). }
  intros st2 Hst2.
  assert (H2 : P (queries st2)).
  { change (P (queries (final (Normal st2)))). rewrite <- Hst2.
    apply (forEach_invariant (fun s => P (queries s))); [|exact H1].
    intros s x s' Hs Hx H. apply bind_Ok in H as (y & Hy & H). injection H as <-.
    exact (Hstep legacy _ x y Hlegacy Hx Hs Hy). }
  apply (final_attempt (fun s => P (queries s))); [exact H2|]. intros history _.
  exact H2.
Qed.

Lemma legacyState_queries (P : jsobject -> Prop) (h : host) (st : state) (ls : storage) :
  P (queries st) ->
  (forall sqlLab legacy q query q',
      readSqlLab h ls = Ok sqlLab ->
      legacyQueries sqlLab = Ok legacy -> In query legacy ->
      P q -> addLegacyQuery q query = Ok q' -> P q') ->
  P (queries (fst (legacyState h st ls))).
Proof.
  intros Hst Hstep. unfold legacyState, try_catch.
  change (P (queries (fst (final (legacyBody h (st, ls)))))).
  unfold legacyBody.
  apply (final_attempt (fun w => P (queries (fst w)))); [exact Hst|]. intros item _.
  destruct (negb (truthy item)); [exact Hst|].
  apply (final_attempt (fun w => P (queries (fst w)))); [exact Hst|]. intros present _.
  destruct (negb (truthy present)); [exact Hst|].
  apply (final_attempt (fun w => P (queries (fst w)))); [exact Hst|]. intros sqlLab Hsql.
  apply (final_attempt (fun w => P (queries (fst w)))); [exact Hst|]. intros len _.
  destruct (strict_eq len (VNum (Int 0))).
  - apply (final_attempt (fun w => P (queries (fst w)))); [exact Hst|]. intros ls' _.
    exact Hst.
  - assert (H := mergeLegacy_queries P sqlLab st Hst (fun legacy q query q' => Hstep sqlLab legacy q query q' Hsql)).
    destruct (mergeLegacy sqlLab st); exact H.
Qed.

(** ** Legacy editors *)

Lemma addLegacyEditor_stored (unsaved : value) (queryEditors queryEditors' : props)
    (qe : value) (key : string) :
  ToPropertyKey (path qe ["id"]) = Ok key ->
  addLegacyEditor unsaved queryEditors qe = Ok queryEditors' ->
  exists uid,
    get_prop unsaved "id" = Ok uid
    /\ obj_get key queryEditors'
       = Some (VObj (object_literal
                       [Spread (member queryEditors key);
                        Spread qe;
                        Field "name" (js_or (path qe ["title"]) (path qe ["name"]));
                        Spread (js_and (VBool (strict_eq uid (path qe ["id"]))) unsaved);
                        Field "inLocalStorage" (VBool true);
                        Field "loaded" (VBool true)])).
Proof.
  intros Hkey H. unfold addLegacyEditor in H.
  apply bind_Ok in H as (id & Hid & H).
  apply bind_Ok in H as (key' & Hkey' & H).
  apply bind_Ok in H as (merged & Hm & H).
  injection H as <-.
  rewrite (path_get_prop _ _ _ Hid) in *.
  rewrite Hkey in Hkey'. injection Hkey' as <-.
  unfold legacyEditor in Hm.
  apply bind_Ok in Hm as (id' & Hid' & Hm). rewrite Hid in Hid'. injection Hid' as <-.
  apply bind_Ok in Hm as (title & Ht & Hm).
  apply bind_Ok in Hm as (name & Hn & Hm).
  apply bind_Ok in Hm as (uid & Hu & Hm).
  injection Hm as <-.
  rewrite (path_get_prop _ _ _ Ht), (path_get_prop _ _ _ Hn).
  exists uid. split; [exact Hu|].
  now rewrite obj_get_copy_with, String.eqb_refl.
Qed.

(** C1, as the code has it.  When a legacy editor is absorbed over the
    server editor filed under the same key, the merged record is tagged
    [inLocalStorage = true] and [loaded = true], and every other field [k]
    is taken, in this order of precedence, from the unsaved-editor record
    when its [id] is strictly equal to the legacy [id]; for [k = name],
    from the legacy [title], or the legacy [name] when the title is falsy;
    from the legacy record; from the server record. *)
Theorem legacy_precedence (unsaved : value)
    (queryEditors queryEditors' server legacy : props) (key : string) :
  distinct_keys server -> distinct_keys legacy ->
  distinct_keys (own_enumerable unsaved) ->
  ToPropertyKey (path (VObj legacy) ["id"]) = Ok key ->
  obj_get key queryEditors = Some (VObj server) ->
  addLegacyEditor unsaved queryEditors (VObj legacy) = Ok queryEditors' ->
  exists merged,
    obj_get key queryEditors' = Some (VObj merged)
    /\ obj_get "inLocalStorage" merged = Some (VBool true)
    /\ obj_get "loaded" merged = Some (VBool true)
    /\ forall k, k <> "inLocalStorage" -> k <> "loaded" ->
         obj_get k merged
         = or_else (if strict_eq (path unsaved ["id"]) (path (VObj legacy) ["id"])
                    then obj_get k (own_enumerable unsaved) else None)
             (or_else (if k =? "name"
                       then Some (js_or (path (VObj legacy) ["title"])
                                        (path (VObj legacy) ["name"]))
                       else None)
                (or_else (obj_get k legacy) (obj_get k server))).
Proof.
  intros Hs Hl Hu Hkey Hsrv H.
  destruct (addLegacyEditor_stored _ _ _ _ _ Hkey H) as (uid & Huid & Hstored).
  eexists. split; [exact Hstored|].
  unfold member. rewrite Hsrv.
  split; [now rewrite obj_get_literal|].
  split; [now rewrite obj_get_literal|].
  intros k Hk1 Hk2. rewrite obj_get_literal.
  cbn [lookup_defs]. rewrite (path_get_prop _ _ _ Huid).
  apply String.eqb_neq in Hk1, Hk2.
  rewrite String.eqb_sym in Hk1. rewrite String.eqb_sym in Hk2.
  rewrite Hk1, Hk2. cbn [own_enumerable].
  rewrite (obj_get_last_distinct k legacy Hl), (obj_get_last_distinct k server Hs).
  rewrite (String.eqb_sym k "name").
  unfold js_and. cbn [truthy].
  destruct (strict_eq uid _).
  - rewrite obj_get_last_distinct by assumption.
    destruct (obj_get k (own_enumerable unsaved)); [reflexivity|].
    destruct ("name" =? k); [reflexivity|].
    destruct (obj_get k legacy); [reflexivity|]. now destruct (obj_get k server).
  - cbn [own_enumerable obj_get_last or_else].
    destruct ("name" =? k); [reflexivity|].
    destruct (obj_get k legacy); [reflexivity|]. now destruct (obj_get k server).
Qed.

Lemma legacy_precedence_witness :
  exists merged,
    obj_get "1"
      (value_of [] (addLegacyEditor (VObj []) one_tab_editors (VObj legacy_editor_New)))
    = Some (VObj merged)
    /\ obj_get "inLocalStorage" merged = Some (VBool true)
    /\ obj_get "loaded" merged = Some (VBool true)
    /\ forall k, k <> "inLocalStorage" -> k <> "loaded" ->
         obj_get k merged
         = or_else (if strict_eq (path (VObj []) ["id"]) (path (VObj legacy_editor_New) ["id"])
                    then obj_get k (own_enumerable (VObj [])) else None)
             (or_else (if k =? "name"
                       then Some (js_or (path (VObj legacy_editor_New) ["title"])
                                        (path (VObj legacy_editor_New) ["name"]))
                       else None)
                (or_else (obj_get k legacy_editor_New) (obj_get k one_tab_editor))).
Proof.
  apply (legacy_precedence (VObj []) one_tab_editors).
  - unfold distinct_keys. vm_compute. repeat constructor; simpl; intuition discriminate.
  - distinct.
  - distinct.
  - reflexivity.
  - reflexivity.
  - reflexivity.
Defined.

(** The example of the specification, through the whole call: the merged
    editor for id ['1'] has [name: 'New'], [sql: 'SELECT 1'] and
    [inLocalStorage: true]. *)
Lemma legacy_precedence_example :
  exists merged,
    elements (path (returned (getInitialState (host_reading (blob_with_editor legacy_editor_New))
                                one_tab legacy_store))
                ["sqlLab"; "queryEditors"]) = [VObj merged]
    /\ obj_get "id" merged = Some (VStr "1")
    /\ obj_get "name" merged = Some (VStr "New")
    /\ obj_get "sql" merged = Some (VStr "SELECT 1")
    /\ obj_get "inLocalStorage" merged = Some (VBool true)
    /\ obj_get "loaded" merged = Some (VBool true).
Proof. eexists. split; [vm_compute; reflexivity|]. repeat split. Qed.

(** The server editor is named ['Old'], the legacy editor of the same id
    mentions no name, and the merged editor is left with the name
    [undefined]. *)
Lemma server_name_not_kept :
  editor_names (returned (getInitialState (host_reading (blob_with_editor legacy_editor_unnamed))
                            one_tab (Items [])))
  = [VStr "Old"]
  /\ obj_get "name" legacy_editor_unnamed = None
  /\ obj_get "title" legacy_editor_unnamed = None
  /\ editor_names (returned (getInitialState (host_reading (blob_with_editor legacy_editor_unnamed))
                               one_tab legacy_store))
     = [VUndef].
Proof. repeat split. Qed.

(** C4, as the code has it.  The merged name is the legacy [title] whenever
    that is truthy, and the legacy [name] otherwise, unless the unsaved
    editor applies and supplies a name of its own. *)
Theorem legacy_name_alias (unsaved : value) (queryEditors queryEditors' : props)
    (qe : value) (key : string) :
  ToPropertyKey (path qe ["id"]) = Ok key ->
  addLegacyEditor unsaved queryEditors qe = Ok queryEditors' ->
  strict_eq (path unsaved ["id"]) (path qe ["id"]) = false
  \/ obj_get "name" (own_enumerable unsaved) = None ->
  exists merged,
    obj_get key queryEditors' = Some (VObj merged)
    /\ obj_get "name" merged
       = Some (if truthy (path qe ["title"]) then path qe ["title"] else path qe ["name"]).
Proof.
  intros Hkey H Hunsaved.
  destruct (addLegacyEditor_stored _ _ _ _ _ Hkey H) as (uid & Huid & Hstored).
  eexists. split; [exact Hstored|].
  rewrite obj_get_literal. cbn [lookup_defs String.eqb Ascii.eqb Bool.eqb].
  rewrite (path_get_prop _ _ _ Huid) in Hunsaved.
  assert (E : obj_get_last "name"
                (own_enumerable (js_and (VBool (strict_eq uid (path qe ["id"]))) unsaved))
              = None).
  { unfold js_and. cbn [truthy]. destruct Hunsaved as [->|Hnone]; [reflexivity|].
    destruct (strict_eq uid _); [|reflexivity].
    now apply obj_get_last_None, obj_get_None. }
  rewrite E. reflexivity.
Qed.

Lemma legacy_name_alias_witness :
  exists merged,
    obj_get "1"
      (value_of [] (addLegacyEditor (VObj []) one_tab_editors (VObj legacy_editor_titled)))
    = Some (VObj merged)
    /\ obj_get "name" merged
       = Some (if truthy (path (VObj legacy_editor_titled) ["title"])
               then path (VObj legacy_editor_titled) ["title"]
               else path (VObj legacy_editor_titled) ["name"]).
Proof.
  apply (legacy_name_alias (VObj []) one_tab_editors).
  - reflexivity.
  - reflexivity.
  - left. reflexivity.
Defined.

(** The legacy record supplies the name ['N'] and the title ['T']; the
    merged editor is named ['T']. *)
Lemma title_overrides_name :
  obj_get "name" legacy_editor_titled = Some (VStr "N")
  /\ obj_get "title" legacy_editor_titled = Some (VStr "T")
  /\ editor_names (returned (getInitialState (host_reading (blob_with_editor legacy_editor_titled))
                               one_tab legacy_store))
     = [VStr "T"].
Proof. repeat split. Qed.

(** ** Legacy tables *)

Lemma finite_value_scale (n : number) (m k : Z) :
  finite_value n = Some (m, k) -> (0 < 2 ^ k)%Z.
Proof.
  destruct n; cbn [finite_value]; intros H; try discriminate; inversion H; subst;
    apply Z.pow_pos_nonneg; lia.
Qed.

Lemma number_equal_trans (x y z : number) :
  number_equal x y = true -> number_equal y z = true -> number_equal x z = true.
Proof.
  unfold number_equal.
  destruct (finite_value x) as [[m1 k1]|] eqn:Ex, (finite_value y) as [[m2 k2]|] eqn:Ey,
    (finite_value z) as [[m3 k3]|] eqn:Ez; try discriminate.
  - rewrite !Z.eqb_eq. intros H1 H2.
    assert (P1 := finite_value_scale _ _ _ Ex). assert (P2 := finite_value_scale _ _ _ Ey).
    apply (Z.mul_reg_r _ _ (2 ^ k2)%Z); [lia|]. nia.
  - destruct x, y, z; try discriminate; try (intros _ H; discriminate H).
    intros H1 H2. apply Bool.eqb_prop in H1, H2. subst. apply Bool.eqb_reflx.
Qed.

Lemma strict_eq_number (x y : number) :
  strict_eq (VNum x) (VNum y) = number_equal x y.
Proof.
  destruct x, y; try reflexivity. unfold number_equal. cbn [strict_eq finite_value].
  now rewrite !Z.mul_1_r.
Qed.

Lemma same_value_zero_trans (a b c : value) :
  same_value_zero a b = true -> same_value_zero b c = true ->
  same_value_zero a c = true.
Proof.
  destruct a as [| |a|[|a|ma ka| |sa]|a|a|a], b as [| |b|[|b|mb kb| |sb]|b|b|b];
    try discriminate;
    destruct c as [| |c|[|c|mc kc| |sc]|c|c|c]; try discriminate; try reflexivity;
    try (repeat match goal with
                | |- context [same_value_zero (VNum ?x) (VNum ?y)] =>
                    change (same_value_zero (VNum x) (VNum y))
                      with (strict_eq (VNum x) (VNum y))
                end;
         rewrite !strict_eq_number; apply number_equal_trans).
  - cbn [same_value_zero strict_eq]. intros H1 H2.
    apply Bool.eqb_prop in H1, H2. subst. apply Bool.eqb_reflx.
  - cbn [same_value_zero strict_eq]. intros H1 H2.
    apply String.eqb_eq in H1, H2. subst. apply String.eqb_refl.
Qed.

Lemma addLegacyTable_Ok (tables merged merged' : props) (seen seen' : list value)
    (table : value) :
  addLegacyTable tables (merged, seen) table = Ok (merged', seen') ->
  exists key,
    tableKey table = Ok key
    /\ seen' = (if Set_has seen (owner table) then seen else seen ++ [owner table])
    /\ merged'
       = object_literal
           [Spread (VObj merged);
            Field key
              (VObj (object_literal
                       [Spread (member tables key);
                        Spread table;
                        Field "expanded" (VBool (negb (Set_has seen (owner table))))]))].
Proof.
  unfold addLegacyTable, tableKey, owner. intros H.
  apply bind_Ok in H as (q & Hq & H).
  apply bind_Ok in H as (id & Hid & H).
  apply bind_Ok in H as (key & Hkey & H).
  injection H as <- <-.
  rewrite (path_get_prop _ _ _ Hq), Hid. exists key.
  split; [exact Hkey|]. split; [|reflexivity].
  now destruct (Set_has seen q).
Qed.

Lemma Set_has_step (seen : list value) (o x : value) :
  Set_has (if Set_has seen o then seen else seen ++ [o]) x
  = Set_has seen x || same_value_zero o x.
Proof.
  destruct (Set_has seen o) eqn:Ho.
  - destruct (same_value_zero o x) eqn:E; [|now rewrite orb_false_r].
    rewrite orb_true_r. unfold Set_has in *. apply existsb_exists in Ho as (y & Hy & Hyo).
    apply existsb_exists. exists y. split; [exact Hy|].
    exact (same_value_zero_trans _ _ _ Hyo E).
  - unfold Set_has. rewrite existsb_app. simpl. now rewrite orb_false_r.
Qed.

Lemma legacy_tables_keep (tables : props) (key : string) (legacy : list value) :
  forall merged0 seen0 merged seen,
    distinct_keys merged0 ->
    reduce (addLegacyTable tables) legacy (merged0, seen0) = Ok (merged, seen) ->
    (forall later, In later legacy -> tableKey later <> Ok key) ->
    obj_get key merged = obj_get key merged0.
Proof.
  induction legacy as [|x legacy IH]; intros merged0 seen0 merged seen Hd H Hlater.
  - simpl in H. now injection H as <- <-.
  - simpl in H. apply bind_Ok in H as ([merged1 seen1] & H1 & H).
    apply addLegacyTable_Ok in H1 as (key1 & Hkey1 & -> & ->).
    rewrite (IH _ _ _ _ (distinct_keys_literal _) H).
    + rewrite obj_get_copy_with.
      destruct (String.eqb_spec key1 key) as [->|_].
      * exfalso. apply (Hlater x); [now left|exact Hkey1].
      * now apply obj_get_last_distinct.
    + intros later Hin. apply Hlater. now right.
Qed.

Lemma legacy_tables_expanded (tables : props) (legacy : list value) :
  forall merged0 seen0 merged seen,
    reduce (addLegacyTable tables) legacy (merged0, seen0) = Ok (merged, seen) ->
    forall i table key,
      nth_error legacy i = Some table ->
      tableKey table = Ok key ->
      (forall j later, i < j -> nth_error legacy j = Some later -> tableKey later <> Ok key) ->
      exists record,
        obj_get key merged = Some (VObj record)
        /\ obj_get "expanded" record
           = Some (VBool (negb (Set_has seen0 (owner table)
                                || existsb (fun earlier =>
                                              same_value_zero (owner earlier) (owner table))
                                     (firstn i legacy)))).
Proof.
  induction legacy as [|x legacy IH]; intros merged0 seen0 merged seen H i table key Hi Hkey Hlast.
  - destruct i; discriminate.
  - simpl in H. apply bind_Ok in H as ([merged1 seen1] & H1 & H).
    apply addLegacyTable_Ok in H1 as (key1 & Hkey1 & -> & ->).
    destruct i as [|i].
    + injection Hi as ->. rewrite Hkey in Hkey1. injection Hkey1 as <-.
      eexists. split.
      * rewrite (legacy_tables_keep _ key _ _ _ _ _ (distinct_keys_literal _) H).
        -- now rewrite obj_get_copy_with, String.eqb_refl.
        -- intros later Hin. apply In_nth_error in Hin as (j & Hj).
           apply (Hlast (S j)); [lia|exact Hj].
      * rewrite obj_get_literal. simpl. now rewrite orb_false_r.
    + destruct (IH _ _ _ _ H i table key Hi Hkey) as (record & Hrec & Hexp).
      * intros j later Hj. apply (Hlast (S j)). lia.
      * exists record. split; [exact Hrec|].
        rewrite Hexp, Set_has_step. simpl. now rewrite orb_assoc.
Qed.

(** C2, as the code has it.  After the legacy tables have been merged, the
    record filed under a legacy table's key (for the last legacy table with
    that key) is expanded exactly when no earlier legacy table belongs to
    the same editor, whatever flag the table carried: a table that follows
    another table of its editor is collapsed, so of the legacy tables of one
    editor only the first is expanded. *)
Theorem legacy_tables_single_expansion (tables merged : props) (legacy seen : list value)
    (i : nat) (table : value) (key : string) :
  reduce (addLegacyTable tables) legacy (tables, []) = Ok (merged, seen) ->
  nth_error legacy i = Some table ->
  tableKey table = Ok key ->
  (forall j later, i < j -> nth_error legacy j = Some later -> tableKey later <> Ok key) ->
  exists record,
    obj_get key merged = Some (VObj record)
    /\ obj_get "expanded" record
       = Some (VBool (negb (existsb (fun earlier =>
                                       same_value_zero (owner earlier) (owner table))
                              (firstn i legacy))))
    /\ (forall j earlier,
          j < i -> nth_error legacy j = Some earlier ->
          same_value_zero (owner earlier) (owner table) = true ->
          obj_get "expanded" record = Some (VBool false)).
Proof.
  intros H Hi Hkey Hlast.
  destruct (legacy_tables_expanded tables legacy _ _ _ _ H i table key Hi Hkey Hlast)
    as (record & Hrec & Hexp).
  exists record. split; [exact Hrec|]. simpl in Hexp. split; [exact Hexp|].
  intros j earlier Hj Hnth Hsame. rewrite Hexp.
  assert (E : existsb (fun earlier => same_value_zero (owner earlier) (owner table))
                (firstn i legacy) = true).
  { apply existsb_exists. exists earlier. split; [|exact Hsame].
    apply (nth_error_In _ j). now rewrite nth_error_firstn, (proj2 (Nat.ltb_lt j i) Hj). }
  now rewrite E.
Qed.

Lemma legacy_tables_single_expansion_witness :
  exists record,
    obj_get "t2" (fst (value_of ([], []) (reduce (addLegacyTable []) three_legacy_tables ([], []))))
    = Some (VObj record)
    /\ obj_get "expanded" record
       = Some (VBool (negb (existsb (fun earlier =>
                                       same_value_zero (owner earlier)
                                         (owner (legacy_table "t2" "1")))
                              (firstn 1 three_legacy_tables))))
    /\ (forall j earlier,
          j < 1 -> nth_error three_legacy_tables j = Some earlier ->
          same_value_zero (owner earlier) (owner (legacy_table "t2" "1")) = true ->
          obj_get "expanded" record = Some (VBool false)).
Proof.
  apply (legacy_tables_single_expansion [] _ three_legacy_tables
           (snd (value_of ([], []) (reduce (addLegacyTable []) three_legacy_tables ([], []))))
           1 (legacy_table "t2" "1") "t2").
  - reflexivity.
  - reflexivity.
  - reflexivity.
  - intros [|[|[|[|j]]]] later Hj Hnth; try lia.
    + injection Hnth as <-. discriminate.
    + discriminate.
    + discriminate.
Defined.

(** The example of the specification, through the whole call: three legacy
    tables of one editor, all flagged expanded, come out with only the
    first one expanded. *)
Lemma single_expansion_example :
  table_owners (returned (getInitialState (host_reading three_tables_blob) one_tab legacy_store))
  = [VStr "1"; VStr "1"; VStr "1"]
  /\ expanded_flags (returned (getInitialState (host_reading three_tables_blob)
                                 one_tab legacy_store))
     = [VBool true; VBool false; VBool false].
Proof. split; reflexivity. Qed.

(** Without a legacy blob, two tables of the active tab that the server
    reports as expanded are both expanded in the snapshot. *)
Lemma server_tables_both_expanded :
  table_owners (returned (getInitialState (host_reading VNull) two_server_tables (Items [])))
  = [VStr "1"; VStr "1"]
  /\ expanded_flags (returned (getInitialState (host_reading VNull) two_server_tables (Items [])))
     = [VBool true; VBool true].
Proof. split; reflexivity. Qed.

(** ** Legacy queries *)

(** Line 188 on every key but one.  Assigning a legacy query whose key is
    not [__proto__] files under that key the legacy query's own fields plus
    [inLocalStorage = true]; the record does not depend on what the mapping
    held before, so a server query under the same key is overwritten
    whole. *)
Theorem legacy_query_overwrites (queries queries' : jsobject) (query : value) (key : string) :
  distinct_keys (own_enumerable query) ->
  ToPropertyKey (path query ["id"]) = Ok key ->
  key <> "__proto__" ->
  addLegacyQuery queries query = Ok queries' ->
  exists record,
    obj_get key (own queries') = Some (VObj record)
    /\ record = object_literal [Spread query; Field "inLocalStorage" (VBool true)]
    /\ obj_get "inLocalStorage" record = Some (VBool true)
    /\ forall k, k <> "inLocalStorage" ->
         obj_get k record = obj_get k (own_enumerable query).
Proof.
  intros Hd Hkey Hproto H. unfold addLegacyQuery in H.
  apply bind_Ok in H as (id & Hid & H).
  apply bind_Ok in H as (key' & Hkey' & H).
  rewrite (path_get_prop _ _ _ Hid), Hkey' in Hkey. injection Hkey as ->.
  injection H as <-. unfold assign_member.
  apply String.eqb_neq in Hproto. rewrite Hproto. cbn [andb own].
  eexists. split; [apply obj_get_set_same|]. split; [reflexivity|].
  split; [now rewrite obj_get_literal|].
  intros k Hk. rewrite obj_get_literal. cbn [lookup_defs].
  apply String.eqb_neq in Hk. rewrite String.eqb_sym in Hk. rewrite Hk.
  rewrite (obj_get_last_distinct _ _ Hd). now destruct (obj_get k (own_enumerable query)).
Qed.

Lemma legacy_query_overwrites_witness :
  exists record,
    obj_get "q1"
      (own (value_of {| own := []; prototype := None |}
              (addLegacyQuery
                 {| own := object_literal [Spread (queries_ server_query_q1)];
                    prototype := None |}
                 (VObj legacy_query_q1))))
    = Some (VObj record)
    /\ record = object_literal [Spread (VObj legacy_query_q1); Field "inLocalStorage" (VBool true)]
    /\ obj_get "inLocalStorage" record = Some (VBool true)
    /\ forall k, k <> "inLocalStorage" ->
         obj_get k record = obj_get k (own_enumerable (VObj legacy_query_q1)).
Proof.
  apply (legacy_query_overwrites
           {| own := object_literal [Spread (queries_ server_query_q1)]; prototype := None |}).
  - distinct.
  - reflexivity.
  - discriminate.
  - reflexivity.
Defined.

(** Through the whole call: the server query ['q1'] had a field [rows]; the
    legacy query of the same identifier replaces it whole. *)
Lemma legacy_query_example :
  path (returned (getInitialState (host_reading VNull) server_query_q1 (Items [])))
    ["sqlLab"; "queries"; "q1"]
  = VObj [("id", VStr "q1"); ("sql", VStr "SELECT 0"); ("rows", VNum (Int 5))]
  /\ path (returned (getInitialState (host_reading legacy_query_blob) server_query_q1
                       legacy_store))
       ["sqlLab"; "queries"; "q1"]
     = VObj [("id", VStr "q1"); ("sql", VStr "SELECT 1"); ("inLocalStorage", VBool true)].
Proof. split; reflexivity. Qed.

(** C8, at the input where the code departs from it.  A legacy query whose
    identifier is [__proto__] is not filed: the assignment of line 188
    reaches the prototype accessor, the mapping keeps its own properties,
    and the snapshot holds no query, although the legacy editors of the same
    blob were merged (the editor and table merges define their keys in
    object literals, which file [__proto__] like any other key). *)
Lemma proto_query_not_filed :
  own (value_of {| own := [("x", VNull)]; prototype := None |}
         (addLegacyQuery {| own := []; prototype := None |} (VObj proto_query)))
  = []
  /\ path (returned (getInitialState (host_reading proto_query_blob) one_tab legacy_store))
       ["sqlLab"; "queries"]
     = VObj []
  /\ editor_names (returned (getInitialState (host_reading proto_query_blob) one_tab
                               legacy_store))
     = [VStr "New"].
Proof. repeat split. Qed.

(** ** Number values *)

(** [Number] on strings: integers, a fraction, an exponent, the other
    radices, rounding to the nearest binary64 with ties to even, white
    space, the empty string, the signed zero, the infinities, the least
    and the greatest finite values, and texts that are no numeric
    literal. *)
Example StringToNumber_examples :
  map StringToNumber
    ["1690000000000"; "1690000000000.5"; "1e3"; "0x1F"; "0b101"; "0o17";
     "9007199254740993"; "9007199254740995"; "0.1"; "  12  "; EmptyString;
     "-0"; ".5"; "5."; "+.5e-1"; "Infinity"; "-Infinity"; "1e400"; "-1e-400";
     "5e-324"; "1.7976931348623157e308"; "1.7976931348623159e308";
     "12px"; "-"; "."; "0x"; "+0x1F"; "1_000"; "1e"; "infinity"]
  = [Int 1690000000000; Frac 3380000000001 1; Int 1000; Int 31; Int 5; Int 15;
     Int 9007199254740992; Int 9007199254740996; Frac 3602879701896397 55;
     Int 12; Int 0;
     NegZero; Frac 1 1; Int 5; Frac 3602879701896397 56; Infinity false;
     Infinity true; Infinity false; NegZero;
     Frac 1 1074; Int ((2 ^ 53 - 1) * 2 ^ 971); Infinity false;
     NaN; NaN; NaN; NaN; NaN; NaN; NaN; NaN].
Proof. vm_compute. reflexivity. Qed.

(** [toString] on numbers: the shortest digits that read back, without an
    exponent from [10^-6] up to [10^21]. *)
Example NumberToString_examples :
  map NumberToString
    [Int 1690000000000; Frac 3380000000001 1; Frac 1 1; Frac 3602879701896397 55;
     Int (- 15); Int (2 ^ 53); Int (2 ^ 60); Int (10 ^ 20); Int (10 ^ 21);
     Frac 1 20; Frac 1 1074; Int ((2 ^ 53 - 1) * 2 ^ 971);
     Int 0; NegZero; Infinity true; NaN]
  = ["1690000000000"; "1690000000000.5"; "0.5"; "0.1";
     "-15"; "9007199254740992"; "1152921504606847000"; "100000000000000000000"; "1e+21";
     "9.5367431640625e-7"; "5e-324"; "1.7976931348623157e+308";
     "0"; "0"; "-Infinity"; "NaN"].
Proof. vm_compute. reflexivity. Qed.

(** [===] and [Set.has] on the zeros and on [NaN]. *)
Example zeros_and_NaN :
  strict_eq (VNum (Int 0)) (VNum NegZero) = true
  /\ strict_eq (VNum NaN) (VNum NaN) = false
  /\ same_value_zero (VNum NaN) (VNum NaN) = true
  /\ same_value_zero (VNum NegZero) (VNum (Int 0)) = true
  /\ truthy (VNum NegZero) = false.
Proof. repeat split. Qed.

(** ** Timestamps *)

Lemma own_enumerable_falsy (v : value) :
  truthy v = false -> own_enumerable v = [].
Proof.
  destruct v as [| |b|n|s|l|o]; try reflexivity; try discriminate.
  simpl. destruct (String.eqb_spec s "") as [->|]; [reflexivity|discriminate].
Qed.

Lemma coerceDttm_Ok (k : string) (query spread : value) :
  coerceDttm k query = Ok spread ->
  forall k',
    obj_get_last k' (own_enumerable spread)
    = if (k =? k') && truthy (path query [k])
      then match Number (path query [k]) with
           | Ok n => Some n
           | Throw _ => None
           end
      else None.
Proof.
  unfold coerceDttm. intros H k'.
  apply bind_Ok in H as (dttm & Hd & H). rewrite (path_get_prop _ _ _ Hd).
  destruct (truthy dttm) eqn:Ht.
  - apply bind_Ok in H as (n & -> & H). injection H as <-.
    unfold object_literal, own_enumerable. cbn [fold_left define].
    unfold obj_set. cbn [has_own obj_get insert_index app].
    destruct (array_index k); cbn [obj_get_last]; destruct (k =? k'); reflexivity.
  - injection H as <-. rewrite own_enumerable_falsy by exact Ht.
    now rewrite andb_false_r.
Qed.

Lemma coerceDttm_truthy (k : string) (query spread : value) :
  coerceDttm k query = Ok spread ->
  truthy (path query [k]) = true ->
  exists n, Number (path query [k]) = Ok n.
Proof.
  unfold coerceDttm. intros H Ht.
  apply bind_Ok in H as (dttm & Hd & H). rewrite (path_get_prop _ _ _ Hd) in *.
  rewrite Ht in H. apply bind_Ok in H as (n & Hn & _). now exists n.
Qed.

Lemma snapshotQuery_Ok (query q : value) :
  snapshotQuery query = Ok q ->
  exists record,
    q = VObj record
    /\ forall k,
        (is_dttm k = true -> truthy (path query [k]) = true ->
         exists n, Number (path query [k]) = Ok n /\ obj_get k record = Some n)
        /\ (is_dttm k = false \/ truthy (path query [k]) = false ->
            obj_get k record = obj_get k (object_literal [Spread query])).
Proof.
  unfold snapshotQuery. intros H.
  apply bind_Ok in H as (s & Hs & H).
  apply bind_Ok in H as (e & He & H).
  injection H as <-. eexists. split; [reflexivity|].
  intros k. rewrite !obj_get_literal. cbn [lookup_defs].
  rewrite (coerceDttm_Ok _ _ _ Hs k), (coerceDttm_Ok _ _ _ He k).
  unfold is_dttm. rewrite (String.eqb_sym k "startDttm"), (String.eqb_sym k "endDttm").
  split.
  - intros Hk Ht.
    destruct (String.eqb_spec "endDttm" k) as [E|Hne].
    + subst k. destruct (coerceDttm_truthy _ _ _ He Ht) as (n & Hn).
      exists n. split; [exact Hn|]. rewrite Ht, Hn. reflexivity.
    + rewrite orb_false_r in Hk.
      apply String.eqb_eq in Hk. subst k.
      destruct (coerceDttm_truthy _ _ _ Hs Ht) as (n & Hn).
      exists n. split; [exact Hn|]. rewrite String.eqb_refl, Ht, Hn. reflexivity.
  - intros [Hk|Ht].
    + apply orb_false_elim in Hk as [-> ->]. reflexivity.
    + destruct (String.eqb_spec "endDttm" k) as [E|_].
      * subst k. rewrite Ht. reflexivity.
      * destruct (String.eqb_spec "startDttm" k) as [E|_];
          [subst k; rewrite Ht|]; reflexivity.
Qed.

Lemma map_r_lookup (f : value -> result value) (queries entries : props) :
  map_r (fun kv => q <- f (snd kv);; Ok (fst kv, q)) queries = Ok entries ->
  map fst entries = map fst queries
  /\ forall k, match obj_get k queries with
               | Some query => exists q, f query = Ok q /\ obj_get k entries = Some q
               | None => obj_get k entries = None
               end.
Proof.
  revert entries. induction queries as [|[k0 query0] queries IH]; intros entries H; simpl in H.
  - injection H as <-. now split.
  - apply bind_Ok in H as ([k1 q1] & H1 & H).
    apply bind_Ok in H1 as (q & Hq & H1). injection H1 as <- <-.
    apply bind_Ok in H as (rest & Hrest & H). injection H as <-.
    destruct (IH rest Hrest) as (Hkeys & Hget). split; [simpl; now rewrite Hkeys|].
    intros k. simpl. destruct (k0 =? k); [now exists q|apply Hget].
Qed.

Lemma snapshotQueries_lookup (queries out : props) :
  distinct_keys queries ->
  snapshotQueries queries = Ok out ->
  forall k, match obj_get k queries with
            | Some query => exists q, snapshotQuery query = Ok q /\ obj_get k out = Some q
            | None => obj_get k out = None
            end.
Proof.
  intros Hd H k. unfold snapshotQueries in H.
  apply bind_Ok in H as (entries & He & H). injection H as <-.
  apply map_r_lookup in He as (Hkeys & Hget).
  rewrite obj_get_assign_all, obj_get_last_distinct.
  - specialize (Hget k). destruct (obj_get k queries) as [query|].
    + destruct Hget as (q & Hq & ->). now exists q.
    + now rewrite Hget.
  - unfold distinct_keys. now rewrite Hkeys.
Qed.

Lemma addLegacyQuery_distinct (q q' : jsobject) (query : value) :
  distinct_keys (own q) -> addLegacyQuery q query = Ok q' -> distinct_keys (own q').
Proof.
  unfold addLegacyQuery, assign_member. intros Hd H.
  apply bind_Ok in H as (id & _ & H). apply bind_Ok in H as (key & _ & H).
  injection H as <-.
  destruct ((key =? "__proto__") && negb (has_own key (own q)) && negb (inherits key q));
    [exact Hd|now apply distinct_keys_obj_set].
Qed.

Lemma mergedQueries_distinct (h : host) (a : args) (ls : storage) :
  distinct_keys (mergedQueries h a ls).
Proof.
  unfold mergedQueries. destruct (serverState h a) as [st|e] eqn:Hst; [|constructor].
  apply (legacyState_queries (fun q => distinct_keys (own q))).
  - rewrite (serverState_queries h a st Hst). apply distinct_keys_literal.
  - intros _ _ q query q' _ _ _. apply addLegacyQuery_distinct.
Qed.

Lemma Number_ToNumber (v n : value) :
  Number v = Ok n -> exists x, ToNumber v = Ok x /\ n = VNum x.
Proof.
  unfold Number. intros H. apply bind_Ok in H as (x & Hx & H).
  injection H as <-. now exists x.
Qed.

(** C6. In the snapshot a call returns, the query filed under each key of the
    merged query mapping is a record in which [startDttm] (and likewise
    [endDttm]) holds a number, the Number value of the original, whenever
    the original is truthy; every other field, and a timestamp that is
    absent or falsy, is what a plain copy [{ ...query }] of the original
    holds: a missing key stays missing.  The snapshot holds no query under
    any other key. *)
Theorem timestamp_coercion (h : host) (a : args) (ls : storage) (snap : value) :
  snd (getInitialState h a ls) = Ok snap ->
  (forall qid query,
      obj_get qid (mergedQueries h a ls) = Some query ->
      exists record,
        path snap ["sqlLab"; "queries"; qid] = VObj record
        /\ forall k,
            (is_dttm k = true -> truthy (path query [k]) = true ->
             exists n, ToNumber (path query [k]) = Ok n
                       /\ obj_get k record = Some (VNum n))
            /\ (is_dttm k = false \/ truthy (path query [k]) = false ->
                obj_get k record = obj_get k (object_literal [Spread query])))
  /\ (forall qid,
         obj_get qid (mergedQueries h a ls) = None ->
         path snap ["sqlLab"; "queries"; qid] = VUndef).
Proof.
  intros H. rewrite getInitialState_snd in H.
  assert (Hd := mergedQueries_distinct h a ls). unfold mergedQueries in *.
  destruct (serverState h a) as [st|e]; [|discriminate]. cbn [bind] in H.
  apply snapshot_sqlLab in H as (qs & Hqs & Hpath & _).
  assert (Hlook := snapshotQueries_lookup _ _ Hd Hqs).
  change ["sqlLab"; "queries"] with (["sqlLab"; "queries"] ++ []) in Hpath.
  split.
  - intros qid query Hq. specialize (Hlook qid). rewrite Hq in Hlook.
    destruct Hlook as (q & Hsq & Hget).
    apply snapshotQuery_Ok in Hsq as (record & -> & Hrec).
    exists record. split.
    + change ["sqlLab"; "queries"; qid] with (["sqlLab"; "queries"] ++ [qid]).
      rewrite path_app. simpl app in Hpath. rewrite Hpath. cbn [path get_prop].
      now rewrite Hget.
    + intros k. destruct (Hrec k) as (Htruthy & Hother). split; [|exact Hother].
      intros Hk Ht. destruct (Htruthy Hk Ht) as (n & Hn & Hstored).
      apply Number_ToNumber in Hn as (x & Hx & ->). now exists x.
  - intros qid Hq. specialize (Hlook qid). rewrite Hq in Hlook.
    change ["sqlLab"; "queries"; qid] with (["sqlLab"; "queries"] ++ [qid]).
    rewrite path_app. simpl app in Hpath. rewrite Hpath. cbn [path get_prop].
    now rewrite Hlook.
Qed.

Lemma timestamp_coercion_witness :
  exists record,
    path (returned (getInitialState (host_reading VNull) timed_queries (Items [])))
      ["sqlLab"; "queries"; "q1"] = VObj record
    /\ obj_get "startDttm" record = Some (VNum (Int 1690000000000))
    /\ obj_get "endDttm" record = None.
Proof.
  destruct (timestamp_coercion (host_reading VNull) timed_queries (Items []) _ eq_refl)
    as [H _].
  destruct (H "q1" _ eq_refl) as (record & Hpath & Hfields).
  exists record. split; [exact Hpath|]. split.
  - destruct (Hfields "startDttm") as [Htruthy _].
    destruct (Htruthy eq_refl eq_refl) as (n & Hn & Hstored).
    vm_compute in Hn. injection Hn as <-. exact Hstored.
  - destruct (Hfields "endDttm") as [_ Hother].
    now rewrite (Hother (or_intror eq_refl)).
Defined.

(** The example of the specification: [startDttm: "1690000000000"] comes
    out as the number [1690000000000], and a query without the key comes
    out without it. *)
Lemma timestamp_coercion_example :
  path (returned (getInitialState (host_reading VNull) timed_queries (Items [])))
    ["sqlLab"; "queries"]
  = VObj [("q1", VObj [("id", VStr "q1"); ("startDttm", VNum (Int 1690000000000))]);
          ("q2", VObj [("id", VStr "q2"); ("endDttm", VNum (Int 0))])].
Proof. reflexivity. Qed.

(** Timestamps written with a fraction, with an exponent, in hexadecimal,
    and beyond the integers a binary64 holds exactly. *)
Lemma timestamp_literals_example :
  map (fun query => path query ["startDttm"])
    (map snd (own_enumerable
                (path (returned (getInitialState (host_reading VNull) literal_queries
                                   (Items [])))
                   ["sqlLab"; "queries"])))
  = [VNum (Frac 3380000000001 1); VNum (Int 1000); VNum (Int 31);
     VNum (Int 9007199254740992); VNum NaN].
Proof. vm_compute. reflexivity. Qed.

(** ** No exception under the input contract *)

Lemma toString_identifier (v : value) :
  is_key v = true -> exists s, toString v = Ok s.
Proof. destruct v; try discriminate; intros _; eexists; reflexivity. Qed.

Lemma ToPropertyKey_identifier (v : value) :
  is_key v = true -> exists s, ToPropertyKey v = Ok s.
Proof. destruct v; try discriminate; intros _; eexists; reflexivity. Qed.

Lemma get_prop_truthy (v : value) (k : string) :
  truthy v = true -> exists x, get_prop v k = Ok x.
Proof. destruct v; try discriminate; intros _; eexists; reflexivity. Qed.

Lemma optional_prop_Ok (v : value) (k : string) :
  exists x, optional_prop v k = Ok x.
Proof. destruct v; eexists; reflexivity. Qed.

Lemma tabQueryEditor_Ok (dflt : props) (activeTab tab : value) :
  activeTab_ok activeTab = true -> tab_ok tab = true ->
  exists qe id, tabQueryEditor dflt activeTab tab = Ok qe /\ member qe "id" = VStr id.
Proof.
  intros Hactive Htab. destruct tab as [| | | | | |o]; try discriminate.
  simpl in Htab. destruct (toString_identifier _ Htab) as (s & Hs).
  unfold tabQueryEditor. cbn [get_prop bind]. fold (member o "id").
  assert (Hstub : exists qe id,
             (id' <- toString (member o "id");;
              Ok (object_literal
                    [Spread (VObj dflt); Field "id" (VStr id');
                     Field "loaded" (VBool false); Field "name" (member o "label")]))
             = Ok qe /\ member qe "id" = VStr id).
  { rewrite Hs. cbn [bind]. eexists. exists s. split; [reflexivity|].
    unfold member. now rewrite obj_get_literal. }
  destruct activeTab as [| | | | | |t]; try discriminate; try exact Hstub.
  cbn [truthy get_prop bind]. destruct (strict_eq _ _); [|exact Hstub].
  rewrite Hs. cbn [bind].
  fold (member t "latest_query"). fold (member t "saved_query").
  assert (Hlq : exists x, (if truthy (member t "latest_query")
                           then get_prop (member t "latest_query") "id"
                           else Ok VNull) = Ok x).
  { destruct (truthy (member t "latest_query")) eqn:E; [|now eexists].
    now apply get_prop_truthy. }
  destruct Hlq as (x & ->).
  destruct (optional_prop_Ok (member t "saved_query") "id") as (r & ->).
  cbn [bind]. eexists. exists s. split; [reflexivity|].
  unfold member. now rewrite obj_get_literal.
Qed.

Lemma addTab_Ok (dflt : props) (activeTab : value) (queryEditors : props) (tab : value) :
  activeTab_ok activeTab = true -> tab_ok tab = true ->
  exists queryEditors', addTab dflt activeTab queryEditors tab = Ok queryEditors'.
Proof.
  intros Ha Ht. unfold addTab.
  destruct (tabQueryEditor_Ok dflt activeTab tab Ha Ht) as (qe & id & Hqe & Hid).
  rewrite Hqe. cbn [bind]. rewrite Hid. cbn [bind ToPropertyKey ToString]. now eexists.
Qed.

Lemma hasDescription_Ok (tableSchema : value) :
  table_schema_ok tableSchema = true -> exists b, hasDescription tableSchema = Ok b.
Proof. destruct tableSchema; try discriminate. intros _. now eexists. Qed.

Lemma addTable_Ok (tables : props) (tableSchema : value) :
  table_schema_ok tableSchema = true ->
  hasDescription tableSchema = Ok true ->
  exists tables', addTable tables tableSchema = Ok tables'.
Proof.
  destruct tableSchema as [| | | | | |o]; try discriminate.
  unfold hasDescription, table_schema_ok, addTable, tabTable.
  cbn [get_prop bind]. fold (member o "description").
  fold (member o "tab_state_id"). fold (member o "id").
  destruct (member o "description") as [| | | | | |d]; try discriminate.
  intros Hok _. apply andb_prop in Hok as (Htab & Hid).
  destruct (toString_identifier _ Htab) as (s & ->).
  cbn [get_prop bind].
  match goal with
  | |- context [ToPropertyKey ?v] =>
      assert (E : v = member o "id")
        by (unfold member at 1; now rewrite obj_get_literal);
      rewrite E
  end.
  destruct (ToPropertyKey_identifier _ Hid) as (key & ->).
  cbn [bind]. now eexists.
Qed.

Lemma defaultQueryEditor_Ok (h : host) (a : args) :
  common_ok (common a) = true -> exists dflt, defaultQueryEditor h a = Ok dflt.
Proof.
  unfold common_ok, defaultQueryEditor. destruct (common a) as [| | | | | |c]; try discriminate.
  cbn [get_prop bind]. fold (member c "conf").
  destruct (member c "conf"); try discriminate. intros _. cbn [get_prop bind]. now eexists.
Qed.

Lemma serverState_Ok (h : host) (a : args) :
  contract a = true -> exists st, serverState h a = Ok st.
Proof.
  unfold contract. intros H.
  apply andb_prop in H as (H & _).
  apply andb_prop in H as (H & Hactive).
  apply andb_prop in H as (Hcommon & Htabs).
  unfold serverState.
  destruct (defaultQueryEditor_Ok h a Hcommon) as (dflt & ->). cbn [bind].
  assert (Hlist : exists tabs,
             as_array (match tabStateIds a with VUndef => VArr [] | v => v end) = Ok tabs
             /\ forall tab, In tab tabs -> tab_ok tab = true).
  { unfold tabStateIds_ok in Htabs. destruct (tabStateIds a) as [| | | | |l|]; try discriminate.
    - exists []. split; [reflexivity|intros tab []].
    - exists l. split; [reflexivity|]. now apply forallb_forall. }
  destruct Hlist as (tabs & -> & Htab). cbn [bind].
  destruct (reduce_Ok (addTab dflt (activeTab a)) tabs
              (fun b x Hx => addTab_Ok dflt (activeTab a) b x Hactive (Htab x Hx)) [])
    as (queryEditors & ->).
  cbn [bind].
  unfold activeTab_ok in Hactive.
  destruct (activeTab a) as [| | | | | |t]; try discriminate;
    try (cbn [truthy bind]; now eexists).
  apply andb_prop in Hactive as (Hid & Hschemas).
  cbn [truthy get_prop bind]. fold (member t "id"). fold (member t "table_schemas").
  destruct (toString_identifier _ Hid) as (s & ->). cbn [bind].
  destruct (member t "table_schemas") as [| | | | |l|]; try discriminate.
  cbn [as_array bind].
  assert (Hok : forall x, In x l -> table_schema_ok x = true) by now apply forallb_forall.
  destruct (filter_r_Ok hasDescription l (fun x Hx => hasDescription_Ok x (Hok x Hx)))
    as (described & -> & Hdescribed).
  cbn [bind].
  destruct (reduce_Ok addTable described
              (fun b x Hx => addTable_Ok b x (Hok x (proj1 (Hdescribed x Hx)))
                               (proj2 (Hdescribed x Hx))) [])
    as (tables & ->).
  cbn [bind]. now eexists.
Qed.

(** The queries of the mapping can be put into the snapshot. *)

Lemma is_dttm_not_index (k : string) :
  is_dttm k = true -> (k =? "length") = false /\ array_index k = None.
Proof.
  unfold is_dttm. intros H. apply orb_prop in H as [H|H];
    apply String.eqb_eq in H; subst k; now split.
Qed.

Lemma plain_timestamp (query : value) (k : string) (dttm : value) :
  plain_timestamps query = true -> is_dttm k = true ->
  get_prop query k = Ok dttm -> is_primitive dttm = true.
Proof.
  intros Hplain Hk. destruct (is_dttm_not_index k Hk) as (Hlen & Hidx).
  destruct query as [| |b|n|s|l|o]; simpl; try discriminate;
    try (intros [= <-]; reflexivity).
  - rewrite Hlen, Hidx. now intros [= <-].
  - rewrite Hlen, Hidx. now intros [= <-].
  - intros [= <-]. destruct (obj_get k o) as [v|] eqn:E; [|reflexivity].
    apply obj_get_In in E. unfold plain_timestamps in Hplain.
    rewrite forallb_forall in Hplain. specialize (Hplain _ E). simpl in Hplain.
    now rewrite Hk in Hplain.
Qed.

Lemma Number_primitive (v : value) :
  is_primitive v = true -> exists n, Number v = Ok n.
Proof. destruct v; try discriminate; intros _; eexists; reflexivity. Qed.

Lemma coerceDttm_total (k : string) (query : value) :
  query_ok query = true -> is_dttm k = true -> exists spread, coerceDttm k query = Ok spread.
Proof.
  unfold query_ok. intros H Hk. apply andb_prop in H as (Hnn & Hplain).
  unfold coerceDttm.
  assert (Hget : exists dttm, get_prop query k = Ok dttm).
  { destruct query; try discriminate; eexists; reflexivity. }
  destruct Hget as (dttm & Hd). rewrite Hd. cbn [bind].
  destruct (truthy dttm); [|now eexists].
  destruct (Number_primitive dttm (plain_timestamp query k dttm Hplain Hk Hd)) as (n & ->).
  cbn [bind]. now eexists.
Qed.

Lemma snapshotQuery_total (query : value) :
  query_ok query = true -> exists q, snapshotQuery query = Ok q.
Proof.
  intros H. unfold snapshotQuery.
  destruct (coerceDttm_total "startDttm" query H eq_refl) as (s & ->).
  destruct (coerceDttm_total "endDttm" query H eq_refl) as (e & ->).
  cbn [bind]. now eexists.
Qed.

Lemma snapshotQueries_total (queries : props) :
  Forall (fun kv => query_ok (snd kv) = true) queries ->
  exists out, snapshotQueries queries = Ok out.
Proof.
  intros H. unfold snapshotQueries.
  destruct (map_r_Ok (fun kv => q <- snapshotQuery (snd kv);; Ok (fst kv, q)) queries)
    as (entries & ->).
  - intros kv Hkv. rewrite Forall_forall in H.
    destruct (snapshotQuery_total _ (H kv Hkv)) as (q & ->). cbn [bind]. now eexists.
  - cbn [bind]. now eexists.
Qed.

Lemma snapshot_total (h : host) (a : args) (st : state) :
  common_ok (common a) = true ->
  Forall (fun kv => query_ok (snd kv) = true) (own (queries st)) ->
  exists snap, snapshot h a st = Ok snap.
Proof.
  intros Hcommon Hq. unfold snapshot.
  destruct (snapshotQueries_total _ Hq) as (out & ->). cbn [bind].
  unfold common_ok in Hcommon. destruct (common a) as [| | | | | |c]; try discriminate.
  unfold js_or. cbn [truthy get_prop bind]. now eexists.
Qed.

Lemma addLegacyQuery_ok (q q' : jsobject) (query : value) :
  plain_timestamps query = true ->
  Forall (fun kv => query_ok (snd kv) = true) (own q) ->
  addLegacyQuery q query = Ok q' ->
  Forall (fun kv => query_ok (snd kv) = true) (own q').
Proof.
  intros Hplain Hq H. unfold addLegacyQuery, assign_member in H.
  apply bind_Ok in H as (id & _ & H). apply bind_Ok in H as (key & _ & H).
  injection H as <-.
  destruct ((key =? "__proto__") && negb (has_own key (own q)) && negb (inherits key q));
    [exact Hq|].
  cbn [own]. apply Forall_forall. intros kv Hin.
  apply In_obj_set in Hin as [->|Hin]; [|rewrite Forall_forall in Hq; now apply Hq].
  unfold query_ok, plain_timestamps. cbn [snd nullish negb andb own_enumerable].
  apply forallb_forall. intros [k v] Hkv. cbn [fst snd].
  unfold object_literal in Hkv. cbn [fold_left define] in Hkv.
  apply In_obj_set in Hkv as [[= -> ->]|Hkv]; [reflexivity|].
  apply In_assign_all in Hkv as [[]|Hkv].
  unfold plain_timestamps in Hplain. rewrite forallb_forall in Hplain.
  exact (Hplain _ Hkv).
Qed.

(** C9, as the code has it.  For every input that meets the contract, and
    whatever the legacy store yields short of a legacy query whose
    timestamp is a record or an array, the call returns a snapshot. *)
Theorem no_exception_under_contract (h : host) (a : args) (ls : storage) :
  contract a = true ->
  legacy_timestamps_plain h ls ->
  exists snap, snd (getInitialState h a ls) = Ok snap.
Proof.
  intros Hc Hlegacy. rewrite getInitialState_snd.
  destruct (serverState_Ok h a Hc) as (st & Hst). rewrite Hst. cbn [bind].
  unfold contract in Hc. apply andb_prop in Hc as (Hc & Hq).
  apply andb_prop in Hc as (Hc & _). apply andb_prop in Hc as (Hcommon & _).
  apply snapshot_total; [exact Hcommon|].
  apply (legacyState_queries (fun q => Forall (fun kv => query_ok (snd kv) = true) (own q))).
  - rewrite (serverState_queries h a st Hst). cbn [own].
    apply Forall_forall. intros kv Hin.
    unfold object_literal in Hin. cbn [fold_left define] in Hin.
    apply In_assign_all in Hin as [[]|Hin].
    rewrite forallb_forall in Hq. now apply Hq.
  - intros sqlLab legacy q query q' Hsql Hleg Hin Hok Hadd.
    exact (addLegacyQuery_ok q q' query (Hlegacy sqlLab legacy query Hsql Hleg Hin) Hok Hadd).
Qed.

Lemma no_exception_under_contract_witness :
  exists snap,
    snd (getInitialState (host_reading legacy_query_blob) two_server_tables legacy_store)
    = Ok snap.
Proof.
  apply no_exception_under_contract.
  - reflexivity.
  - intros sqlLab legacy query Hsql Hlegacy Hin.
    vm_compute in Hsql. injection Hsql as <-.
    vm_compute in Hlegacy. injection Hlegacy as <-.
    destruct Hin as [<-|[]]. reflexivity.
Defined.

(** [common.conf] has the required shape and the legacy store is empty, yet
    a table descriptor without a [description] makes the call raise
    [TypeError]: the filter keeps every description that is not [null], and
    the destructuring of [undefined] raises outside the [try]. *)
Lemma missing_description_raises :
  common_ok (common undescribed_table) = true
  /\ snd (getInitialState (host_reading VNull) undescribed_table (Items [])) = Throw TypeError.
Proof. split; reflexivity. Qed.

(** A legacy blob that parses, with a query whose [startDttm] is a record
    carrying its own [toString]: [Number] raises while the snapshot is
    assembled, after the [try]. *)
Lemma record_timestamp_raises :
  contract one_tab = true
  /\ snd (getInitialState (host_reading record_timestamp_blob) one_tab legacy_store)
     = Throw TypeError.
Proof. split; reflexivity. Qed.

(** ** Further examples of the specification *)

(** With no tab and no legacy blob the snapshot has no editor, no history
    and no table. *)
Lemma defaulting_example :
  path (returned (getInitialState (host_reading VNull) no_tab (Items [])))
    ["sqlLab"; "queryEditors"] = VArr []
  /\ path (returned (getInitialState (host_reading VNull) no_tab (Items [])))
       ["sqlLab"; "tabHistory"] = VArr []
  /\ path (returned (getInitialState (host_reading VNull) no_tab (Items [])))
       ["sqlLab"; "tables"] = VArr [].
Proof. repeat split. Qed.

(** Of a table whose description is [null] and one whose description is a
    record, only the second becomes a table of the snapshot; its
    [dataPreviewQueryId] is split from the rest of the description. *)
Lemma table_filtering_example :
  elements (path (returned (getInitialState (host_reading VNull) one_described_table
                              (Items [])))
              ["sqlLab"; "tables"])
  = [VObj [("dbId", VNum (Int 1)); ("queryEditorId", VStr "1"); ("schema", VStr "main");
           ("name", VStr "t"); ("expanded", VBool true); ("id", VNum (Int 8));
           ("dataPreviewQueryId", VStr "p");
           ("persistData", VObj [("columns", VArr [])]);
           ("initialized", VBool true)]].
Proof. reflexivity. Qed.

(** * Further properties *)

(** ** dedupeTabHistory, beyond the laws above *)

Lemma In_expand (runs : list (value * nat)) (x : value) :
  In x (expand runs) <-> In x (map fst runs).
Proof.
  induction runs as [|[y n] runs IH]; simpl; [tauto|].
  rewrite in_app_iff, IH. split.
  - intros [H|[H|H]]; [now left| |now right].
    apply repeat_spec in H. now left.
  - intros [H|H]; [now left|right; now right].
Qed.

Lemma length_expand (runs : list (value * nat)) :
  length (map fst runs) <= length (expand runs).
Proof.
  induction runs as [|[y n] runs IH]; simpl; [lia|].
  rewrite length_app. lia.
Qed.

Lemma dedupe_of_identifiers (xs : list value) :
  Forall (fun x => is_identifier x = true) xs ->
  dedupeTabHistory xs = map fst (runs_of xs).
Proof.
  intros Hxs. destruct (expand_runs_of xs Hxs) as (Hexp & Hids & Hadj).
  rewrite <- Hexp at 1. now apply dedupe_runs.
Qed.

(** X1. The deduplicated history visits the same tabs as the history, and is
    no longer than it. *)
Theorem dedupeTabHistory_same_tabs (xs : list value) :
  Forall (fun x => is_identifier x = true) xs ->
  (forall x, In x (dedupeTabHistory xs) <-> In x xs)
  /\ length (dedupeTabHistory xs) <= length xs.
Proof.
  intros Hxs. rewrite (dedupe_of_identifiers xs Hxs).
  destruct (expand_runs_of xs Hxs) as (Hexp & _ & _). split.
  - intros x. rewrite <- Hexp at 2. symmetry. apply In_expand.
  - rewrite <- Hexp at 2. apply length_expand.
Qed.

Lemma dedupeTabHistory_same_tabs_witness :
  (forall x, In x (dedupeTabHistory [VStr "1"; VStr "1"; VNum (Int 2); VStr "1"])
             <-> In x [VStr "1"; VStr "1"; VNum (Int 2); VStr "1"])
  /\ length (dedupeTabHistory [VStr "1"; VStr "1"; VNum (Int 2); VStr "1"])
     <= length [VStr "1"; VStr "1"; VNum (Int 2); VStr "1"].
Proof. apply dedupeTabHistory_same_tabs. repeat constructor. Defined.

Lemma dedupe_fold_extends (xs : list value) :
  forall acc, exists ext, fold_left dedupe_step xs acc = acc ++ ext.
Proof.
  induction xs as [|x xs IH]; intros acc; simpl.
  - exists []. now rewrite app_nil_r.
  - destruct (IH (dedupe_step acc x)) as (ext & ->).
    unfold dedupe_step.
    destruct (strict_eq (last_item acc) x); [now exists ext|].
    destruct x; simpl; rewrite <- app_assoc; eexists; reflexivity.
Qed.

(** X2. Whatever the values, entries appended to a history leave the
    deduplicated history of the earlier entries in front. *)
Theorem dedupeTabHistory_prefix (xs ys : list value) :
  exists ext, dedupeTabHistory (xs ++ ys) = dedupeTabHistory xs ++ ext.
Proof.
  unfold dedupeTabHistory. fold dedupe_step. rewrite fold_left_app.
  apply dedupe_fold_extends.
Qed.

Lemma dedupe_twice (xs : list value) :
  Forall (fun x => is_identifier x = true) xs ->
  dedupeTabHistory (dedupeTabHistory xs) = dedupeTabHistory xs.
Proof.
  intros Hxs. destruct (expand_runs_of xs Hxs) as (Hexp & Hids & Hadj).
  rewrite (dedupe_of_identifiers xs Hxs).
  set (heads := map fst (runs_of xs)) in *.
  assert (E : expand (map (fun x => (x, O)) heads) = heads).
  { clear. induction heads as [|x l IH]; simpl; [reflexivity|now rewrite IH]. }
  assert (F : map fst (map (fun x : value => (x, O)) heads) = heads).
  { rewrite map_map. simpl. apply map_id. }
  rewrite <- E at 1. rewrite dedupe_runs.
  - exact F.
  - apply Forall_map. simpl. subst heads. rewrite Forall_map in *. exact Hids.
  - now rewrite F.
Qed.

(** X3. Deduplicating a history of identifiers before more entries are appended
    changes nothing in the end: the legacy entries may be appended to the
    history or to its deduplicated form. *)
Theorem dedupeTabHistory_app (xs ys : list value) :
  Forall (fun x => is_identifier x = true) xs ->
  dedupeTabHistory (dedupeTabHistory xs ++ ys) = dedupeTabHistory (xs ++ ys).
Proof.
  intros Hxs. unfold dedupeTabHistory at 1 3. fold dedupe_step.
  rewrite !fold_left_app.
  change (fold_left dedupe_step (dedupeTabHistory xs) []) with
    (dedupeTabHistory (dedupeTabHistory xs)).
  change (fold_left dedupe_step xs []) with (dedupeTabHistory xs).
  now rewrite dedupe_twice.
Qed.

Lemma dedupeTabHistory_app_witness :
  dedupeTabHistory (dedupeTabHistory [VStr "1"; VStr "1"] ++ [VStr "1"; VArr [VNull]])
  = dedupeTabHistory ([VStr "1"; VStr "1"] ++ [VStr "1"; VArr [VNull]]).
Proof. apply dedupeTabHistory_app. repeat constructor. Defined.

(** X4. An [undefined] entry at the head of a history is dropped: the empty
    result has no last element, and [undefined === undefined]. *)
Theorem dedupeTabHistory_leading_undefined (n : nat) (xs : list value) :
  dedupeTabHistory (repeat VUndef n ++ xs) = dedupeTabHistory xs.
Proof.
  unfold dedupeTabHistory. fold dedupe_step. rewrite fold_left_app.
  induction n as [|n IH]; simpl; [reflexivity|exact IH].
Qed.

(** X5. An array among the entries is spread by [concat], also when that puts
    equal neighbours into the result: on such a history a second pass
    still removes something. *)
Theorem dedupeTabHistory_spreads_arrays (x : value) :
  is_identifier x = true ->
  dedupeTabHistory [VArr [x; x]] = [x; x]
  /\ dedupeTabHistory (dedupeTabHistory [VArr [x; x]]) = [x].
Proof.
  intros Hx. split; [reflexivity|].
  change (dedupeTabHistory [VArr [x; x]]) with [x; x].
  apply (dedupe_runs [(x, 1)]); [now repeat constructor|exact I].
Qed.

Lemma dedupeTabHistory_spreads_arrays_witness :
  dedupeTabHistory [VArr [VStr "1"; VStr "1"]] = [VStr "1"; VStr "1"]
  /\ dedupeTabHistory (dedupeTabHistory [VArr [VStr "1"; VStr "1"]]) = [VStr "1"].
Proof. apply dedupeTabHistory_spreads_arrays. reflexivity. Defined.

(** ** Invariants of the legacy stage *)

(** A property of the variables that every assignment of lines 156-190
    keeps holds when the merge stops, wherever it stops. *)
Lemma mergeLegacy_invariant (P : state -> Prop) (sqlLab : value) (st : state) :
  (forall e, get_prop sqlLab "unsavedQueryEditor" = Throw e -> P st) ->
  (forall unsaved,
      get_prop sqlLab "unsavedQueryEditor" = Ok unsaved ->
      P (set_unsavedQueryEditor st (js_or unsaved (VObj [])))) ->
  (forall s qe x,
      P s -> addLegacyEditor (unsavedQueryEditor s) (queryEditors s) qe = Ok x ->
      P (set_queryEditors s x)) ->
  (forall s legacy merged seen,
      P s -> reduce (addLegacyTable (tables s)) legacy (tables s, []) = Ok (merged, seen) ->
      P (set_tables s merged)) ->
  (forall s query x,
      P s -> addLegacyQuery (queries s) query = Ok x -> P (set_queries s x)) ->
  (forall s history, P s -> P (set_tabHistory s (tabHistory s ++ history))) ->
  P (final (mergeLegacy sqlLab st)).
Proof.
  intros Hnone Hunsaved Heditor Htables Hquery Hhistory. unfold mergeLegacy.
  destruct (get_prop sqlLab "unsavedQueryEditor") as [unsaved|e] eqn:Eu;
    [|exact (Hnone e eq_refl)].
  cbn [attempt]. assert (H0 := Hunsaved unsaved eq_refl).
  apply (final_attempt P); [exact H0|]. intros qes _.
  assert (Hloop1 : forall s, P s ->
            P (final (forEach (fun st qe =>
                                 x <- addLegacyEditor (unsavedQueryEditor st) (queryEditors st) qe;;
                                 Ok (set_queryEditors st x)) qes s))).
  { intros s Hs. apply (forEach_invariant P); [|exact Hs].
    intros s0 qe s1 Hs0 _ H. apply bind_Ok in H as (x & Hx & H). injection H as <-.
    now apply Heditor with (qe := qe). }
  apply (final_andThen P); [now apply Hloop1|]. intros st1 Hst1.
  assert (H1 : P st1).
  { change (P (final (Normal st1))). rewrite <- Hst1. now apply Hloop1. }
  apply (final_attempt P); [exact H1|]. intros [merged seen] Hmerged.
  apply bind_Ok in Hmerged as (tv & _ & Hmerged).
  apply bind_Ok in Hmerged as (legacy & _ & Hmerged).
  assert (H2 := Htables st1 legacy merged seen H1 Hmerged). cbn [fst].
  apply (final_attempt P); [exact H2|]. intros legacyQs _.
  assert (Hloop2 : forall s, P s ->
            P (final (forEach (fun st query =>
                                 x <- addLegacyQuery (queries st) query;;
                                 Ok (set_queries st x)) legacyQs s))).
  { intros s Hs. apply (forEach_invariant P); [|exact Hs].
    intros s0 q s1 Hs0 _ H. apply bind_Ok in H as (x & Hx & H). injection H as <-.
    now apply Hquery with (query := q). }
  apply (final_andThen P); [now apply Hloop2|]. intros st2 Hst2.
  assert (H3 : P st2).
  { change (P (final (Normal st2))). rewrite <- Hst2. now apply Hloop2. }
  apply (final_attempt P); [exact H3|]. intros history _.
  now apply Hhistory.
Qed.

Lemma legacyState_invariant (P : state -> Prop) (h : host) (st : state) (ls : storage) :
  P st ->
  (forall s unsaved, P s -> P (set_unsavedQueryEditor s unsaved)) ->
  (forall s qe x,
      P s -> addLegacyEditor (unsavedQueryEditor s) (queryEditors s) qe = Ok x ->
      P (set_queryEditors s x)) ->
  (forall s legacy merged seen,
      P s -> reduce (addLegacyTable (tables s)) legacy (tables s, []) = Ok (merged, seen) ->
      P (set_tables s merged)) ->
  (forall s query x,
      P s -> addLegacyQuery (queries s) query = Ok x -> P (set_queries s x)) ->
  (forall s history, P s -> P (set_tabHistory s (tabHistory s ++ history))) ->
  P (fst (legacyState h st ls)).
Proof.
  intros Hst Hunsaved Heditor Htables Hquery Hhistory.
  unfold legacyState, try_catch.
  change (P (fst (final (legacyBody h (st, ls))))).
  unfold legacyBody.
  apply (final_attempt (fun w => P (fst w))); [exact Hst|]. intros item _.
  destruct (negb (truthy item)); [exact Hst|].
  apply (final_attempt (fun w => P (fst w))); [exact Hst|]. intros present _.
  destruct (negb (truthy present)); [exact Hst|].
  apply (final_attempt (fun w => P (fst w))); [exact Hst|]. intros sqlLab _.
  apply (final_attempt (fun w => P (fst w))); [exact Hst|]. intros len _.
  destruct (strict_eq len (VNum (Int 0))).
  - apply (final_attempt (fun w => P (fst w))); [exact Hst|]. intros ls' _. exact Hst.
  - assert (H := mergeLegacy_invariant P sqlLab st (fun _ _ => Hst)
                   (fun unsaved _ => Hunsaved st _ Hst) Heditor Htables Hquery Hhistory).
    destruct (mergeLegacy sqlLab st); exact H.
Qed.

(** X6. The store a call leaves behind is the store it found, or that store
    with the key [redux] removed; no other key is touched and nothing is
    written. *)
Theorem store_only_loses_redux (h : host) (a : args) (ls : storage) :
  (fst (getInitialState h a ls) = ls
   \/ removeItem ls "redux" = Ok (fst (getInitialState h a ls)))
  /\ forall k, k <> "redux" -> getItem (fst (getInitialState h a ls)) k = getItem ls k.
Proof.
  assert (H : fst (getInitialState h a ls) = ls
              \/ removeItem ls "redux" = Ok (fst (getInitialState h a ls))).
  { unfold getInitialState. destruct (serverState h a) as [st|e]; [|now left].
    assert (Hw : snd (legacyState h st ls) = ls
                 \/ removeItem ls "redux" = Ok (snd (legacyState h st ls))).
    { unfold legacyState, try_catch.
      change (snd (final (legacyBody h (st, ls))) = ls
              \/ removeItem ls "redux" = Ok (snd (final (legacyBody h (st, ls))))).
      set (P := fun w : state * storage =>
                  snd w = ls \/ removeItem ls "redux" = Ok (snd w)).
      change (P (final (legacyBody h (st, ls)))).
      assert (Hst : P (st, ls)) by now left.
      unfold legacyBody.
      apply (final_attempt P); [exact Hst|]. intros item _.
      destruct (negb (truthy item)); [exact Hst|].
      apply (final_attempt P); [exact Hst|]. intros present _.
      destruct (negb (truthy present)); [exact Hst|].
      apply (final_attempt P); [exact Hst|]. intros sqlLab _.
      apply (final_attempt P); [exact Hst|]. intros len _.
      destruct (strict_eq len (VNum (Int 0))).
      - apply (final_attempt P); [exact Hst|]. intros ls' Hls'. now right.
      - destruct (mergeLegacy sqlLab st); now left. }
    destruct (legacyState h st ls) as [st' ls']. exact Hw. }
  split; [exact H|].
  intros k Hk. destruct H as [->|H]; [reflexivity|].
  destruct ls as [|items]; [discriminate|]. injection H as <-.
  unfold getItem. f_equal.
  assert (E : lookup k (filter (fun e => negb (fst e =? "redux")) items) = lookup k items).
  { induction items as [|[k0 s0] items IH]; [reflexivity|].
    cbn [filter fst lookup].
    destruct (String.eqb_spec k0 "redux") as [->|Hne]; cbn [negb lookup].
    - rewrite IH. destruct (String.eqb_spec "redux" k); [congruence|reflexivity].
    - now rewrite IH. }
  now rewrite E.
Qed.

(** ** Nothing is deleted *)

Lemma present_obj_set (k k' : string) (v : value) (o : props) :
  obj_get k o <> None -> obj_get k (obj_set k' v o) <> None.
Proof. rewrite obj_get_set. now destruct (k' =? k). Qed.

Lemma present_last (k : string) (o : props) :
  obj_get k o <> None -> obj_get_last k o <> None.
Proof.
  intros H Hlast. apply H. apply obj_get_None. now apply obj_get_last_None.
Qed.

Lemma present_copy_with (k k' : string) (v : value) (o : props) :
  obj_get k o <> None ->
  obj_get k (object_literal [Spread (VObj o); Field k' v]) <> None.
Proof.
  intros H. rewrite obj_get_copy_with. destruct (k' =? k); [discriminate|].
  now apply present_last.
Qed.

Lemma addLegacyEditor_keeps (unsaved : value) (queryEditors x : props) (qe : value)
    (k : string) :
  addLegacyEditor unsaved queryEditors qe = Ok x ->
  obj_get k queryEditors <> None -> obj_get k x <> None.
Proof.
  unfold addLegacyEditor. intros H.
  apply bind_Ok in H as (id & _ & H). apply bind_Ok in H as (key & _ & H).
  apply bind_Ok in H as (merged & _ & H). injection H as <-.
  apply present_copy_with.
Qed.

Lemma addLegacyTables_keep (tables : props) (k : string) (legacy : list value) :
  forall merged0 seen0 merged seen,
    reduce (addLegacyTable tables) legacy (merged0, seen0) = Ok (merged, seen) ->
    obj_get k merged0 <> None -> obj_get k merged <> None.
Proof.
  induction legacy as [|x legacy IH]; intros merged0 seen0 merged seen H Hk.
  - simpl in H. now injection H as <- <-.
  - simpl in H. apply bind_Ok in H as ([merged1 seen1] & H1 & H).
    apply addLegacyTable_Ok in H1 as (key1 & _ & -> & ->).
    apply (IH _ _ _ _ H). now apply present_copy_with.
Qed.

Lemma addLegacyQuery_keeps (q q' : jsobject) (query : value) (k : string) :
  addLegacyQuery q query = Ok q' ->
  obj_get k (own q) <> None -> obj_get k (own q') <> None.
Proof.
  unfold addLegacyQuery, assign_member. intros H.
  apply bind_Ok in H as (id & _ & H). apply bind_Ok in H as (key & _ & H).
  injection H as <-.
  destruct ((key =? "__proto__") && negb (has_own key (own q)) && negb (inherits key q));
    [trivial|apply present_obj_set].
Qed.

(** X7. Whatever the legacy store holds and wherever the merge stops, every
    editor, table and query of the state loaded from the backend is still
    filed under its key afterwards: the legacy stage adds and overwrites,
    it never removes. *)
Theorem legacy_stage_never_deletes (h : host) (st : state) (ls : storage) (k : string) :
  (obj_get k (queryEditors st) <> None ->
   obj_get k (queryEditors (fst (legacyState h st ls))) <> None)
  /\ (obj_get k (tables st) <> None ->
      obj_get k (tables (fst (legacyState h st ls))) <> None)
  /\ (obj_get k (own (queries st)) <> None ->
      obj_get k (own (queries (fst (legacyState h st ls)))) <> None).
Proof.
  apply (legacyState_invariant
           (fun s => (obj_get k (queryEditors st) <> None -> obj_get k (queryEditors s) <> None)
                     /\ (obj_get k (tables st) <> None -> obj_get k (tables s) <> None)
                     /\ (obj_get k (own (queries st)) <> None ->
                         obj_get k (own (queries s)) <> None))).
  - tauto.
  - intros s unsaved Hs. exact Hs.
  - intros s qe x (He & Ht & Hq) Hadd. cbn. repeat split; try assumption.
    intros H. exact (addLegacyEditor_keeps _ _ _ _ k Hadd (He H)).
  - intros s legacy merged seen (He & Ht & Hq) Hred. cbn. repeat split; try assumption.
    intros H. exact (addLegacyTables_keep _ k _ _ _ _ _ Hred (Ht H)).
  - intros s query x (He & Ht & Hq) Hadd. cbn. repeat split; try assumption.
    intros H. exact (addLegacyQuery_keeps _ _ _ k Hadd (Hq H)).
  - intros s history Hs. exact Hs.
Qed.

(** ** The tab history and the unsaved editor *)

Lemma serverState_tabHistory (h : host) (a : args) (st : state) :
  serverState h a = Ok st ->
  if truthy (activeTab a)
  then exists s, toString (path (activeTab a) ["id"]) = Ok s /\ tabHistory st = [VStr s]
  else tabHistory st = [].
Proof.
  unfold serverState. intros H.
  apply bind_Ok in H as (dflt & _ & H).
  apply bind_Ok in H as (tabs & _ & H).
  apply bind_Ok in H as (qes & _ & H).
  apply bind_Ok in H as (history & Hh & H).
  apply bind_Ok in H as (tbls & _ & H).
  injection H as <-. cbn [tabHistory].
  destruct (truthy (activeTab a)); [|now injection Hh as <-].
  apply bind_Ok in Hh as (id & Hid & Hh). apply bind_Ok in Hh as (s & Hs & Hh).
  injection Hh as <-. exists s. now rewrite (path_get_prop _ _ _ Hid).
Qed.

Lemma legacyState_tabHistory (h : host) (st : state) (ls : storage) :
  exists legacy, tabHistory (fst (legacyState h st ls)) = tabHistory st ++ legacy.
Proof.
  apply (legacyState_invariant
           (fun s => exists legacy, tabHistory s = tabHistory st ++ legacy)).
  - exists []. now rewrite app_nil_r.
  - intros s unsaved Hs. exact Hs.
  - intros s qe x Hs _. exact Hs.
  - intros s legacy merged seen Hs _. exact Hs.
  - intros s query x Hs _. exact Hs.
  - intros s history (legacy & Hs). exists (legacy ++ history). cbn.
    now rewrite Hs, app_assoc.
Qed.

(** X8. When there is an active tab, the tab history of the snapshot begins
    with its identifier, whatever the legacy store holds: the legacy history
    is appended behind it and deduplication only removes later entries. *)
Theorem active_tab_first_in_history (h : host) (a : args) (ls : storage) (snap : value) :
  truthy (activeTab a) = true ->
  snd (getInitialState h a ls) = Ok snap ->
  exists s rest,
    toString (path (activeTab a) ["id"]) = Ok s
    /\ path snap ["sqlLab"; "tabHistory"] = VArr (VStr s :: rest).
Proof.
  intros Hactive H. rewrite getInitialState_snd in H.
  destruct (serverState h a) as [st|e] eqn:Hst; [|discriminate]. cbn [bind] in H.
  apply snapshot_sqlLab in H as (qs & _ & _ & _ & _ & Hhistory & _).
  assert (Hserver := serverState_tabHistory h a st Hst). rewrite Hactive in Hserver.
  destruct Hserver as (s & Hs & Hserver).
  destruct (legacyState_tabHistory h st ls) as (legacy & Hlegacy).
  rewrite Hlegacy, Hserver in Hhistory.
  exists s. unfold dedupeTabHistory in Hhistory. fold dedupe_step in Hhistory.
  cbn [app fold_left] in Hhistory.
  change (dedupe_step [] (VStr s)) with ([] ++ [VStr s]) in Hhistory.
  destruct (dedupe_fold_extends legacy ([] ++ [VStr s])) as (ext & Hext).
  rewrite Hext in Hhistory. exists ext. split; [exact Hs|exact Hhistory].
Qed.

Lemma active_tab_first_in_history_witness :
  exists s rest,
    toString (path (activeTab two_server_tables) ["id"]) = Ok s
    /\ path (returned (getInitialState (host_reading history_blob) two_server_tables
                         legacy_store))
         ["sqlLab"; "tabHistory"] = VArr (VStr s :: rest).
Proof.
  apply (active_tab_first_in_history (host_reading history_blob) two_server_tables
           legacy_store); reflexivity.
Defined.

Lemma mergeLegacy_unsavedQueryEditor (sqlLab unsaved : value) (st : state) :
  get_prop sqlLab "unsavedQueryEditor" = Ok unsaved ->
  unsavedQueryEditor (final (mergeLegacy sqlLab st)) = js_or unsaved (VObj []).
Proof.
  intros Hu.
  apply (mergeLegacy_invariant (fun s => unsavedQueryEditor s = js_or unsaved (VObj []))).
  - intros e He. rewrite Hu in He. discriminate.
  - intros u Hu'. rewrite Hu in Hu'. now injection Hu' as <-.
  - intros s qe x Hs _. exact Hs.
  - intros s legacy merged seen Hs _. exact Hs.
  - intros s query x Hs _. exact Hs.
  - intros s history Hs. exact Hs.
Qed.

(** X9. Once the legacy blob is being merged, the unsaved editor of the result
    is the legacy [unsavedQueryEditor], or [{}] when that is falsy or
    missing, also when the rest of the blob is malformed and the merge stops
    early. *)
Theorem unsaved_editor_surfaces (h : host) (st : state)
    (items : list (string * string)) (sqlLab : props) (length : value) :
  legacy_sqlLab h items sqlLab ->
  (qes <- get_prop (VObj sqlLab) "queryEditors";; get_prop qes "length") = Ok length ->
  strict_eq length (VNum (Int 0)) = false ->
  unsavedQueryEditor (fst (legacyState h st (Items items)))
  = js_or (member sqlLab "unsavedQueryEditor") (VObj []).
Proof.
  intros Hleg Hlen Hnz.
  rewrite (legacyState_merges h st items sqlLab length Hleg Hlen Hnz). cbn [fst].
  now apply mergeLegacy_unsavedQueryEditor.
Qed.

Lemma unsaved_editor_surfaces_witness :
  unsavedQueryEditor (fst (legacyState (host_reading truncated_blob) one_tab_state legacy_store))
  = js_or (member truncated_sqlLab "unsavedQueryEditor") (VObj []).
Proof.
  apply (unsaved_editor_surfaces (host_reading truncated_blob) one_tab_state
           [("redux", "legacy")] truncated_sqlLab (VNum (Int 1))).
  - exists "legacy", truncated_blob. repeat split. discriminate.
  - reflexivity.
  - reflexivity.
Defined.

(** Through the whole call: the blob without [tables] gives its editor and
    its unsaved editor to the snapshot, and no history. *)
Lemma truncated_blob_example :
  editor_names (returned (getInitialState (host_reading truncated_blob) one_tab legacy_store))
  = [VStr "New"]
  /\ path (returned (getInitialState (host_reading truncated_blob) one_tab legacy_store))
       ["sqlLab"; "unsavedQueryEditor"]
     = VObj [("id", VStr "1"); ("sql", VStr "SELECT 2")]
  /\ path (returned (getInitialState (host_reading truncated_blob) one_tab legacy_store))
       ["sqlLab"; "tabHistory"] = VArr [].
Proof. repeat split. Qed.

(** ** Filing records under their keys *)

(** The loops of lines 73-111 and 116-135 have one shape: build a record
    from an element, take its key, and file it in a copy of the mapping. *)
Section Filing.

Variable build : value -> result props.
Variable keyOf : props -> result string.
Variable file : props -> value -> result props.

Hypothesis file_spec :
  forall acc x acc',
    file acc x = Ok acc' ->
    exists v key,
      build x = Ok v /\ keyOf v = Ok key
      /\ acc' = object_literal [Spread (VObj acc); Field key (VObj v)].

Lemma filed_keeps (k : string) (l : list value) :
  forall init r,
    distinct_keys init ->
    reduce file l init = Ok r ->
    (forall x v, In x l -> build x = Ok v -> keyOf v <> Ok k) ->
    obj_get k r = obj_get k init.
Proof.
  induction l as [|x l IH]; intros init r Hd H Hother; simpl in H.
  - now injection H as <-.
  - apply bind_Ok in H as (acc & Hacc & H).
    destruct (file_spec _ _ _ Hacc) as (v & key & Hv & Hkey & ->).
    rewrite (IH _ _ (distinct_keys_literal _) H).
    + rewrite obj_get_copy_with.
      destruct (String.eqb_spec key k) as [->|_].
      * exfalso. now apply (Hother x v (or_introl eq_refl) Hv).
      * now apply obj_get_last_distinct.
    + intros y w Hy. apply Hother. now right.
Qed.

Lemma filed_last (k : string) (l : list value) :
  forall init r i x v,
    reduce file l init = Ok r ->
    nth_error l i = Some x -> build x = Ok v -> keyOf v = Ok k ->
    (forall j y w, i < j -> nth_error l j = Some y -> build y = Ok w -> keyOf w <> Ok k) ->
    obj_get k r = Some (VObj v).
Proof.
  induction l as [|x0 l IH]; intros init r i x v H Hi Hv Hk Hlast.
  - destruct i; discriminate.
  - simpl in H. apply bind_Ok in H as (acc & Hacc & H).
    destruct (file_spec _ _ _ Hacc) as (v0 & key0 & Hv0 & Hkey0 & ->).
    destruct i as [|i].
    + injection Hi as ->. rewrite Hv in Hv0. injection Hv0 as <-.
      rewrite Hk in Hkey0. injection Hkey0 as <-.
      rewrite (filed_keeps k l _ r (distinct_keys_literal _) H).
      * now rewrite obj_get_copy_with, String.eqb_refl.
      * intros y w Hy. apply In_nth_error in Hy as (j & Hj).
        apply (Hlast (S j)); [lia|exact Hj].
    + apply (IH _ r i x v H Hi Hv Hk).
      intros j y w Hj. apply (Hlast (S j)). lia.
Qed.

Lemma filed_origin (l : list value) :
  forall init r k e,
    reduce file l init = Ok r ->
    obj_get k r = Some e ->
    In (k, e) init
    \/ exists x v, In x l /\ build x = Ok v /\ keyOf v = Ok k /\ e = VObj v.
Proof.
  induction l as [|x0 l IH]; intros init r k e H He.
  - simpl in H. injection H as <-. left. now apply obj_get_In.
  - simpl in H. apply bind_Ok in H as (acc & Hacc & H).
    destruct (file_spec _ _ _ Hacc) as (v0 & key0 & Hv0 & Hkey0 & ->).
    destruct (IH _ _ _ _ H He) as [Hin|(x & v & Hx & Hv & Hk & ->)].
    + apply In_copy_with in Hin as [[= -> ->]|Hin]; [|now left].
      right. exists x0, v0. repeat split; [now left|assumption..].
    + right. exists x, v. repeat split; [now right|assumption..].
Qed.

Lemma filed_all_built (l : list value) :
  forall init r,
    reduce file l init = Ok r ->
    forall x, In x l -> exists v key, build x = Ok v /\ keyOf v = Ok key.
Proof.
  induction l as [|x0 l IH]; intros init r H x Hx; [destruct Hx|].
  simpl in H. apply bind_Ok in H as (acc & Hacc & H).
  destruct Hx as [<-|Hx]; [|exact (IH _ _ H x Hx)].
  destruct (file_spec _ _ _ Hacc) as (v0 & key0 & Hv0 & Hkey0 & _).
  now exists v0, key0.
Qed.

End Filing.

Lemma addTab_files (dflt : props) (activeTab : value) :
  forall acc x acc',
    addTab dflt activeTab acc x = Ok acc' ->
    exists v key,
      tabQueryEditor dflt activeTab x = Ok v
      /\ ToPropertyKey (member v "id") = Ok key
      /\ acc' = object_literal [Spread (VObj acc); Field key (VObj v)].
Proof.
  unfold addTab. intros acc x acc' H.
  apply bind_Ok in H as (v & Hv & H). apply bind_Ok in H as (key & Hkey & H).
  injection H as <-. now exists v, key.
Qed.

Lemma addTable_files :
  forall acc x acc',
    addTable acc x = Ok acc' ->
    exists v key,
      tabTable x = Ok v
      /\ ToPropertyKey (member v "id") = Ok key
      /\ acc' = object_literal [Spread (VObj acc); Field key (VObj v)].
Proof.
  unfold addTable. intros acc x acc' H.
  apply bind_Ok in H as (v & Hv & H). apply bind_Ok in H as (key & Hkey & H).
  injection H as <-. now exists v, key.
Qed.

(** ** The editors loaded from the backend *)

Lemma tabQueryEditor_inv (dflt : props) (activeTab tab : value) (qe : props) :
  tabQueryEditor dflt activeTab tab = Ok qe ->
  exists s,
    tabKey tab = Ok s
    /\ if is_active activeTab tab
       then exists latestQueryId remoteId,
           (if truthy (path activeTab ["latest_query"])
            then get_prop (path activeTab ["latest_query"]) "id"
            else Ok VNull) = Ok latestQueryId
           /\ optional_prop (path activeTab ["saved_query"]) "id" = Ok remoteId
           /\ qe = object_literal
                     [Field "id" (VStr s);
                      Field "loaded" (VBool true);
                      Field "name" (path activeTab ["label"]);
                      Field "sql" (js_or (path activeTab ["sql"]) VUndef);
                      Field "selectedText" VUndef;
                      Field "latestQueryId" latestQueryId;
                      Field "remoteId" remoteId;
                      Field "autorun" (path activeTab ["autorun"]);
                      Field "templateParams" (js_or (path activeTab ["template_params"]) VUndef);
                      Field "dbId" (path activeTab ["database_id"]);
                      Field "schema" (path activeTab ["schema"]);
                      Field "queryLimit" (path activeTab ["query_limit"]);
                      Field "validationResult" validationResult;
                      Field "hideLeftBar" (path activeTab ["hide_left_bar"])]
       else qe = object_literal
                   [Spread (VObj dflt);
                    Field "id" (VStr s);
                    Field "loaded" (VBool false);
                    Field "name" (path tab ["label"])].
Proof.
  unfold tabQueryEditor, tabKey, is_active. intros H.
  apply bind_Ok in H as (id & Hid & H).
  apply bind_Ok in H as (label & Hlabel & H).
  apply bind_Ok in H as (act & Hact & H).
  rewrite (path_get_prop _ _ _ Hid), (path_get_prop _ _ _ Hlabel).
  assert (Eact : act = truthy activeTab && strict_eq (path activeTab ["id"]) id).
  { destruct (truthy activeTab); [|now injection Hact as <-].
    apply bind_Ok in Hact as (aid & Haid & Hact). injection Hact as <-.
    now rewrite (path_get_prop _ _ _ Haid). }
  rewrite <- Eact. destruct act.
  - apply bind_Ok in H as (s & Hs & H). exists s. split; [exact Hs|].
    apply bind_Ok in H as (name & Hname & H).
    apply bind_Ok in H as (sql & Hsql & H).
    apply bind_Ok in H as (lq & Hlq & H).
    apply bind_Ok in H as (lqid & Hlqid & H).
    apply bind_Ok in H as (sq & Hsq & H).
    apply bind_Ok in H as (rid & Hrid & H).
    apply bind_Ok in H as (autorun & Hautorun & H).
    apply bind_Ok in H as (tp & Htp & H).
    apply bind_Ok in H as (db & Hdb & H).
    apply bind_Ok in H as (schema & Hschema & H).
    apply bind_Ok in H as (ql & Hql & H).
    apply bind_Ok in H as (hl & Hhl & H).
    injection H as <-.
    rewrite (path_get_prop _ _ _ Hname), (path_get_prop _ _ _ Hsql),
      (path_get_prop _ _ _ Hlq), (path_get_prop _ _ _ Hsq),
      (path_get_prop _ _ _ Hautorun), (path_get_prop _ _ _ Htp),
      (path_get_prop _ _ _ Hdb), (path_get_prop _ _ _ Hschema),
      (path_get_prop _ _ _ Hql), (path_get_prop _ _ _ Hhl).
    exists lqid, rid. repeat split; assumption.
  - apply bind_Ok in H as (s & Hs & H). exists s. split; [exact Hs|].
    now injection H as <-.
Qed.

Lemma tabQueryEditor_key (dflt : props) (activeTab tab : value) (qe : props) :
  tabQueryEditor dflt activeTab tab = Ok qe ->
  exists s, tabKey tab = Ok s /\ member qe "id" = VStr s.
Proof.
  intros H. apply tabQueryEditor_inv in H as (s & Hs & H). exists s. split; [exact Hs|].
  destruct (is_active activeTab tab).
  - destruct H as (l & r & _ & _ & ->). unfold member. now rewrite obj_get_literal.
  - subst qe. unfold member. now rewrite obj_get_literal.
Qed.

Lemma serverState_editors (h : host) (a : args) (st : state) :
  serverState h a = Ok st ->
  exists dflt,
    defaultQueryEditor h a = Ok dflt
    /\ reduce (addTab dflt (activeTab a)) (tabsOf a) [] = Ok (queryEditors st).
Proof.
  unfold serverState, tabsOf. intros H.
  apply bind_Ok in H as (dflt & Hd & H).
  apply bind_Ok in H as (tabs & Htabs & H).
  apply bind_Ok in H as (qes & Hqes & H).
  binds H. injection H as <-. exists dflt. split; [exact Hd|]. cbn [queryEditors].
  destruct (tabStateIds a); try discriminate; injection Htabs as <-; exact Hqes.
Qed.

(** X10. The editor mapping loaded from the backend has one editor for each
    identifier among the tab descriptors, filed under the identifier's
    string: every descriptor's identifier converts, the editor filed under
    a key is the one of the last descriptor with that key and carries the
    key as its [id], and no editor is filed under any other key. *)
Theorem server_editors_by_tab (h : host) (a : args) (st : state) :
  serverState h a = Ok st ->
  (forall tab, In tab (tabsOf a) -> exists k, tabKey tab = Ok k)
  /\ (forall i tab k,
         nth_error (tabsOf a) i = Some tab -> tabKey tab = Ok k ->
         (forall j later, i < j -> nth_error (tabsOf a) j = Some later -> tabKey later <> Ok k) ->
         exists qe,
           obj_get k (queryEditors st) = Some (VObj qe)
           /\ obj_get "id" qe = Some (VStr k)
           /\ obj_get "loaded" qe = Some (VBool (is_active (activeTab a) tab)))
  /\ (forall k e,
         obj_get k (queryEditors st) = Some e ->
         exists tab, In tab (tabsOf a) /\ tabKey tab = Ok k).
Proof.
  intros Hst. destruct (serverState_editors h a st Hst) as (dflt & _ & Hred).
  set (build := tabQueryEditor dflt (activeTab a)) in *.
  set (keyOf := fun v : props => ToPropertyKey (member v "id")).
  assert (Hspec := addTab_files dflt (activeTab a)).
  assert (Hkey : forall x v, build x = Ok v -> exists s, tabKey x = Ok s /\ keyOf v = Ok s).
  { intros x v Hv. apply tabQueryEditor_key in Hv as (s & Hs & Hid).
    exists s. split; [exact Hs|]. unfold keyOf. now rewrite Hid. }
  split; [|split].
  - intros tab Htab.
    destruct (filed_all_built build keyOf _ Hspec _ _ _ Hred tab Htab) as (v & key & Hv & _).
    destruct (Hkey _ _ Hv) as (s & Hs & _). now exists s.
  - intros i tab k Hi Hk Hlast.
    destruct (filed_all_built build keyOf _ Hspec _ _ _ Hred tab (nth_error_In _ _ Hi))
      as (v & key & Hv & _).
    destruct (Hkey _ _ Hv) as (s & Hs & Hkv). rewrite Hk in Hs. injection Hs as <-.
    exists v. split.
    + apply (filed_last build keyOf _ Hspec k _ _ _ i tab v Hred Hi Hv Hkv).
      intros j y w Hj Hy Hw Hkw. destruct (Hkey _ _ Hw) as (s & Hs & Hks).
      rewrite Hkw in Hks. injection Hks as <-. exact (Hlast j y Hj Hy Hs).
    + apply tabQueryEditor_inv in Hv as (s & Hs & Hv). rewrite Hk in Hs. injection Hs as <-.
      destruct (is_active (activeTab a) tab).
      * destruct Hv as (l & r & _ & _ & ->). now rewrite !obj_get_literal.
      * subst v. now rewrite !obj_get_literal.
  - intros k e He.
    destruct (filed_origin build keyOf _ Hspec _ _ _ _ _ Hred He)
      as [[]|(x & v & Hx & Hv & Hkv & _)].
    destruct (Hkey _ _ Hv) as (s & Hs & Hks). rewrite Hkv in Hks. injection Hks as <-.
    now exists x.
Qed.

Lemma server_editors_by_tab_witness :
  exists qe,
    obj_get "1" (queryEditors one_tab_state) = Some (VObj qe)
    /\ obj_get "id" qe = Some (VStr "1")
    /\ obj_get "loaded" qe
       = Some (VBool (is_active (activeTab one_tab)
                        (VObj [("id", VNum (Int 1)); ("label", VStr "Old")]))).
Proof.
  destruct (server_editors_by_tab (host_reading VNull) one_tab one_tab_state eq_refl)
    as (_ & H & _).
  apply (H 0 (VObj [("id", VNum (Int 1)); ("label", VStr "Old")]) "1" eq_refl eq_refl).
  intros [|[|j]] later Hj Hlater; [lia|discriminate|destruct j; discriminate].
Defined.

Lemma serverState_editor_of_tab (h : host) (a : args) (st : state) (i : nat)
  (tab : value) (k : string) :
  serverState h a = Ok st ->
  nth_error (tabsOf a) i = Some tab ->
  tabKey tab = Ok k ->
  (forall j later, i < j -> nth_error (tabsOf a) j = Some later -> tabKey later <> Ok k) ->
  exists dflt qe,
    defaultQueryEditor h a = Ok dflt
    /\ tabQueryEditor dflt (activeTab a) tab = Ok qe
    /\ obj_get k (queryEditors st) = Some (VObj qe).
Proof.
  intros Hst Hi Hk Hlast.
  destruct (serverState_editors h a st Hst) as (dflt & Hd & Hred).
  set (build := tabQueryEditor dflt (activeTab a)) in *.
  set (keyOf := fun v : props => ToPropertyKey (member v "id")).
  assert (Hspec := addTab_files dflt (activeTab a)).
  assert (Hkey : forall x v, build x = Ok v -> exists s, tabKey x = Ok s /\ keyOf v = Ok s).
  { intros x v Hv. apply tabQueryEditor_key in Hv as (s & Hs & Hid).
    exists s. split; [exact Hs|]. unfold keyOf. now rewrite Hid. }
  destruct (filed_all_built build keyOf _ Hspec _ _ _ Hred tab (nth_error_In _ _ Hi))
    as (v & key & Hv & _).
  destruct (Hkey _ _ Hv) as (s & Hs & Hkv). rewrite Hk in Hs. injection Hs as <-.
  exists dflt, v. split; [exact Hd|]. split; [exact Hv|].
  apply (filed_last build keyOf _ Hspec k _ _ _ i tab v Hred Hi Hv Hkv).
  intros j y w Hj Hy Hw Hkw. destruct (Hkey _ _ Hw) as (s & Hs & Hks).
  rewrite Hkw in Hks. injection Hks as <-. exact (Hlast j y Hj Hy Hs).
Qed.

Lemma defaultQueryEditor_fields (h : host) (a : args) (dflt : props) :
  defaultQueryEditor h a = Ok dflt ->
  dflt = object_literal
           [Field "id" VNull;
            Field "loaded" (VBool true);
            Field "name" (VStr (t h "Untitled query"));
            Field "sql" (VStr ("SELECT *" ++ newline ++ "FROM" ++ newline ++ "WHERE"));
            Field "selectedText" VNull;
            Field "latestQueryId" VNull;
            Field "autorun" (VBool false);
            Field "templateParams" VNull;
            Field "dbId" (defaultDbId a);
            Field "queryLimit" (path (common a) ["conf"; "DEFAULT_SQLLAB_LIMIT"]);
            Field "validationResult" validationResult;
            Field "hideLeftBar" (VBool false)].
Proof.
  unfold defaultQueryEditor. intros H.
  apply bind_Ok in H as (conf & Hconf & H). apply bind_Ok in H as (ql & Hql & H).
  injection H as <-. cbn [path]. rewrite Hconf, Hql. reflexivity.
Qed.

(** X11. An editor of a tab that is not the active one is a stub: it is marked
    not loaded, takes its name from the descriptor's label and its key as
    [id], and every other field, the default database and the configured
    query limit among them, from the defaults; it has neither a [schema]
    nor a [remoteId]. *)
Theorem inactive_tab_is_stub (h : host) (a : args) (st : state) (i : nat)
  (tab : value) (k : string) :
  serverState h a = Ok st ->
  nth_error (tabsOf a) i = Some tab ->
  tabKey tab = Ok k ->
  (forall j later, i < j -> nth_error (tabsOf a) j = Some later -> tabKey later <> Ok k) ->
  is_active (activeTab a) tab = false ->
  exists dflt qe,
    defaultQueryEditor h a = Ok dflt
    /\ obj_get k (queryEditors st) = Some (VObj qe)
    /\ obj_get "id" qe = Some (VStr k)
    /\ obj_get "loaded" qe = Some (VBool false)
    /\ obj_get "name" qe = Some (path tab ["label"])
    /\ (forall f, f <> "id" -> f <> "loaded" -> f <> "name" -> obj_get f qe = obj_get f dflt)
    /\ obj_get "dbId" qe = Some (defaultDbId a)
    /\ obj_get "queryLimit" qe = Some (path (common a) ["conf"; "DEFAULT_SQLLAB_LIMIT"])
    /\ obj_get "schema" qe = None
    /\ obj_get "remoteId" qe = None.
Proof.
  intros Hst Hi Hk Hlast Hact.
  destruct (serverState_editor_of_tab h a st i tab k Hst Hi Hk Hlast)
    as (dflt & qe & Hd & Hqe & Hget).
  exists dflt, qe. split; [exact Hd|]. split; [exact Hget|].
  apply tabQueryEditor_inv in Hqe as (s & Hs & Hqe).
  rewrite Hk in Hs. injection Hs as <-. rewrite Hact in Hqe.
  assert (Hother : forall f, f <> "id" -> f <> "loaded" -> f <> "name" ->
                             obj_get f qe = obj_get f dflt).
  { intros f H1 H2 H3. subst qe. rewrite obj_get_literal. cbn [lookup_defs own_enumerable].
    destruct (String.eqb_spec "id" f) as [E|_]; [now elim H1|].
    destruct (String.eqb_spec "loaded" f) as [E|_]; [now elim H2|].
    destruct (String.eqb_spec "name" f) as [E|_]; [now elim H3|].
    rewrite obj_get_last_distinct.
    - now destruct (obj_get f dflt).
    - rewrite (defaultQueryEditor_fields h a dflt Hd). apply distinct_keys_literal. }
  repeat split.
  - subst qe. now rewrite obj_get_literal.
  - subst qe. now rewrite obj_get_literal.
  - subst qe. now rewrite obj_get_literal.
  - exact Hother.
  - rewrite Hother by discriminate.
    rewrite (defaultQueryEditor_fields h a dflt Hd). now rewrite obj_get_literal.
  - rewrite Hother by discriminate.
    rewrite (defaultQueryEditor_fields h a dflt Hd). now rewrite obj_get_literal.
  - rewrite Hother by discriminate.
    rewrite (defaultQueryEditor_fields h a dflt Hd). now rewrite obj_get_literal.
  - rewrite Hother by discriminate.
    rewrite (defaultQueryEditor_fields h a dflt Hd). now rewrite obj_get_literal.
Qed.

Lemma inactive_tab_is_stub_witness :
  exists dflt qe,
    defaultQueryEditor (host_reading VNull) one_tab = Ok dflt
    /\ obj_get "1" (queryEditors one_tab_state) = Some (VObj qe)
    /\ obj_get "id" qe = Some (VStr "1")
    /\ obj_get "loaded" qe = Some (VBool false)
    /\ obj_get "name" qe = Some (VStr "Old")
    /\ (forall f, f <> "id" -> f <> "loaded" -> f <> "name" -> obj_get f qe = obj_get f dflt)
    /\ obj_get "dbId" qe = Some (VNum (Int 1))
    /\ obj_get "queryLimit" qe = Some (VNum (Int 1000))
    /\ obj_get "schema" qe = None
    /\ obj_get "remoteId" qe = None.
Proof.
  apply (inactive_tab_is_stub (host_reading VNull) one_tab one_tab_state 0
           (VObj [("id", VNum (Int 1)); ("label", VStr "Old")]) "1" eq_refl eq_refl eq_refl).
  - intros [|[|j]] later Hj Hlater; [lia|discriminate|destruct j; discriminate].
  - reflexivity.
Defined.

(** X12. The editor of the active tab takes nothing from the defaults or from
    the tab descriptor: it is marked loaded and its name, database, schema
    and query limit are the active tab's; a falsy [sql] or
    [template_params] (an empty string as well as [null]) is stored as
    [undefined], and [latestQueryId] is [null] when the tab has no latest
    query. *)
Theorem active_tab_editor (h : host) (a : args) (st : state) (i : nat)
  (tab : value) (k : string) :
  serverState h a = Ok st ->
  nth_error (tabsOf a) i = Some tab ->
  tabKey tab = Ok k ->
  (forall j later, i < j -> nth_error (tabsOf a) j = Some later -> tabKey later <> Ok k) ->
  is_active (activeTab a) tab = true ->
  exists qe,
    obj_get k (queryEditors st) = Some (VObj qe)
    /\ obj_get "id" qe = Some (VStr k)
    /\ obj_get "loaded" qe = Some (VBool true)
    /\ obj_get "name" qe = Some (path (activeTab a) ["label"])
    /\ obj_get "dbId" qe = Some (path (activeTab a) ["database_id"])
    /\ obj_get "schema" qe = Some (path (activeTab a) ["schema"])
    /\ obj_get "queryLimit" qe = Some (path (activeTab a) ["query_limit"])
    /\ obj_get "sql" qe
       = Some (if truthy (path (activeTab a) ["sql"])
               then path (activeTab a) ["sql"] else VUndef)
    /\ obj_get "templateParams" qe
       = Some (if truthy (path (activeTab a) ["template_params"])
               then path (activeTab a) ["template_params"] else VUndef)
    /\ (truthy (path (activeTab a) ["latest_query"]) = false ->
        obj_get "latestQueryId" qe = Some VNull)
    /\ (truthy (path (activeTab a) ["latest_query"]) = true ->
        obj_get "latestQueryId" qe = Some (path (activeTab a) ["latest_query"; "id"])).
Proof.
  intros Hst Hi Hk Hlast Hact.
  destruct (serverState_editor_of_tab h a st i tab k Hst Hi Hk Hlast)
    as (dflt & qe & Hd & Hqe & Hget).
  exists qe. split; [exact Hget|].
  apply tabQueryEditor_inv in Hqe as (s & Hs & Hqe).
  rewrite Hk in Hs. injection Hs as <-. rewrite Hact in Hqe.
  destruct Hqe as (lq & rid & Hlq & _ & ->).
  rewrite !obj_get_literal. cbn [lookup_defs String.eqb Ascii.eqb Bool.eqb].
  repeat split.
  - intros E. rewrite E in Hlq. now injection Hlq as <-.
  - intros E. rewrite E in Hlq.
    change (path (activeTab a) ["latest_query"; "id"])
      with (path (activeTab a) (["latest_query"] ++ ["id"])).
    rewrite path_app. now rewrite (path_get_prop _ _ _ Hlq).
Qed.

Lemma active_tab_editor_witness :
  exists qe,
    obj_get "1" (queryEditors active_tab_state) = Some (VObj qe)
    /\ obj_get "id" qe = Some (VStr "1")
    /\ obj_get "loaded" qe = Some (VBool true)
    /\ obj_get "name" qe = Some (VStr "Old")
    /\ obj_get "dbId" qe = Some VUndef
    /\ obj_get "schema" qe = Some VUndef
    /\ obj_get "queryLimit" qe = Some VUndef
    /\ obj_get "sql" qe = Some VUndef
    /\ obj_get "templateParams" qe = Some VUndef
    /\ (false = false -> obj_get "latestQueryId" qe = Some VNull)
    /\ (false = true -> obj_get "latestQueryId" qe = Some VUndef).
Proof.
  apply (active_tab_editor (host_reading VNull) (active_tab_args (VArr [])) active_tab_state 0
           (VObj [("id", VNum (Int 1)); ("label", VStr "Old")]) "1" eq_refl eq_refl eq_refl).
  - intros [|[|j]] later Hj Hlater; [lia|discriminate|destruct j; discriminate].
  - reflexivity.
Defined.

(** ** The tables loaded from the backend *)

Section Presence.

Variable build : value -> result props.
Variable keyOf : props -> result string.
Variable file : props -> value -> result props.

Hypothesis file_spec :
  forall acc x acc',
    file acc x = Ok acc' ->
    exists v key,
      build x = Ok v /\ keyOf v = Ok key
      /\ acc' = object_literal [Spread (VObj acc); Field key (VObj v)].

Lemma filed_stays (k : string) (l : list value) :
  forall init r,
    reduce file l init = Ok r -> obj_get k init <> None -> obj_get k r <> None.
Proof.
  induction l as [|x l IH]; intros init r H Hk.
  - now injection H as <-.
  - cbn [reduce] in H. apply bind_Ok in H as (acc & Hacc & H).
    apply (IH _ _ H). destruct (file_spec _ _ _ Hacc) as (v & key & _ & _ & ->).
    now apply present_copy_with.
Qed.

Lemma filed_present (l : list value) :
  forall init r x v k,
    reduce file l init = Ok r ->
    In x l -> build x = Ok v -> keyOf v = Ok k ->
    obj_get k r <> None.
Proof.
  induction l as [|y l IH]; intros init r x v k H Hx Hv Hk; [destruct Hx|].
  cbn [reduce] in H. apply bind_Ok in H as (acc & Hacc & H).
  destruct Hx as [->|Hx]; [|exact (IH _ _ _ _ _ H Hx Hv Hk)].
  apply (filed_stays k _ _ _ H).
  destruct (file_spec _ _ _ Hacc) as (v' & key & Hv' & Hkey & ->).
  rewrite Hv in Hv'. injection Hv' as <-. rewrite Hk in Hkey. injection Hkey as <-.
  rewrite obj_get_copy_with, String.eqb_refl. discriminate.
Qed.

End Presence.

Lemma filter_r_filter (l : list value) :
  forall l',
    filter_r hasDescription l = Ok l' ->
    l' = filter is_described l.
Proof.
  induction l as [|x l IH]; intros l' H.
  - now injection H as <-.
  - cbn [filter_r] in H. apply bind_Ok in H as (keep & Hkeep & H).
    apply bind_Ok in H as (rest & Hrest & H). injection H as <-.
    rewrite (IH _ Hrest). cbn [filter].
    unfold hasDescription in Hkeep. apply bind_Ok in Hkeep as (d & Hd & Hkeep).
    injection Hkeep as <-. unfold is_described. now rewrite (path_get_prop _ _ _ Hd).
Qed.

Lemma serverState_tables (h : host) (a : args) (st : state) :
  serverState h a = Ok st ->
  if truthy (activeTab a)
  then reduce addTable (filter is_described (schemasOf a)) [] = Ok (tables st)
  else tables st = [] /\ tabHistory st = [].
Proof.
  unfold serverState, schemasOf. intros H.
  apply bind_Ok in H as (dflt & Hd & H).
  apply bind_Ok in H as (tabs & Htabs & H).
  apply bind_Ok in H as (qes & Hqes & H).
  apply bind_Ok in H as (history & Hhistory & H).
  apply bind_Ok in H as (tbls & Htbls & H).
  injection H as <-. cbn [tables tabHistory].
  destruct (truthy (activeTab a)).
  - apply bind_Ok in Htbls as (schemas & Hschemas & Htbls).
    apply bind_Ok in Htbls as (all & Hall & Htbls).
    apply bind_Ok in Htbls as (described & Hdescribed & Htbls).
    rewrite (path_get_prop _ _ _ Hschemas).
    destruct schemas; try discriminate. injection Hall as <-. cbn [elements].
    now rewrite <- (filter_r_filter _ _ Hdescribed).
  - injection Htbls as <-. injection Hhistory as <-. now split.
Qed.

Lemma tabTable_key (tableSchema : value) (table : props) :
  tabTable tableSchema = Ok table ->
  member table "id" = path tableSchema ["id"].
Proof.
  unfold tabTable. intros H. binds H. injection H as <-.
  unfold member. rewrite obj_get_literal. cbn [lookup_defs String.eqb Ascii.eqb Bool.eqb].
  cbn [path].
  match goal with E : get_prop tableSchema "id" = Ok _ |- _ => now rewrite E end.
Qed.

(** X13. The tables loaded from the backend are those of the active tab whose
    description is not [null]: with no active tab there is no table and no
    tab history; every table filed is built from such a descriptor and is
    filed under the descriptor's [id]; and every such descriptor has a
    table filed under its [id]. *)
Theorem server_tables_from_described (h : host) (a : args) (st : state) :
  serverState h a = Ok st ->
  (truthy (activeTab a) = false -> tables st = [] /\ tabHistory st = [])
  /\ (forall k e,
         obj_get k (tables st) = Some e ->
         exists tableSchema table,
           In tableSchema (schemasOf a)
           /\ is_described tableSchema = true
           /\ ToPropertyKey (path tableSchema ["id"]) = Ok k
           /\ tabTable tableSchema = Ok table
           /\ e = VObj table)
  /\ (forall tableSchema,
         truthy (activeTab a) = true ->
         In tableSchema (schemasOf a) ->
         is_described tableSchema = true ->
         exists k,
           ToPropertyKey (path tableSchema ["id"]) = Ok k
           /\ obj_get k (tables st) <> None).
Proof.
  intros Hst. assert (Ht := serverState_tables h a st Hst).
  set (keyOf := fun v : props => ToPropertyKey (member v "id")).
  split; [|split].
  - intros E. now rewrite E in Ht.
  - intros k e He. destruct (truthy (activeTab a)).
    + destruct (filed_origin tabTable keyOf _ addTable_files _ _ _ _ _ Ht He)
        as [[]|(x & v & Hx & Hv & Hkv & ->)].
      apply filter_In in Hx as (Hx & Hdesc). exists x, v.
      unfold keyOf in Hkv. rewrite (tabTable_key _ _ Hv) in Hkv. now repeat split.
    + destruct Ht as (Ht & _). rewrite Ht in He. discriminate.
  - intros ts E Hin Hdesc. rewrite E in Ht.
    assert (Hx : In ts (filter is_described (schemasOf a))) by now apply filter_In.
    destruct (filed_all_built tabTable keyOf _ addTable_files _ _ _ Ht ts Hx)
      as (v & key & Hv & Hkey).
    exists key. split.
    + unfold keyOf in Hkey. now rewrite (tabTable_key _ _ Hv) in Hkey.
    + exact (filed_present tabTable keyOf _ addTable_files _ _ _ _ _ _ Ht Hx Hv Hkey).
Qed.

Lemma server_tables_from_described_witness :
  exists tableSchema table,
    In tableSchema (schemasOf one_described_table)
    /\ is_described tableSchema = true
    /\ ToPropertyKey (path tableSchema ["id"]) = Ok "8"
    /\ tabTable tableSchema = Ok table
    /\ obj_get "8" (tables one_described_state) = Some (VObj table).
Proof.
  destruct (server_tables_from_described (host_reading VNull) one_described_table
              one_described_state eq_refl) as (_ & H & _).
  destruct (H "8" _ eq_refl) as (ts & table & H1 & H2 & H3 & H4 & H5).
  exists ts, table. repeat split; try assumption. now rewrite <- H5.
Defined.

Lemma obj_get_remove (k f : string) (o : props) :
  obj_get f (obj_remove k o) = if f =? k then None else obj_get f o.
Proof.
  induction o as [|[k' v] o IH]; cbn [obj_remove obj_get].
  - now destruct (f =? k).
  - destruct (String.eqb_spec k' k) as [->|Hne].
    + rewrite IH. destruct (String.eqb_spec f k) as [->|Hf]; [reflexivity|].
      destruct (String.eqb_spec k f) as [E|_]; [now elim Hf|reflexivity].
    + cbn [obj_get]. rewrite IH.
      destruct (String.eqb_spec k' f) as [<-|_]; [|reflexivity].
      destruct (String.eqb_spec k' k) as [E|_]; [now elim Hne|reflexivity].
Qed.

Lemma In_obj_remove (k : string) (o : props) (kv : string * value) :
  In kv (obj_remove k o) -> In kv o.
Proof.
  induction o as [|[k' v] o IH]; cbn [obj_remove]; [easy|].
  destruct (k' =? k); [right; auto|]. intros [<-|H]; [now left|right; auto].
Qed.

Lemma distinct_keys_remove (k : string) (o : props) :
  distinct_keys o -> distinct_keys (obj_remove k o).
Proof.
  unfold distinct_keys. induction o as [|[k' v] o IH]; cbn [obj_remove map fst]; [easy|].
  intros H. inversion H as [|? ? Hnotin Hnodup]; subst.
  destruct (k' =? k); [auto|]. cbn [map fst]. constructor; [|auto].
  intros Hin. apply Hnotin. apply in_map_iff in Hin as ([k0 v0] & E & Hin). cbn in E. subst k0.
  apply in_map_iff. exists (k', v0). split; [reflexivity|]. exact (In_obj_remove _ _ _ Hin).
Qed.

(** X14. A table's description is split without loss: [persistData] holds every
    member of the description record except [dataPreviewQueryId], which is
    carried on the table itself; the table is marked initialized and its
    [queryEditorId] is the string of the descriptor's [tab_state_id]. *)
Theorem description_split (tableSchema : value) (table description : props) :
  tabTable tableSchema = Ok table ->
  path tableSchema ["description"] = VObj description ->
  distinct_keys description ->
  (forall f,
      path (VObj table) ["persistData"; f]
      = if f =? "dataPreviewQueryId" then VUndef else path (VObj description) [f])
  /\ path (VObj table) ["dataPreviewQueryId"] = path (VObj description) ["dataPreviewQueryId"]
  /\ path (VObj table) ["initialized"] = VBool true
  /\ exists s,
       toString (path tableSchema ["tab_state_id"]) = Ok s
       /\ path (VObj table) ["queryEditorId"] = VStr s.
Proof.
  unfold tabTable. intros H Hd Hdistinct.
  apply bind_Ok in H as (d & Hdesc & H).
  rewrite (path_get_prop _ _ _ Hdesc) in Hd. subst d.
  apply bind_Ok in H as (preview & Hpreview & H).
  apply bind_Ok in H as (db & Hdb & H).
  apply bind_Ok in H as (tsid & Htsid & H).
  apply bind_Ok in H as (qid & Hqid & H).
  binds H. injection H as <-.
  cbn [path get_prop]. rewrite !obj_get_literal.
  cbn [lookup_defs String.eqb Ascii.eqb Bool.eqb get_prop].
  split; [|split; [|split; [reflexivity|]]].
  - intros f. unfold rest_without. cbn [own_enumerable].
    rewrite obj_get_assign_all.
    rewrite obj_get_last_distinct by now apply distinct_keys_remove.
    rewrite obj_get_remove. cbn [obj_get or_else].
    destruct (f =? "dataPreviewQueryId"); [reflexivity|].
    now destruct (obj_get f description).
  - cbn [get_prop] in Hpreview. now injection Hpreview as <-.
  - exists qid. split; [|reflexivity]. rewrite Htsid. exact Hqid.
Qed.

Lemma description_split_witness :
  path (VObj (value_of [] (tabTable (table_schema 8 1
           (VObj [("dataPreviewQueryId", VStr "p"); ("columns", VArr [])])))))
    ["persistData"; "columns"] = VArr [].
Proof.
  apply (description_split
           (table_schema 8 1 (VObj [("dataPreviewQueryId", VStr "p"); ("columns", VArr [])]))
           _ [("dataPreviewQueryId", VStr "p"); ("columns", VArr [])] eq_refl eq_refl).
  unfold distinct_keys. cbn [map fst].
  repeat constructor; cbn [In]; intuition discriminate.
Defined.

(** ** What the legacy stage leaves alone *)

Lemma mergeLegacy_provenance (P : state -> Prop) (sqlLab : value) (st : state) :
  P st ->
  (forall s unsaved, P s -> P (set_unsavedQueryEditor s unsaved)) ->
  (forall s qes qe x,
      P s -> (x <- get_prop sqlLab "queryEditors";; as_array x) = Ok qes -> In qe qes ->
      addLegacyEditor (unsavedQueryEditor s) (queryEditors s) qe = Ok x ->
      P (set_queryEditors s x)) ->
  (forall s legacy merged seen,
      P s -> (x <- get_prop sqlLab "tables";; as_array x) = Ok legacy ->
      reduce (addLegacyTable (tables s)) legacy (tables s, []) = Ok (merged, seen) ->
      P (set_tables s merged)) ->
  (forall s legacy query x,
      P s -> legacyQueries sqlLab = Ok legacy -> In query legacy ->
      addLegacyQuery (queries s) query = Ok x -> P (set_queries s x)) ->
  (forall s history, P s -> P (set_tabHistory s (tabHistory s ++ history))) ->
  P (final (mergeLegacy sqlLab st)).
Proof.
  intros Hst Hunsaved Heditor Htables Hquery Hhistory. unfold mergeLegacy.
  apply (final_attempt P); [exact Hst|]. intros unsaved _.
  assert (H0 := Hunsaved st (js_or unsaved (VObj [])) Hst).
  apply (final_attempt P); [exact H0|]. intros qes Hqes.
  assert (Hloop1 : forall s, P s ->
            P (final (forEach (fun st qe =>
                                 x <- addLegacyEditor (unsavedQueryEditor st) (queryEditors st) qe;;
                                 Ok (set_queryEditors st x)) qes s))).
  { intros s Hs. apply (forEach_invariant P); [|exact Hs].
    intros s0 qe s1 Hs0 Hin H. apply bind_Ok in H as (x & Hx & H). injection H as <-.
    exact (Heditor s0 qes qe x Hs0 Hqes Hin Hx). }
  apply (final_andThen P); [now apply Hloop1|]. intros st1 Hst1.
  assert (H1 : P st1).
  { change (P (final (Normal st1))). rewrite <- Hst1. now apply Hloop1. }
  apply (final_attempt P); [exact H1|]. intros [merged seen] Hmerged.
  apply bind_Ok in Hmerged as (tv & Htv & Hmerged).
  apply bind_Ok in Hmerged as (legacy & Hlegacy & Hmerged).
  assert (Hl : (x <- get_prop sqlLab "tables";; as_array x) = Ok legacy).
  { now rewrite Htv. }
  assert (H2 := Htables st1 legacy merged seen H1 Hl Hmerged). cbn [fst].
  apply (final_attempt P); [exact H2|]. intros legacyQs HlegacyQs.
  assert (Hloop2 : forall s, P s ->
            P (final (forEach (fun st query =>
                                 x <- addLegacyQuery (queries st) query;;
                                 Ok (set_queries st x)) legacyQs s))).
  { intros s Hs. apply (forEach_invariant P); [|exact Hs].
    intros s0 q s1 Hs0 Hin H. apply bind_Ok in H as (x & Hx & H). injection H as <-.
    exact (Hquery s0 legacyQs q x Hs0 HlegacyQs Hin Hx). }
  apply (final_andThen P); [now apply Hloop2|]. intros st2 Hst2.
  assert (H3 : P st2).
  { change (P (final (Normal st2))). rewrite <- Hst2. now apply Hloop2. }
  apply (final_attempt P); [exact H3|]. intros history _.
  now apply Hhistory.
Qed.

Lemma legacyState_provenance (P : state -> Prop) (h : host) (st : state) (ls : storage) :
  P st ->
  (forall sqlLab,
      readSqlLab h ls = Ok sqlLab -> P (final (mergeLegacy sqlLab st))) ->
  P (fst (legacyState h st ls)).
Proof.
  intros Hst Hmerge.
  unfold legacyState, try_catch.
  change (P (fst (final (legacyBody h (st, ls))))).
  unfold legacyBody.
  apply (final_attempt (fun w => P (fst w))); [exact Hst|]. intros item _.
  destruct (negb (truthy item)); [exact Hst|].
  apply (final_attempt (fun w => P (fst w))); [exact Hst|]. intros present _.
  destruct (negb (truthy present)); [exact Hst|].
  apply (final_attempt (fun w => P (fst w))); [exact Hst|]. intros sqlLab Hsql.
  apply (final_attempt (fun w => P (fst w))); [exact Hst|]. intros len _.
  destruct (strict_eq len (VNum (Int 0))).
  - apply (final_attempt (fun w => P (fst w))); [exact Hst|]. intros ls' _. exact Hst.
  - assert (H := Hmerge sqlLab Hsql).
    destruct (mergeLegacy sqlLab st); exact H.
Qed.

Lemma array_elements (v : value) (k : string) (l : list value) :
  (x <- get_prop v k;; as_array x) = Ok l -> elements (path v [k]) = l.
Proof.
  intros H. apply bind_Ok in H as (x & Hx & H). rewrite (path_get_prop _ _ _ Hx).
  destruct x; try discriminate. now injection H as <-.
Qed.

Lemma addLegacyEditor_keeps_other (unsaved : value) (queryEditors x : props) (qe : value)
  (k : string) :
  distinct_keys queryEditors ->
  tableKey qe <> Ok k ->
  addLegacyEditor unsaved queryEditors qe = Ok x ->
  obj_get k x = obj_get k queryEditors /\ distinct_keys x.
Proof.
  unfold addLegacyEditor, tableKey. intros Hd Hk H.
  apply bind_Ok in H as (id & Hid & H). rewrite Hid in Hk. cbn [bind] in Hk.
  apply bind_Ok in H as (key & Hkey & H). apply bind_Ok in H as (merged & _ & H).
  injection H as <-. split; [|apply distinct_keys_literal].
  rewrite obj_get_copy_with. destruct (String.eqb_spec key k) as [->|_]; [now elim Hk|].
  now apply obj_get_last_distinct.
Qed.

Lemma assign_member_other (o : jsobject) (key k : string) (v : props) :
  key <> k -> obj_get k (own (assign_member o key v)) = obj_get k (own o).
Proof.
  intros Hne. unfold assign_member.
  destruct ((key =? "__proto__") && negb (has_own key (own o)) && negb (inherits key o));
    cbn [own]; [reflexivity|].
  rewrite obj_get_set. now destruct (String.eqb_spec key k).
Qed.

Lemma legacy_tables_distinct (tables : props) (legacy : list value) :
  forall merged0 seen0 merged seen,
    distinct_keys merged0 ->
    reduce (addLegacyTable tables) legacy (merged0, seen0) = Ok (merged, seen) ->
    distinct_keys merged.
Proof.
  induction legacy as [|x legacy IH]; intros merged0 seen0 merged seen Hd H.
  - now injection H as <- _.
  - cbn [reduce] in H. apply bind_Ok in H as ([m s] & Hstep & H).
    refine (IH _ _ _ _ _ H).
    apply addLegacyTable_Ok in Hstep as (key & _ & _ & ->).
    apply distinct_keys_literal.
Qed.

(** X15. The legacy stage changes only what the local storage names: an editor
    whose key no legacy editor carries, a table whose key no legacy table
    carries and a query whose key no legacy query carries are after the
    stage what they were before it, whether the stage completes or stops
    part-way.  ([tableKey] reads the key of any record from its [id].) *)
Theorem legacy_stage_changes_only_its_ids (h : host) (st : state) (ls : storage)
  (k : string) :
  distinct_keys (queryEditors st) ->
  distinct_keys (tables st) ->
  ((forall sqlLab qe,
       readSqlLab h ls = Ok sqlLab ->
       In qe (elements (path sqlLab ["queryEditors"])) -> tableKey qe <> Ok k) ->
   obj_get k (queryEditors (fst (legacyState h st ls))) = obj_get k (queryEditors st))
  /\ ((forall sqlLab table,
          readSqlLab h ls = Ok sqlLab ->
          In table (elements (path sqlLab ["tables"])) -> tableKey table <> Ok k) ->
      obj_get k (tables (fst (legacyState h st ls))) = obj_get k (tables st))
  /\ ((forall sqlLab legacy query,
          readSqlLab h ls = Ok sqlLab ->
          legacyQueries sqlLab = Ok legacy ->
          In query legacy -> tableKey query <> Ok k) ->
      obj_get k (own (queries (fst (legacyState h st ls)))) = obj_get k (own (queries st))).
Proof.
  intros Hqe Htb. split; [|split]; intros Hother.
  - apply (legacyState_provenance
             (fun s => obj_get k (queryEditors s) = obj_get k (queryEditors st))
             h st ls eq_refl).
    intros sqlLab Hsql.
    assert (H : (fun s => obj_get k (queryEditors s) = obj_get k (queryEditors st)
                          /\ distinct_keys (queryEditors s))
                  (final (mergeLegacy sqlLab st))).
    { apply mergeLegacy_provenance; try (intros; assumption).
      - now split.
      - intros s qes qe x [Hs Hds] Hqes Hin Hx. cbn [queryEditors set_queryEditors].
        rewrite <- (array_elements _ _ _ Hqes) in Hin.
        destruct (addLegacyEditor_keeps_other _ _ _ _ k Hds (Hother sqlLab qe Hsql Hin) Hx)
          as (E & Hdx).
        split; [now rewrite E|exact Hdx]. }
    exact (proj1 H).
  - apply (legacyState_provenance
             (fun s => obj_get k (tables s) = obj_get k (tables st))
             h st ls eq_refl).
    intros sqlLab Hsql.
    assert (H : (fun s => obj_get k (tables s) = obj_get k (tables st)
                          /\ distinct_keys (tables s))
                  (final (mergeLegacy sqlLab st))).
    { apply mergeLegacy_provenance; try (intros; assumption).
      - now split.
      - intros s legacy merged seen [Hs Hds] Hlegacy Hred. cbn [tables set_tables].
        split.
        + rewrite <- Hs. apply (legacy_tables_keep (tables s) k legacy _ _ _ _ Hds Hred).
          intros later Hin. rewrite <- (array_elements _ _ _ Hlegacy) in Hin.
          exact (Hother sqlLab later Hsql Hin).
        + exact (legacy_tables_distinct _ _ _ _ _ _ Hds Hred). }
    exact (proj1 H).
  - apply (legacyState_provenance
             (fun s => obj_get k (own (queries s)) = obj_get k (own (queries st)))
             h st ls eq_refl).
    intros sqlLab Hsql.
    apply (mergeLegacy_provenance
             (fun s => obj_get k (own (queries s)) = obj_get k (own (queries st))));
      try (intros; assumption); [reflexivity|].
    intros s legacy query x Hs Hlegacy Hin Hx. cbn [queries set_queries].
    assert (Hk := Hother sqlLab legacy query Hsql Hlegacy Hin).
    unfold addLegacyQuery in Hx. unfold tableKey in Hk.
    apply bind_Ok in Hx as (id & Hid & Hx). rewrite Hid in Hk. cbn [bind] in Hk.
    apply bind_Ok in Hx as (key & Hkey & Hx). injection Hx as <-.
    rewrite assign_member_other; [exact Hs|]. intros ->. now elim Hk.
Qed.

Lemma legacy_stage_changes_only_its_ids_witness :
  obj_get "1" (queryEditors (fst (legacyState (host_reading other_editor_blob)
                                    one_tab_state legacy_store)))
  = obj_get "1" (queryEditors one_tab_state).
Proof.
  apply (legacy_stage_changes_only_its_ids (host_reading other_editor_blob)
           one_tab_state legacy_store "1").
  - unfold distinct_keys. vm_compute. repeat constructor; cbn [In]; intuition discriminate.
  - unfold distinct_keys. vm_compute. constructor.
  - intros sqlLab qe H. vm_compute in H. injection H as <-.
    intros [<-|[]]. discriminate.
Defined.

(** ** The order in which editors and tables are listed *)

Lemma array_index_canonical (k : string) (n : N) :
  array_index k = Some n -> NilZero.string_of_uint (N.to_uint n) = k.
Proof.
  unfold array_index. destruct (NilZero.uint_of_string k) as [u|]; [|discriminate].
  destruct (String.eqb_spec (NilZero.string_of_uint (N.to_uint (N.of_uint u))) k) as [E|_];
    [|discriminate].
  cbn [andb]. destruct (N.of_uint u <? 4294967295)%N; [|discriminate].
  intros H. injection H as <-. exact E.
Qed.

Lemma array_index_inj (k k' : string) (n : N) :
  array_index k = Some n -> array_index k' = Some n -> k = k'.
Proof.
  intros H H'. now rewrite <- (array_index_canonical _ _ H), <- (array_index_canonical _ _ H').
Qed.

Lemma key_before_trans (a b c : string) :
  key_before a b = true -> key_before b c = true -> key_before a c = true.
Proof.
  unfold key_before.
  destruct (array_index a), (array_index b), (array_index c); try easy.
  rewrite !N.ltb_lt. lia.
Qed.

Lemma key_before_all (a b : string) (r : list string) :
  key_before a b = true ->
  Forall (fun k' => key_before b k' = true) r ->
  Forall (fun k' => key_before a k' = true) r.
Proof.
  intros Hab. apply Forall_impl. intros c. now apply key_before_trans.
Qed.

Lemma keys_insert_index (i : N) (k : string) (v : value) (o : props) (x : string) :
  In x (map fst (insert_index i k v o)) -> x = k \/ In x (map fst o).
Proof.
  induction o as [|[k' v'] o IH]; cbn [insert_index map fst In].
  - intros [<-|[]]. now left.
  - destruct (array_index k') as [j|].
    + destruct (j <? i)%N; cbn [map fst In].
      * intros [<-|H]; [right; now left|]. destruct (IH H) as [->|H']; auto.
      * intros [<-|H]; auto.
    + cbn [map fst In]. intros [<-|H]; auto.
Qed.

Lemma order_insert_index (i : N) (k : string) (v : value) (o : props) :
  array_index k = Some i ->
  ~ In k (map fst o) ->
  enumeration_order (map fst o) ->
  enumeration_order (map fst (insert_index i k v o)).
Proof.
  intros Hk. induction o as [|[k' v'] o IH]; cbn [insert_index map fst]; intros Hnew Hord.
  - cbn. now split.
  - cbn [enumeration_order] in Hord. destruct Hord as (Hall & Hord).
    assert (Hne : k' <> k) by (intros ->; apply Hnew; now left).
    assert (Hnew' : ~ In k (map fst o)) by (intros H; apply Hnew; now right).
    assert (Hfirst : forall b, b = true -> key_before k k' = b ->
                               enumeration_order (k :: k' :: map fst o)).
    { intros b -> Hb. cbn [enumeration_order]. repeat split; try assumption.
      constructor; [exact Hb|]. now apply (key_before_all k k'). }
    destruct (array_index k') as [j|] eqn:Ek'.
    + destruct (N.ltb_spec j i) as [Hlt|Hge]; cbn [map fst].
      * cbn [enumeration_order]. split; [|now apply IH].
        apply Forall_forall. intros x Hx. apply keys_insert_index in Hx as [->|Hx].
        -- unfold key_before. rewrite Ek', Hk. now apply N.ltb_lt.
        -- rewrite Forall_forall in Hall. now apply Hall.
      * apply (Hfirst true eq_refl). unfold key_before. rewrite Hk, Ek'.
        apply N.ltb_lt. assert (i <> j); [|lia].
        intros ->. apply Hne. exact (array_index_inj _ _ _ Ek' Hk).
    + cbn [map fst]. apply (Hfirst true eq_refl). unfold key_before. now rewrite Hk, Ek'.
Qed.

Lemma order_append (k : string) (keys : list string) :
  array_index k = None ->
  enumeration_order keys -> enumeration_order (keys ++ [k]).
Proof.
  intros Hk. induction keys as [|k' keys IH]; cbn [app enumeration_order].
  - now split.
  - intros (Hall & Hord). split; [|now apply IH].
    apply Forall_app. split; [exact Hall|]. constructor; [|constructor].
    unfold key_before. rewrite Hk. now destruct (array_index k').
Qed.

Lemma order_obj_set (k : string) (v : value) (o : props) :
  enumeration_order (map fst o) -> enumeration_order (map fst (obj_set k v o)).
Proof.
  intros Hord. unfold obj_set, has_own. destruct (obj_get k o) eqn:E.
  - now rewrite keys_replace_own.
  - apply obj_get_None in E. destruct (array_index k) as [i|] eqn:Ek.
    + now apply order_insert_index.
    + rewrite map_app. now apply order_append.
Qed.

Lemma order_assign_all (src : props) :
  forall target,
    enumeration_order (map fst target) ->
    enumeration_order (map fst (assign_all target src)).
Proof.
  unfold assign_all. induction src as [|[k v] src IH]; intros target H; [exact H|].
  cbn [fold_left fst snd]. apply IH. now apply order_obj_set.
Qed.

Lemma order_literal (defs : list member_def) :
  enumeration_order (map fst (object_literal defs)).
Proof.
  unfold object_literal.
  assert (H : forall o, enumeration_order (map fst o) ->
                        enumeration_order (map fst (fold_left define defs o))).
  { induction defs as [|d defs IH]; intros o Ho; [exact Ho|].
    cbn [fold_left]. apply IH. destruct d as [k v|v]; cbn [define].
    - now apply order_obj_set.
    - now apply order_assign_all. }
  apply H. exact I.
Qed.






(** The tabs [10] and [2], given in that order, are listed as [2], [10]. *)
Example descending_tabs_listed :
  map (fun qe => path qe ["id"])
    (elements (path (value_of VUndef (snd (getInitialState (host_reading VNull)
                                             descending_tabs (Items []))))
                 ["sqlLab"; "queryEditors"]))
  = [VStr "2"; VStr "10"].
Proof. reflexivity. Qed.

(** ** Malformed bootstrap data *)

Lemma raises_Ok {A} (x : A) : raises_only_TypeError (Ok x).
Proof. intros e H. discriminate. Qed.

Lemma raises_TypeError {A} : raises_only_TypeError (@Throw A TypeError).
Proof. intros e H. now injection H as <-. Qed.

Lemma raises_bind {A B} (c : result A) (k : A -> result B) :
  raises_only_TypeError c ->
  (forall x, c = Ok x -> raises_only_TypeError (k x)) ->
  raises_only_TypeError (x <- c;; k x).
Proof.
  intros Hc Hk e. destruct c as [x|e']; cbn [bind].
  - now apply Hk.
  - intros H. injection H as <-. now apply Hc.
Qed.

Lemma raises_get_prop (v : value) (k : string) : raises_only_TypeError (get_prop v k).
Proof. destruct v; cbn [get_prop]; auto using raises_Ok, raises_TypeError. Qed.

Lemma raises_as_array (v : value) : raises_only_TypeError (as_array v).
Proof. destruct v; cbn [as_array]; auto using raises_Ok, raises_TypeError. Qed.

Lemma raises_ToString : forall v, raises_only_TypeError (ToString v).
Proof.
  fix IH 1. intros [| |[|]|n|s|l|o]; cbn [ToString];
    try apply raises_Ok.
  - induction l as [|x r IHr]; [apply raises_Ok|].
    apply raises_bind.
    + pose proof (IH x) as Hx. destruct x; try apply raises_Ok; exact Hx.
    + intros s _. destruct r; [apply raises_Ok|].
      apply raises_bind; [exact IHr|]. intros; apply raises_Ok.
  - destruct (has_own "toString" o); [apply raises_TypeError|apply raises_Ok].
Qed.

Lemma raises_toString (v : value) : raises_only_TypeError (toString v).
Proof.
  destruct v; cbn [toString]; try apply raises_TypeError; apply raises_ToString.
Qed.

Lemma raises_reduce {A B} (f : B -> A -> result B) (l : list A) :
  (forall b x, raises_only_TypeError (f b x)) ->
  forall init, raises_only_TypeError (reduce f l init).
Proof.
  intros Hf. induction l as [|x l IH]; intros init; cbn [reduce].
  - apply raises_Ok.
  - apply raises_bind; [apply Hf|]. intros b _. apply IH.
Qed.

Lemma raises_filter_r {A} (p : A -> result bool) (l : list A) :
  (forall x, raises_only_TypeError (p x)) ->
  raises_only_TypeError (filter_r p l).
Proof.
  intros Hp. induction l as [|x l IH]; cbn [filter_r].
  - apply raises_Ok.
  - apply raises_bind; [apply Hp|]. intros keep _.
    apply raises_bind; [exact IH|]. intros rest _. apply raises_Ok.
Qed.

Ltac raises :=
  repeat first
    [ apply raises_Ok
    | apply raises_TypeError
    | apply raises_get_prop
    | apply raises_as_array
    | apply raises_toString
    | apply raises_ToString
    | apply raises_bind; [|intros ? _]
    | match goal with
      | |- raises_only_TypeError (if ?b then _ else _) => destruct b
      end ].

Lemma raises_tabQueryEditor (dflt : props) (activeTab tab : value) :
  raises_only_TypeError (tabQueryEditor dflt activeTab tab).
Proof.
  unfold tabQueryEditor, optional_prop. raises.
  all: match goal with
       | |- raises_only_TypeError (match ?v with _ => _ end) => destruct v
       end; raises.
Qed.

Lemma raises_serverState (h : host) (a : args) :
  raises_only_TypeError (serverState h a).
Proof.
  unfold serverState. apply raises_bind.
  { unfold defaultQueryEditor. raises. }
  intros dflt _. apply raises_bind; [raises|]. intros tabs _.
  apply raises_bind.
  { apply raises_reduce. intros b x. unfold addTab, ToPropertyKey.
    apply raises_bind; [apply raises_tabQueryEditor|]. intros qe _. raises. }
  intros qes _. apply raises_bind; [raises|]. intros history _.
  apply raises_bind; [|intros; apply raises_Ok].
  destruct (truthy (activeTab a)); [|apply raises_Ok].
  apply raises_bind; [raises|]. intros schemas _.
  apply raises_bind; [raises|]. intros all _.
  apply raises_bind.
  { apply raises_filter_r. intros x. unfold hasDescription. raises. }
  intros described _. apply raises_reduce. intros b x.
  unfold addTable, tabTable, ToPropertyKey. raises.
Qed.

Lemma toString_not_nullish (v : value) (s : string) :
  toString v = Ok s -> nullish v = false.
Proof. now destruct v. Qed.

Lemma get_prop_not_nullish (v x : value) (k : string) :
  get_prop v k = Ok x -> nullish v = false.
Proof. now destruct v. Qed.

Lemma serverState_well_formed (h : host) (a : args) (st : state) :
  serverState h a = Ok st -> ~ malformed a.
Proof.
  intros Hst [Hconf|[(Hundef & Harr)|[(tab & Hin & Hid)|(Hactive & Htab)]]].
  - unfold serverState in Hst. apply bind_Ok in Hst as (dflt & Hd & _).
    unfold defaultQueryEditor in Hd. apply bind_Ok in Hd as (conf & Hc & Hd).
    apply bind_Ok in Hd as (ql & Hql & _).
    rewrite (path_get_prop _ _ _ Hc) in Hconf.
    now rewrite (get_prop_not_nullish _ _ _ Hql) in Hconf.
  - unfold serverState in Hst. apply bind_Ok in Hst as (dflt & _ & Hst).
    apply bind_Ok in Hst as (tabs & Htabs & _).
    destruct (tabStateIds a); try discriminate; [now apply Hundef|now apply (Harr items)].
  - destruct (serverState_editors h a st Hst) as (dflt & _ & Hred).
    destruct (filed_all_built (tabQueryEditor dflt (activeTab a))
                (fun v : props => ToPropertyKey (member v "id")) _
                (addTab_files dflt (activeTab a)) _ _ _ Hred tab Hin) as (v & key & Hv & _).
    apply tabQueryEditor_key in Hv as (s & Hs & _).
    unfold tabKey in Hs. now rewrite (toString_not_nullish _ _ Hs) in Hid.
  - assert (Hh := serverState_tabHistory h a st Hst).
    assert (Ht := serverState_tables h a st Hst).
    rewrite Hactive in Hh, Ht.
    destruct Htab as [Hid|[Hschemas|(ts & Hin & Hts)]].
    + destruct Hh as (s & Hs & _). now rewrite (toString_not_nullish _ _ Hs) in Hid.
    + unfold serverState in Hst. rewrite Hactive in Hst.
      apply bind_Ok in Hst as (dflt & _ & Hst). apply bind_Ok in Hst as (tabs & _ & Hst).
      apply bind_Ok in Hst as (qes & _ & Hst). apply bind_Ok in Hst as (history & _ & Hst).
      apply bind_Ok in Hst as (tbls & Htbls & _).
      apply bind_Ok in Htbls as (v & Hv & Htbls). apply bind_Ok in Htbls as (all & Hall & _).
      rewrite (path_get_prop _ _ _ Hv) in Hschemas.
      destruct v; try discriminate. now apply (Hschemas items).
    + assert (Hdesc : is_described ts = true).
      { destruct Hts as [E|[E _]]; [|exact E]. unfold is_described. now rewrite E. }
      assert (Hx : In ts (filter is_described (schemasOf a))) by now apply filter_In.
      destruct (filed_all_built tabTable (fun v : props => ToPropertyKey (member v "id")) _
                  addTable_files _ _ _ Ht ts Hx) as (v & key & Hv & _).
      unfold tabTable in Hv.
      apply bind_Ok in Hv as (d & Hd & Hv). apply bind_Ok in Hv as (p & Hp & Hv).
      apply bind_Ok in Hv as (db & Hdb & Hv). apply bind_Ok in Hv as (tsid & Htsid & Hv).
      apply bind_Ok in Hv as (qid & Hqid & _).
      destruct Hts as [E|[_ E]].
      * rewrite (path_get_prop _ _ _ Hd) in E. subst d. discriminate.
      * rewrite (path_get_prop _ _ _ Htsid) in E.
        now rewrite (toString_not_nullish _ _ Hqid) in E.
Qed.

(** X17. Malformed bootstrap data is not tolerated: the call raises a
    [TypeError] from the lines outside the [try], before it has read or
    changed the local storage. *)
Theorem malformed_bootstrap_raises (h : host) (a : args) (ls : storage) :
  malformed a -> getInitialState h a ls = (ls, Throw TypeError).
Proof.
  intros Hbad. unfold getInitialState. destruct (serverState h a) as [st|e] eqn:E.
  - elim (serverState_well_formed h a st E Hbad).
  - now rewrite (raises_serverState h a e E).
Qed.

Lemma malformed_bootstrap_raises_witness :
  getInitialState (host_reading VNull) no_conf legacy_store
  = (legacy_store, Throw TypeError).
Proof.
  apply (malformed_bootstrap_raises (host_reading VNull) no_conf legacy_store).
  left. reflexivity.
Defined.

(** ** Copies, and the coercion applied twice *)

Lemma insert_index_last (i : N) (k : string) (v : value) (o : props) :
  array_index k = Some i ->
  Forall (fun k' => key_before k' k = true) (map fst o) ->
  ~ In k (map fst o) ->
  insert_index i k v o = o ++ [(k, v)].
Proof.
  intros Hk. induction o as [|[k' v'] o IH]; cbn [insert_index map fst app]; intros Hall Hnew.
  - reflexivity.
  - inversion Hall as [|? ? Hb Hall']; subst. unfold key_before in Hb. rewrite Hk in Hb.
    destruct (array_index k') as [j|]; [|discriminate]. rewrite Hb.
    rewrite IH; [reflexivity|exact Hall'|]. intros H. apply Hnew. now right.
Qed.

Lemma order_app_before (keys : list string) (k : string) (r : list string) :
  enumeration_order (keys ++ k :: r) ->
  Forall (fun k' => key_before k' k = true) keys.
Proof.
  induction keys as [|k' keys IH]; cbn [app enumeration_order]; [constructor|].
  intros (Hall & Hord). constructor; [|now apply IH].
  rewrite Forall_forall in Hall. apply Hall. apply in_or_app. right. now left.
Qed.

Lemma assign_all_app (src : props) :
  forall target,
    distinct_keys (target ++ src) ->
    enumeration_order (map fst (target ++ src)) ->
    assign_all target src = target ++ src.
Proof.
  unfold assign_all.
  induction src as [|[k v] src IH]; intros target Hd Hord; cbn [fold_left fst snd].
  - now rewrite app_nil_r.
  - assert (Hnew : ~ In k (map fst target)).
    { unfold distinct_keys in Hd. rewrite map_app in Hd. cbn [map fst] in Hd.
      apply NoDup_remove_2 in Hd. intros H. apply Hd. apply in_or_app. now left. }
    assert (Hset : obj_set k v target = target ++ [(k, v)]).
    { unfold obj_set, has_own. rewrite (proj2 (obj_get_None k target) Hnew).
      destruct (array_index k) as [i|] eqn:Ek; [|reflexivity].
      apply insert_index_last; [exact Ek| |exact Hnew].
      rewrite map_app in Hord. exact (order_app_before _ _ _ Hord). }
    rewrite Hset. rewrite IH; rewrite <- app_assoc; [reflexivity|exact Hd|exact Hord].
Qed.

Lemma copy_identity (o : props) :
  distinct_keys o -> enumeration_order (map fst o) ->
  object_literal [Spread (VObj o)] = o.
Proof.
  intros Hd Hord. unfold object_literal. cbn [fold_left define own_enumerable].
  exact (assign_all_app o [] Hd Hord).
Qed.

Lemma replace_own_same (k : string) (v : value) (o : props) :
  obj_get k o = Some v -> replace_own k v o = o.
Proof.
  induction o as [|[k' v'] o IH]; cbn [obj_get replace_own]; [discriminate|].
  destruct (String.eqb_spec k' k) as [->|_].
  - intros H. now injection H as ->.
  - intros H. now rewrite IH.
Qed.

Lemma obj_set_same (k : string) (v : value) (o : props) :
  obj_get k o = Some v -> obj_set k v o = o.
Proof.
  intros H. unfold obj_set, has_own. rewrite H. now apply replace_own_same.
Qed.

Lemma coerceDttm_again (k : string) (record : props) :
  forall x,
    match obj_get k record with
    | Some (VNum n) => True
    | Some v => truthy v = false
    | None => True
    end ->
    coerceDttm k (VObj record) = Ok x ->
    assign_all record (own_enumerable x) = record.
Proof.
  intros x Hk. unfold coerceDttm. cbn [get_prop bind].
  destruct (obj_get k record) as [v|] eqn:E.
  - destruct (truthy v) eqn:Ev.
    + destruct v; try congruence. cbn [Number ToNumber bind].
      intros H. injection H as <-. unfold object_literal.
      cbn [fold_left define own_enumerable].
      assert (Hone : obj_set k (VNum n) [] = [(k, VNum n)]).
      { unfold obj_set. cbn [has_own obj_get]. now destruct (array_index k). }
      rewrite Hone. unfold assign_all. cbn [fold_left fst snd]. now apply obj_set_same.
    + intros H. injection H as <-. destruct v; try discriminate; try reflexivity.
      destruct s; [reflexivity|discriminate].
  - cbn [truthy]. intros H. now injection H as <-.
Qed.

Lemma coerceDttm_settled (k : string) (record : props) :
  match obj_get k record with
  | Some (VNum n) => True
  | Some v => truthy v = false
  | None => True
  end ->
  exists x,
    coerceDttm k (VObj record) = Ok x
    /\ assign_all record (own_enumerable x) = record.
Proof.
  intros Hk.
  assert (H : exists x, coerceDttm k (VObj record) = Ok x).
  { unfold coerceDttm. cbn [get_prop bind]. destruct (obj_get k record) as [v|].
    - destruct (truthy v) eqn:Ev; [|now eexists].
      destruct v; try congruence. now eexists.
    - now eexists. }
  destruct H as (x & Hx). exists x. split; [exact Hx|].
  exact (coerceDttm_again k record x Hk Hx).
Qed.

Lemma Number_is_number (v n : value) :
  Number v = Ok n -> exists x, n = VNum x.
Proof.
  unfold Number. intros H. apply bind_Ok in H as (x & _ & H). injection H as <-. now exists x.
Qed.

Lemma snapshotQuery_settled (o record : props) (k : string) :
  distinct_keys o ->
  is_dttm k = true ->
  snapshotQuery (VObj o) = Ok (VObj record) ->
  match obj_get k record with
  | Some (VNum n) => True
  | Some v => truthy v = false
  | None => True
  end.
Proof.
  intros Hd Hk H. destruct (snapshotQuery_Ok _ _ H) as (r & Hr & Hfields).
  injection Hr as <-. destruct (Hfields k) as (Htrue & Hfalse).
  destruct (truthy (path (VObj o) [k])) eqn:Et.
  - destruct (Htrue Hk eq_refl) as (n & Hn & ->).
    now destruct (Number_is_number _ _ Hn) as (x & ->).
  - rewrite (Hfalse (or_intror eq_refl)). rewrite (obj_get_copy o k Hd).
    cbn [path get_prop] in Et. destruct (obj_get k o) as [v|]; [|exact I].
    now destruct v.
Qed.

(** X18. The coercion of the timestamps is idempotent: a query record that has
    been through it is returned unchanged, field for field and in the same
    order, when it is put through it again. *)
Theorem timestamp_coercion_idempotent (o : props) (q : value) :
  distinct_keys o ->
  snapshotQuery (VObj o) = Ok q ->
  snapshotQuery q = Ok q.
Proof.
  intros Hd H. destruct (snapshotQuery_Ok _ _ H) as (record & -> & _).
  assert (Hs := snapshotQuery_settled o record "startDttm" Hd eq_refl H).
  assert (He := snapshotQuery_settled o record "endDttm" Hd eq_refl H).
  destruct (coerceDttm_settled _ _ Hs) as (x1 & Hx1 & E1).
  destruct (coerceDttm_settled _ _ He) as (x2 & Hx2 & E2).
  assert (Hcopy : object_literal [Spread (VObj record)] = record).
  { unfold snapshotQuery in H. binds H. injection H as <-.
    apply copy_identity; [apply distinct_keys_literal|apply order_literal]. }
  unfold snapshotQuery. rewrite Hx1, Hx2. cbn [bind]. do 2 f_equal.
  unfold object_literal in *. cbn [fold_left define] in *.
  now rewrite Hcopy, E1, E2.
Qed.

Lemma timestamp_coercion_idempotent_witness :
  snapshotQuery
    (value_of VUndef (snapshotQuery (VObj [("id", VStr "q1"); ("startDttm", VStr "1690000000000")])))
  = Ok (value_of VUndef
          (snapshotQuery (VObj [("id", VStr "q1"); ("startDttm", VStr "1690000000000")]))).
Proof.
  apply (timestamp_coercion_idempotent [("id", VStr "q1"); ("startDttm", VStr "1690000000000")]).
  - unfold distinct_keys. cbn [map fst]. repeat constructor; cbn [In]; intuition discriminate.
  - reflexivity.
Defined.

(** ** What the local storage cannot reach *)

Lemma snapshot_independent (h h' : host) (a : args) (st st' : state) (snap snap' : value) :
  getToastsFromPyFlashMessages h = getToastsFromPyFlashMessages h' ->
  snapshot h a st = Ok snap ->
  snapshot h' a st' = Ok snap' ->
  (forall k, k <> "sqlLab" -> path snap [k] = path snap' [k])
  /\ (forall k, ~ In k merged_fields -> k <> "queriesLastUpdate" ->
                path snap ["sqlLab"; k] = path snap' ["sqlLab"; k])
  /\ path snap ["sqlLab"; "queriesLastUpdate"] = VNum (Int (Date_now h))
  /\ path snap' ["sqlLab"; "queriesLastUpdate"] = VNum (Int (Date_now h')).
Proof.
  unfold snapshot. intros Htoasts H H'. rewrite <- Htoasts in H'.
  apply bind_Ok in H as (qs & _ & H). apply bind_Ok in H' as (qs' & _ & H').
  destruct (get_prop (js_or (common a) (VObj [])) "flash_messages") as [flash|]; [|discriminate].
  destruct (get_prop (common a) "flash_messages") as [fm|]; [|discriminate].
  destruct (get_prop (common a) "conf") as [conf|]; [|discriminate].
  cbn [bind] in H, H'. injection H as <-. injection H' as <-.
  split; [|split; [|split; reflexivity]].
  - intros k Hk. cbn [path get_prop]. rewrite !obj_get_literal. cbn [lookup_defs].
    destruct (String.eqb_spec "sqlLab" k) as [E|_]; [now elim Hk|reflexivity].
  - intros k Hk Hclock.
    change ["sqlLab"; k] with (["sqlLab"] ++ [k]). rewrite !path_app.
    cbn [path get_prop]. rewrite !obj_get_literal.
    cbn [lookup_defs String.eqb Ascii.eqb Bool.eqb get_prop]. rewrite !obj_get_literal.
    cbn [lookup_defs].
    unfold merged_fields in Hk. cbn [In] in Hk.
    destruct (String.eqb_spec "queries" k) as [E|_]; [elim Hk; auto|].
    destruct (String.eqb_spec "queryEditors" k) as [E|_]; [elim Hk; auto|].
    destruct (String.eqb_spec "tabHistory" k) as [E|_]; [elim Hk; auto|].
    destruct (String.eqb_spec "tables" k) as [E|_]; [elim Hk; auto|].
    destruct (String.eqb_spec "queriesLastUpdate" k) as [E|_]; [now elim Hclock|].
    destruct (String.eqb_spec "unsavedQueryEditor" k) as [E|_]; [elim Hk; auto 6|].
    reflexivity.
Qed.

(** X19. The local storage reaches five members of [sqlLab] and nothing else.
    Two calls on the same bootstrap data with the same toast helper,
    whatever each finds in the local storage and whatever the clock reads
    at each, return the same [requestedQuery], [messageToasts], [common]
    and [localStorageUsageInKilobytes], and the same [sqlLab] apart from
    [queries], [queryEditors], [tabHistory], [tables] and
    [unsavedQueryEditor], and apart from [queriesLastUpdate], which is the
    clock reading of each call. *)
Theorem storage_reaches_merged_fields_only (h h' : host) (a : args) (ls ls' : storage)
  (snap snap' : value) :
  getToastsFromPyFlashMessages h = getToastsFromPyFlashMessages h' ->
  snd (getInitialState h a ls) = Ok snap ->
  snd (getInitialState h' a ls') = Ok snap' ->
  (forall k, k <> "sqlLab" -> path snap [k] = path snap' [k])
  /\ (forall k, ~ In k merged_fields -> k <> "queriesLastUpdate" ->
                path snap ["sqlLab"; k] = path snap' ["sqlLab"; k])
  /\ path snap ["sqlLab"; "queriesLastUpdate"] = VNum (Int (Date_now h))
  /\ path snap' ["sqlLab"; "queriesLastUpdate"] = VNum (Int (Date_now h')).
Proof.
  rewrite !getInitialState_snd. intros Htoasts H H'.
  apply bind_Ok in H as (st & Hst & H). apply bind_Ok in H' as (st' & Hst' & H').
  exact (snapshot_independent h h' a _ _ snap snap' Htoasts H H').
Qed.

Lemma storage_reaches_merged_fields_only_witness :
  path (value_of VUndef (snd (getInitialState (host_reading other_editor_blob) one_tab
                                legacy_store))) ["sqlLab"; "databases"]
  = path (value_of VUndef (snd (getInitialState (later_host other_editor_blob) one_tab
                                  (Items [])))) ["sqlLab"; "databases"].
Proof.
  apply (storage_reaches_merged_fields_only (host_reading other_editor_blob)
           (later_host other_editor_blob) one_tab
           legacy_store (Items []) _ _ eq_refl eq_refl eq_refl).
  - unfold merged_fields. cbn [In]. intuition discriminate.
  - discriminate.
Defined.

(** The two calls of the witness read different clocks, and differ in
    [queriesLastUpdate]. *)
Example clock_readings_differ :
  path (returned (getInitialState (host_reading other_editor_blob) one_tab legacy_store))
    ["sqlLab"; "queriesLastUpdate"]
  <> path (returned (getInitialState (later_host other_editor_blob) one_tab (Items [])))
       ["sqlLab"; "queriesLastUpdate"].
Proof. vm_compute. discriminate. Qed.

(** ** A legacy table is merged over the server's record *)

Lemma legacy_tables_record (tables : props) (legacy : list value) :
  forall merged0 seen0 merged seen,
    reduce (addLegacyTable tables) legacy (merged0, seen0) = Ok (merged, seen) ->
    forall i table key,
      nth_error legacy i = Some table ->
      tableKey table = Ok key ->
      (forall j later, i < j -> nth_error legacy j = Some later -> tableKey later <> Ok key) ->
      exists expanded,
        obj_get key merged
        = Some (VObj (object_literal
                        [Spread (member tables key);
                         Spread table;
                         Field "expanded" (VBool expanded)])).
Proof.
  induction legacy as [|x legacy IH]; intros merged0 seen0 merged seen H i table key Hi Hkey Hlast.
  - destruct i; discriminate.
  - cbn [reduce] in H. apply bind_Ok in H as ([merged1 seen1] & H1 & H).
    apply addLegacyTable_Ok in H1 as (key1 & Hkey1 & -> & ->).
    destruct i as [|i].
    + injection Hi as ->. rewrite Hkey in Hkey1. injection Hkey1 as <-.
      eexists.
      rewrite (legacy_tables_keep _ key _ _ _ _ _ (distinct_keys_literal _) H).
      * now rewrite obj_get_copy_with, String.eqb_refl.
      * intros later Hin. apply In_nth_error in Hin as (j & Hj).
        apply (Hlast (S j)); [lia|exact Hj].
    + apply (IH _ _ _ _ H i table key Hi Hkey).
      intros j later Hj. apply (Hlast (S j)). lia.
Qed.

(** X20. A legacy table is merged over the record the backend supplied under
    its key, never over an earlier legacy table: in the record filed for
    the last legacy table with a key, every member other than [expanded]
    is the legacy table's, or else the server record's; what an earlier
    legacy table with the same key carried is gone. *)
Theorem legacy_table_over_server_record (tables merged : props)
    (legacy seen : list value) (i : nat) (table : value) (key : string) :
  reduce (addLegacyTable tables) legacy (tables, []) = Ok (merged, seen) ->
  nth_error legacy i = Some table ->
  tableKey table = Ok key ->
  (forall j later, i < j -> nth_error legacy j = Some later -> tableKey later <> Ok key) ->
  exists record,
    obj_get key merged = Some (VObj record)
    /\ forall f, f <> "expanded" ->
         obj_get f record
         = or_else (obj_get_last f (own_enumerable table))
             (obj_get_last f (own_enumerable (member tables key))).
Proof.
  intros H Hi Hkey Hlast.
  destruct (legacy_tables_record tables legacy _ _ _ _ H i table key Hi Hkey Hlast)
    as (expanded & Hrec).
  eexists. split; [exact Hrec|]. intros f Hf.
  rewrite obj_get_literal. cbn [lookup_defs].
  destruct (String.eqb_spec "expanded" f) as [E|_]; [now elim Hf|].
  now destruct (obj_get_last f (own_enumerable (member tables key))).
Qed.

Lemma legacy_table_over_server_record_witness :
  exists record,
    obj_get "t1" (fst (value_of ([], []) (reduce (addLegacyTable []) repeated_legacy_tables
                                            ([], []))))
    = Some (VObj record)
    /\ forall f, f <> "expanded" ->
         obj_get f record
         = or_else (obj_get_last f [("id", VStr "t1"); ("queryEditorId", VStr "1")])
             (obj_get_last f (own_enumerable (member [] "t1"))).
Proof.
  apply (legacy_table_over_server_record [] _ repeated_legacy_tables _ 1
           (VObj [("id", VStr "t1"); ("queryEditorId", VStr "1")]) "t1" eq_refl eq_refl eq_refl).
  intros [|[|j]] later Hj Hlater; [lia|lia|destruct j; discriminate].
Defined.

(** The [columns] of the first of two legacy tables with one key are not
    in the record that is filed. *)
Example repeated_legacy_tables_lose_columns :
  path (VObj (fst (value_of ([], []) (reduce (addLegacyTable []) repeated_legacy_tables
                                        ([], [])))))
    ["t1"; "columns"] = VUndef.
Proof. reflexivity. Qed.
